(** * Petice YT Downloader: a shallow embedding of [src/main.py]

    The development follows the source top-down: the Python values and
    string operations the program uses, [sanitize_filename],
    [get_playlist_info], the progress hook, the sequential and the concurrent
    download process, and the event loop of [main].  Definitions come first,
    the theorems about them afterwards. *)

From Stdlib Require Import ZArith String Ascii List Lia Bool.
From Stdlib Require Import Floats.SpecFloat.
From stdpp Require Import base option list gmap strings pretty.


(* ===================================================================== *)
(** * Python values                                                       *)
(* ===================================================================== *)

(** What [d.get(key)] can observe for one key of a dictionary whose values
    have type [A]: the key is missing, it is bound to [None], or it is bound
    to a value. *)
Inductive field (A : Type) : Type :=
  | Absent
  | IsNone
  | Val (a : A).
Arguments Absent {A}.
Arguments IsNone {A}.
Arguments Val {A} a.

(** [d.get(key)]: a value or [None] (here Rocq's [None]). *)
Definition get {A} (f : field A) : option A :=
  match f with Val a => Some a | _ => None end.

(** [d.get(key, dflt)]: the default only replaces a missing key. *)
Definition get_default {A} (f : field A) (dflt : A) : option A :=
  match f with Absent => Some dflt | IsNone => None | Val a => Some a end.

(** Exceptions: the class and [str(e)]. *)
Inductive exn_class :=
  | AttributeError | TypeError | ValueError | OverflowError | ZeroDivisionError
  | FileNotFoundError | FileExistsError | OSError | DownloadError
  | DownloadCancelled.

Record exn := Exn { exn_cls : exn_class; exn_str : string }.

Inductive result (A : Type) : Type :=
  | Ok (a : A)
  | Raise (e : exn).
Arguments Ok {A} a.
Arguments Raise {A} e.

(** A computation over a state [S] that returns or raises. *)
Definition M (S A : Type) : Type := S -> result A * S.

Definition ret {S A} (a : A) : M S A := fun s => (Ok a, s).
Definition raise {S A} (e : exn) : M S A := fun s => (Raise e, s).
Definition bind {S A B} (m : M S A) (k : A -> M S B) : M S B :=
  fun s => match m s with
           | (Ok a, s') => k a s'
           | (Raise e, s') => (Raise e, s')
           end.

(** [try: body / except Exception as e: handler e]. *)
Definition try_except {S A} (body : M S A) (handler : exn -> M S A) : M S A :=
  fun s => match body s with
           | (Ok a, s') => (Ok a, s')
           | (Raise e, s') => handler e s'
           end.

(** [try: body / finally: cleanup]. *)
Definition try_finally {S A} (body : M S A) (cleanup : M S unit) : M S A :=
  fun s => match body s with
           | (r, s') => match cleanup s' with
                        | (Ok _, s'') => (r, s'')
                        | (Raise e, s'') => (Raise e, s'')
                        end
           end.

Definition modify {S} (f : S -> S) : M S unit := fun s => (Ok tt, f s).
Definition gets {S A} (f : S -> A) : M S A := fun s => (Ok (f s), s).

#[global] Instance M_ret {S} : MRet (M S) := fun A a => ret a.
#[global] Instance M_bind {S} : MBind (M S) := fun A B k m => bind m k.
#[global] Instance M_fmap {S} : FMap (M S) :=
  fun A B f m => bind m (fun a => ret (f a)).

(* ===================================================================== *)
(** * Strings                                                             *)
(* ===================================================================== *)

(** Python strings are modelled by [string]; a character is a code point
    below 256.  [py_isspace] is [str.isspace] on that range. *)
Definition py_isspace (c : ascii) : bool :=
  let n := nat_of_ascii c in
  ((9 <=? n) && (n <=? 13)) || ((28 <=? n) && (n <=? 32))
  || (n =? 133) || (n =? 160).

(** [s.replace(old, new)] for one-character [old] and [new]. *)
Fixpoint str_replace_char (old new : ascii) (s : string) : string :=
  match s with
  | EmptyString => EmptyString
  | String c s' =>
      String (if Ascii.eqb c old then new else c) (str_replace_char old new s')
  end.

(** [s.lstrip(chars)] and [s.rstrip(chars)], the character set as a test. *)
Fixpoint str_lstrip (P : ascii -> bool) (s : string) : string :=
  match s with
  | EmptyString => EmptyString
  | String c s' => if P c then str_lstrip P s' else s
  end.

Fixpoint str_rstrip (P : ascii -> bool) (s : string) : string :=
  match s with
  | EmptyString => EmptyString
  | String c s' =>
      match str_rstrip P s' with
      | EmptyString => if P c then EmptyString else String c EmptyString
      | r => String c r
      end
  end.

(** [s.strip()]. *)
Definition str_strip (s : string) : string :=
  str_rstrip py_isspace (str_lstrip py_isspace s).

Definition str_head (s : string) : option ascii :=
  match s with EmptyString => None | String c _ => Some c end.

Fixpoint str_last (s : string) : option ascii :=
  match s with
  | EmptyString => None
  | String c EmptyString => Some c
  | String _ s' => str_last s'
  end.

Definition str_mem (c : ascii) (s : string) : Prop :=
  In c (list_ascii_of_string s).

(** [s.startswith(p)]. *)
Definition startswith (s p : string) : bool := String.prefix p s.

(** [s[:n]]. *)
Definition str_take (n : nat) (s : string) : string := String.substring 0 n s.

(** [sep.join(l)]. *)
Fixpoint str_join (sep : string) (l : list string) : string :=
  match l with
  | [] => EmptyString
  | [s] => s
  | s :: l' => s +:+ sep +:+ str_join sep l'
  end.

(* ===================================================================== *)
(** * [sanitize_filename]                                                 *)
(* ===================================================================== *)

Definition dquote : ascii := ascii_of_nat 34.

(** [invalid_chars]: less-than, greater-than, colon, double quote, slash,
    backslash, bar, question mark, star. *)
Definition invalid_chars : list ascii :=
  ["<"; ">"; ":"; dquote; "/"; "\"; "|"; "?"; "*"]%char.

Definition is_dot (c : ascii) : bool := Ascii.eqb c "."%char.

Definition sanitize_filename (name : string) : string :=
  let name :=
    fold_left (fun name char => str_replace_char char "_"%char name)
              invalid_chars name in
  str_rstrip is_dot (str_strip name).

(* ===================================================================== *)
(** * [get_playlist_info]                                                 *)
(* ===================================================================== *)

(** The dictionaries yt-dlp hands out, with the keys this program reads.
    The info of a single video is itself used as the only entry, so infos
    and entries share one type. *)
#[warnings="-register-all"] Inductive ytdict : Type :=
  YtDict {
    yt_id : field string;
    yt_url : field string;
    yt_title : field string;
    yt_entries : field (list ytdict)
  }.

(** The dictionary [get_playlist_info] returns and the queue holds. *)
Record playlist_info := PlaylistInfo {
  title : string;
  url : string;
  total : Z;
  entries : list ytdict
}.

(** What the resolver does to the outside world. *)
Inductive resolver_action :=
  | ExtractInfo (u : string)
  | Sleep (seconds : Z).

Section Resolver.
(** [ydl.extract_info(url, download=False)] at its [k]-th call: it raises,
    returns [None], or returns an info dictionary. *)
Variable extract_info : string -> nat -> result (option ytdict).

Definition resolver_state : Type := list resolver_action.

Definition is_call (a : resolver_action) : bool :=
  match a with ExtractInfo _ => true | Sleep _ => false end.

Definition n_calls (log : resolver_state) : nat :=
  length (List.filter is_call log).

Definition call_extract_info (u : string) : M resolver_state (option ytdict) :=
  fun log => (extract_info u (n_calls log), log ++ [ExtractInfo u]).

Definition sleep (seconds : Z) : M resolver_state unit :=
  modify (fun log => log ++ [Sleep seconds]).

(** The body of the [try] of one attempt. *)
Definition resolve_attempt (u : string) : M resolver_state playlist_info :=
  info ← call_extract_info u;
  (* entries = info.get('entries', []) if info else [] *)
  let entries : option (list ytdict) :=
    match info with
    | Some d => get_default (yt_entries d) []
    | None => Some []
    end in
  (* 'title': sanitize_filename(info.get('title', url)) *)
  t ← match info with
      | None => raise (Exn AttributeError "'NoneType' object has no attribute 'get'")
      | Some d =>
          match get_default (yt_title d) u with
          | Some t => ret (sanitize_filename t)
          | None => raise (Exn AttributeError "'NoneType' object has no attribute 'replace'")
          end
      end;
  (* 'total': len(entries) or 1, 'entries': entries if entries else [info] *)
  match entries, info with
  | Some es, Some d =>
      ret {| title := t; url := u;
             total := (if decide (es = []) then 1 else Z.of_nat (length es))%Z;
             entries := (if decide (es = []) then [d] else es) |}
  | _, _ => raise (Exn TypeError "object of type 'NoneType' has no len()")
  end.

(** [for _ in range(3): try: ... return ... except Exception: time.sleep(1)] *)
Fixpoint resolve_loop (rng : list nat) (u : string) : M resolver_state playlist_info :=
  match rng with
  | [] =>
      ret {| title := sanitize_filename u; url := u; total := 0; entries := [] |}
  | _ :: rng' =>
      r ← try_except (Some <$> resolve_attempt u)
                      (fun _ => sleep 1;; ret None);
      match r with
      | Some info => ret info
      | None => resolve_loop rng' u
      end
  end.

Definition get_playlist_info (u : string) : M resolver_state playlist_info :=
  resolve_loop (seq 0 3) u.
End Resolver.

(* ===================================================================== *)
(** * Numbers                                                             *)
(* ===================================================================== *)

#[global] Instance result_ret : MRet result := fun A a => Ok a.
#[global] Instance result_bind : MBind result :=
  fun A B k r => match r with Ok a => k a | Raise e => Raise e end.

(** A Python number: an [int] (unbounded) or a [float] (binary64, through
    the Standard Library's executable specification of IEEE 754). *)
Inductive pynum :=
  | PInt (z : Z)
  | PFloat (f : spec_float).

Definition f64_mul : spec_float -> spec_float -> spec_float := SFmul 53 1024.
Definition f64_div : spec_float -> spec_float -> spec_float := SFdiv 53 1024.
Definition f64_sub : spec_float -> spec_float -> spec_float := SFsub 53 1024.

(** The nearest binary64 of an integer, ties to even. *)
Definition f64_of_Z (z : Z) : spec_float := binary_normalize 53 1024 z 0 false.

(** An integer as an exact (not normalised) binary float. *)
Definition exact_of_Z (z : Z) : spec_float :=
  match z with
  | Z0 => S754_zero false
  | Zpos p => S754_finite false p 0
  | Zneg p => S754_finite true p 0
  end.

Definition is_infinity (f : spec_float) : bool :=
  match f with S754_infinity _ => true | _ => false end.

Definition is_zero (f : spec_float) : bool :=
  match f with S754_zero _ => true | _ => false end.

(** The literal [0.1]: the binary64 nearest to one tenth, in canonical form
    (a mantissa of 53 bits), as the comparisons of [SpecFloat] expect. *)
Definition f64_0_1 : spec_float := S754_finite false 7205759403792794 (-56).

(** [float(n)] as the arithmetic operators apply it to an operand. *)
Definition py_float (n : pynum) : result spec_float :=
  match n with
  | PFloat f => Ok f
  | PInt z =>
      let f := f64_of_Z z in
      if is_infinity f
      then Raise (Exn OverflowError "int too large to convert to float")
      else Ok f
  end.

(** [bool(x)] of a number or [None]. *)
Definition py_truthy (x : option pynum) : bool :=
  match x with
  | None => false
  | Some (PInt z) => negb (Z.eqb z 0)
  | Some (PFloat f) => negb (is_zero f)
  end.

(** [x or y]. *)
Definition py_or (x y : option pynum) : option pynum :=
  if py_truthy x then x else y.

(** [a / b]: true division.  Two ints give the correctly rounded quotient. *)
Definition py_truediv (a b : option pynum) : result pynum :=
  match a, b with
  | Some (PInt x), Some (PInt y) =>
      if Z.eqb y 0 then Raise (Exn ZeroDivisionError "division by zero")
      else
        let q := f64_div (exact_of_Z x) (exact_of_Z y) in
        if is_infinity q
        then Raise (Exn OverflowError "integer division result too large for a float")
        else Ok (PFloat q)
  | Some x, Some y =>
      fx ← py_float x;
      fy ← py_float y;
      if is_zero fy then Raise (Exn ZeroDivisionError "float division by zero")
      else Ok (PFloat (f64_div fx fy))
  | _, _ => Raise (Exn TypeError "unsupported operand type(s) for /")
  end.

(** [a * b]. *)
Definition py_mul (a b : pynum) : result pynum :=
  match a, b with
  | PInt x, PInt y => Ok (PInt (x * y))
  | _, _ =>
      fx ← py_float a;
      fy ← py_float b;
      Ok (PFloat (f64_mul fx fy))
  end.

(** [int(x)]: truncation towards zero. *)
Definition py_int (x : pynum) : result Z :=
  match x with
  | PInt z => Ok z
  | PFloat (S754_zero _) => Ok 0%Z
  | PFloat (S754_infinity _) =>
      Raise (Exn OverflowError "cannot convert float infinity to integer")
  | PFloat S754_nan =>
      Raise (Exn ValueError "cannot convert float NaN to integer")
  | PFloat (S754_finite s m e) =>
      let a := (if (0 <=? e)%Z then Z.shiftl (Zpos m) e
                else Z.shiftr (Zpos m) (- e))%Z in
      Ok (if s then (- a)%Z else a)
  end.

(* ===================================================================== *)
(** * The progress computation of [progress_hook]                         *)
(* ===================================================================== *)

(** The dictionary yt-dlp passes to a progress hook, with the keys the hook
    reads. *)
Record progress_dict := ProgressDict {
  d_status : field string;
  d_percent : field pynum;
  d_downloaded_bytes : field pynum;
  d_total_bytes : field pynum;
  d_total_bytes_estimate : field pynum
}.

(** [int((downloaded_bytes / total_bytes) * 100)] *)
Definition ratio_percent (downloaded_bytes total_bytes : option pynum) : result Z :=
  q ← py_truediv downloaded_bytes total_bytes;
  p ← py_mul q (PInt 100);
  py_int p.

(** The value of [file_progress] (lines 197-203 and 311-317). *)
Definition file_progress (d : progress_dict) : result Z :=
  let percent := get (d_percent d) in
  match percent with
  | Some p => py_int p
  | None =>
      let downloaded_bytes := get_default (d_downloaded_bytes d) (PInt 0) in
      let total_bytes :=
        py_or (get (d_total_bytes d))
              (get_default (d_total_bytes_estimate d) (PInt 1)) in
      if py_truthy total_bytes then ratio_percent downloaded_bytes total_bytes
      else Ok 0%Z
  end.

(** The progress computation as the specification words it: the exact byte
    ratio when the total size is known, otherwise the percentage yt-dlp
    supplies, otherwise 0. *)
Definition file_progress_spec (d : progress_dict) : Z :=
  match get (d_total_bytes d) with
  | Some (PInt total_bytes) =>
      match get_default (d_downloaded_bytes d) (PInt 0) with
      | Some (PInt downloaded_bytes) => (downloaded_bytes * 100 / total_bytes)%Z
      | _ => 0%Z
      end
  | _ =>
      match get (d_percent d) with
      | Some percent => match py_int percent with Ok p => p | Raise _ => 0%Z end
      | None => 0%Z
      end
  end.

(* ===================================================================== *)
(** * The download processes                                              *)
(* ===================================================================== *)

(** The tuples put on the multiprocessing queue. The two counter messages
    always carry the value 1, which the consumer does not read. *)
Inductive msg :=
  | STATUS (text : string)
  | FILE_PROGRESS (p : Z)
  | PROCESSED_PROGRESS
  | DOWNLOADED_PROGRESS
  | QUEUE_COMPLETE (info : playlist_info)
  | THREAD_END.

Record postprocessor := Postprocessor {
  key : string;
  preferredcodec : string;
  preferredquality : string
}.

Record ydl_opts := YdlOpts {
  ffmpeg_location : string;
  format : string;
  postprocessors : option (list postprocessor);
  outtmpl : string;
  merge_output_format : option string;
  (* COMMON_OPTS *)
  quiet : bool;
  no_warnings : bool;
  logger : bool
}.

(** What a download process cannot decide itself. *)
Record world := World {
  (** [cancel_event.is_set()] at its [k]-th observation *)
  cancel_is_set : nat -> bool;
  (** [time.monotonic()] at its [k]-th reading *)
  monotonic : nat -> spec_float;
  (** the path [get_ffmpeg_path] builds and tests *)
  ffmpeg_path : string;
  (** an error of [os.makedirs] on a free path (permissions, ...) *)
  makedirs_error : string -> option exn;
  (** the [k]-th [ydl.download([video_url])]: the dictionaries handed to the
      progress hook, and how the call ends when no hook raises *)
  ydl_download : ydl_opts -> option string -> nat ->
                 list progress_dict * result unit
}.

(** The state a download process changes. *)
Record wstate := WState {
  sent : list msg;          (** the messages put on the queue, oldest first *)
  fs : gset string;         (** paths that exist, see [path_exists] *)
  is_set_calls : nat;
  clock_reads : nat;
  downloads : nat;
  slept : Z                 (** seconds spent in [time.sleep] *)
}.

Definition wstate_init (paths : gset string) : wstate :=
  WState [] paths 0 0 0 0.

(** [os.path.join(a, b)] and the ancestors of a path, POSIX flavour. *)
Definition path_join (a b : string) : string :=
  if startswith b "/" then b
  else match str_last a with
       | None | Some "/"%char => a +:+ b
       | Some _ => a +:+ "/" +:+ b
       end.

Definition path_ancestors (p : string) : list string :=
  omap (fun i => match String.get i p with
                 | Some "/"%char => if (0 <? i)%nat then Some (str_take i p) else None
                 | _ => None
                 end)
       (seq 0 (String.length p)).

(** [os.path.exists], POSIX flavour. The file system is given by a set of
    paths that exist; a path names the node that its components lead to
    from the root, and with a path all nodes on its way exist. So "/dl/",
    "/dl//X" and "/dl/./X" exist when "/dl/X" does. The model has
    case-sensitive names and no symbolic links, takes every node for a
    directory that can be entered, and resolves a relative path from the
    root. *)

(** [p.split('/')]: the pieces of a path between its slashes. *)
Fixpoint path_components (p : string) : list string :=
  match p with
  | EmptyString => [EmptyString]
  | String c p' =>
      if Ascii.eqb c "/" then EmptyString :: path_components p'
      else match path_components p' with
           | x :: xs => String c x :: xs
           | [] => [String c EmptyString]
           end
  end.

(** One component resolved in the directory [dir], a node given by its
    names from the root: an empty component and [.] stay there, [..] goes
    up (the root is its own parent), a name goes down. *)
Definition path_step (dir : list string) (c : string) : list string :=
  if String.eqb c EmptyString || String.eqb c "." then dir
  else if String.eqb c ".." then removelast dir
  else dir ++ [c].

(** The nodes a list of components leads through, the last one being the
    node it names. *)
Fixpoint path_walk (dir : list string) (cs : list string) : list (list string) :=
  match cs with
  | [] => []
  | c :: cs' => path_step dir c :: path_walk (path_step dir c) cs'
  end.

Definition path_nodes (p : string) : list (list string) :=
  path_walk [] (path_components p).

(** The nodes of a file system: the root and those its paths lead through. *)
Definition fs_nodes (paths : gset string) : gset (list string) :=
  {[ [] ]} ∪ list_to_set (elements paths ≫= path_nodes).

(** [os.path.exists(p)]: a path of the set exists; another one exists when
    it is not the empty string and every node it leads through exists. *)
Definition path_exists (paths : gset string) (p : string) : bool :=
  bool_decide (p ∈ paths)
  || negb (String.eqb p EmptyString)
     && forallb (fun n => bool_decide (n ∈ fs_nodes paths)) (path_nodes p).

(** [str(x)] inside an f-string, for a string or [None]. *)
Definition py_str (x : option string) : string := default "None" x.

(** [while os.path.exists(playlist_folder): ...] (lines 136-138, 261-263),
    [fuel] bounding the number of tests. *)
Fixpoint unique_folder_loop (fuel : nat) (exists_ : string -> bool)
    (original_folder playlist_folder : string) (suffix : nat) : option string :=
  match fuel with
  | O => None
  | S fuel' =>
      if exists_ playlist_folder
      then unique_folder_loop fuel' exists_ original_folder
             (original_folder +:+ "_" +:+ pretty suffix) (S suffix)
      else Some playlist_folder
  end.

(** The loop started as the source starts it. Two more tests than the file
    system has nodes are enough (lemma [unique_folder_loop_terminates]). *)
Definition unique_folder (paths : gset string) (original_folder : string) : string :=
  default original_folder
    (unique_folder_loop (S (S (size (fs_nodes paths)))) (path_exists paths)
                        original_folder original_folder 1).

(** The [k]-th name the loop tries: the folder itself, then the folder with
    the suffixes 1, 2, ... *)
Definition candidate (original_folder : string) (k : nat) : string :=
  match k with
  | O => original_folder
  | S _ => original_folder +:+ "_" +:+ pretty k
  end.

Section Worker.
Variable W : world.

Definition put (m : msg) : M wstate unit :=
  modify (fun s => WState (sent s ++ [m]) (fs s) (is_set_calls s)
                          (clock_reads s) (downloads s) (slept s)).

Definition time_sleep (seconds : Z) : M wstate unit :=
  modify (fun s => WState (sent s) (fs s) (is_set_calls s)
                          (clock_reads s) (downloads s) (slept s + seconds)).

Definition is_set : M wstate bool :=
  fun s => (Ok (cancel_is_set W (is_set_calls s)),
            WState (sent s) (fs s) (S (is_set_calls s))
                   (clock_reads s) (downloads s) (slept s)).

Definition time_monotonic : M wstate spec_float :=
  fun s => (Ok (monotonic W (clock_reads s)),
            WState (sent s) (fs s) (is_set_calls s)
                   (S (clock_reads s)) (downloads s) (slept s)).

Definition lift {A} (r : result A) : M wstate A := fun s => (r, s).

Definition get_ffmpeg_path : M wstate string :=
  paths ← gets fs;
  if path_exists paths (ffmpeg_path W) then ret (ffmpeg_path W)
  else raise (Exn FileNotFoundError ("FFmpeg not found at: " +:+ ffmpeg_path W)).

Definition makedirs (p : string) : M wstate unit :=
  paths ← gets fs;
  if path_exists paths p
  then raise (Exn FileExistsError ("[Errno 17] File exists: '" +:+ p +:+ "'"))
  else match makedirs_error W p with
       | Some e => raise e
       | None =>
           modify (fun s => WState (sent s)
                                   ({[p]} ∪ list_to_set (path_ancestors p) ∪ fs s)
                                   (is_set_calls s) (clock_reads s)
                                   (downloads s) (slept s))
       end.

(** "Create unique playlist folder", the same lines in both processes. *)
Definition create_playlist_folder (base_folder : string) (info : playlist_info)
    : M wstate string :=
  let original_folder := path_join base_folder (title info) in
  paths ← gets fs;
  let playlist_folder := unique_folder paths original_folder in
  makedirs playlist_folder;;
  ret playlist_folder.

(** [DownloadCancelled()] takes its text from yt-dlp. *)
Definition cancelled_default : exn :=
  Exn DownloadCancelled "The download was cancelled".

(** [progress_hook(d)] (lines 183-207; lines 299-321 are the same). The
    argument and the result are [last_progress_time]. *)
Definition progress_hook (d : progress_dict) (last_progress_time : spec_float)
    : M wstate spec_float :=
  c ← is_set;
  if c : bool then raise cancelled_default
  else
    let status := get (d_status d) in
    if decide (status = Some "downloading") then
      now ← time_monotonic;
      if SFltb (f64_sub now last_progress_time) f64_0_1
      then ret last_progress_time
      else
        p ← lift (file_progress d);
        put (FILE_PROGRESS p);;
        ret now
    else if decide (status = Some "finished") then
      put (FILE_PROGRESS 100);;
      ret last_progress_time
    else ret last_progress_time.

Fixpoint feed_hook (ds : list progress_dict) (last_progress_time : spec_float)
    : M wstate unit :=
  match ds with
  | [] => ret tt
  | d :: ds' =>
      last' ← progress_hook d last_progress_time;
      feed_hook ds' last'
  end.

(** [with yt_dlp.YoutubeDL(opts) as ydl: ydl.download([video_url])] with
    the hook installed and [last_progress_time = 0]. *)
Definition ydl_run (opts : ydl_opts) (video_url : option string) : M wstate unit :=
  k ← gets downloads;
  modify (fun s => WState (sent s) (fs s) (is_set_calls s)
                          (clock_reads s) (S (downloads s)) (slept s));;
  let '(ds, outcome) := ydl_download W opts video_url k in
  feed_hook ds (S754_zero false);;
  lift outcome.

Definition make_opts (ffmpeg playlist_folder format_choice : string) : ydl_opts :=
  {| ffmpeg_location := ffmpeg;
     format := if decide (format_choice = "mp4")
               then "bestvideo[ext=mp4]+bestaudio[ext=m4a]/best[ext=mp4]"
               else "bestaudio/best";
     postprocessors := if decide (format_choice = "mp3")
                       then Some [Postprocessor "FFmpegExtractAudio" "mp3" "256"]
                       else None;
     outtmpl := path_join playlist_folder "%(title)s.%(ext)s";
     merge_output_format := if decide (format_choice = "mp4")
                            then Some "mp4" else None;
     quiet := true; no_warnings := true; logger := false |}.

(** [video_url] of an entry. *)
Definition video_url_of (video : ytdict) : option string :=
  match get_default (yt_id video) EmptyString with
  | Some (String c i) => Some ("https://www.youtube.com/watch?v=" +:+ String c i)
  | _ => get_default (yt_url video) EmptyString
  end.

(** ** Sequential process *)

(** The retry loop of one video (lines 173-225); the result is [success]. *)
Fixpoint seq_attempts (rng : list nat) (opts : ydl_opts)
    (video_url : option string) (video_title : string) : M wstate bool :=
  match rng with
  | [] => ret false
  | attempt :: rng' =>
      c ← is_set;
      if c : bool then raise cancelled_default
      else
        (if (1 <? attempt)%nat
         then put (STATUS ("Retrying download of '" +:+ video_title +:+ "' ("
                           +:+ pretty attempt +:+ "/3)"))
         else ret tt);;
        success ←
          try_except
            (ydl_run opts video_url;;
             (if (1 <? attempt)%nat
              then put (STATUS ("Successfully downloaded '" +:+ video_title +:+ "'"));;
                   time_sleep 3;;
                   put (STATUS "Processing downloads")
              else ret tt);;
             ret true)
            (fun _ =>
               (if (attempt =? 3)%nat
                then put (STATUS ("Download failed '" +:+ video_title +:+ "'"));;
                     time_sleep 3;;
                     put (STATUS "Processing downloads")
                else ret tt);;
               ret false);
        if success : bool then ret true
        else seq_attempts rng' opts video_url video_title
  end.

(** The body of [for video in entries] (lines 146-233); the counters are
    [(downloaded_count, processed_count)]. *)
Definition seq_video (playlist_folder format_choice : string) (video : ytdict)
    (counts : Z * Z) : M wstate (Z * Z) :=
  c ← is_set;
  if c : bool then raise (Exn DownloadCancelled "Download cancelled")
  else
    let video_url := video_url_of video in
    let video_title := py_str (get_default (yt_title video) "Unknown video") in
    put (STATUS ("Downloading:  '" +:+ video_title +:+ "'"));;
    ffmpeg ← get_ffmpeg_path;
    let opts := make_opts ffmpeg playlist_folder format_choice in
    success ← seq_attempts (seq 1 3) opts video_url video_title;
    let processed_count := (counts.2 + 1)%Z in
    put PROCESSED_PROGRESS;;
    if success : bool then
      put DOWNLOADED_PROGRESS;;
      ret ((counts.1 + 1)%Z, processed_count)
    else ret (counts.1, processed_count).

Fixpoint seq_videos (playlist_folder format_choice : string)
    (videos : list ytdict) (counts : Z * Z) : M wstate (Z * Z) :=
  match videos with
  | [] => ret counts
  | video :: videos' =>
      counts' ← seq_video playlist_folder format_choice video counts;
      seq_videos playlist_folder format_choice videos' counts'
  end.

(** The [try] block of [download_process]; the result is the final
    [(downloaded_count, processed_count)], [None] after the early return. *)
Definition download_process_try (info : playlist_info)
    (format_choice base_folder : string) : M wstate (option (Z * Z)) :=
  put (STATUS "Starting downloads");;
  let entries := entries info in
  let total_files := length entries in
  if (total_files =? 0)%nat then
    put (STATUS "Empty content");;
    ret None
  else
    playlist_folder ← create_playlist_folder base_folder info;
    counts ← seq_videos playlist_folder format_choice entries (0, 0)%Z;
    put (STATUS "Completed!");;
    put (QUEUE_COMPLETE info);;
    ret (Some counts).

Definition download_process (info : playlist_info)
    (format_choice base_folder : string) : M wstate (option (Z * Z)) :=
  try_finally
    (try_except
       (download_process_try info format_choice base_folder)
       (fun e => put (STATUS ("Error: " +:+ exn_str e));; ret None))
    (put THREAD_END).
End Worker.

(* ===================================================================== *)
(** * The concurrent process                                              *)
(* ===================================================================== *)

Section WorkerThread.
(** The world as one worker thread meets it. *)
Variable W : world.

(** The retry loop of [download_video] (lines 293-339). *)
Fixpoint conc_attempts (rng : list nat) (opts : ydl_opts)
    (video_url : option string) (video_title : string) : M wstate bool :=
  match rng with
  | [] => ret false
  | attempt :: rng' =>
      success ←
        try_except
          (ydl_run W opts video_url;;
           (if (1 <? attempt)%nat
            then put (STATUS ("Successfully downloaded '" +:+ video_title +:+ "'"));;
                 time_sleep 3;;
                 put (STATUS "Processing downloads")
            else ret tt);;
           ret true)
          (fun _ =>
             put (STATUS ("Retrying download of '" +:+ video_title +:+ "' ("
                          +:+ pretty attempt +:+ "/3)"));;
             (if (attempt =? 3)%nat
              then put (STATUS ("Failed to download '" +:+ video_title +:+ "'"));;
                   time_sleep 3;;
                   put (STATUS "Processing downloads")
              else ret tt);;
             ret false);
      if success : bool then ret true
      else conc_attempts rng' opts video_url video_title
  end.

(** [download_video(video)] up to the [with lock:] block. *)
Definition download_video_attempts (opts : ydl_opts) (video : ytdict)
    : M wstate bool :=
  let video_title := py_str (get_default (yt_title video) "Unknown") in
  let video_url := video_url_of video in
  conc_attempts (seq 1 3) opts video_url video_title.
End WorkerThread.

(** What a thread does while it holds the lock (lines 342-347). *)
Inductive crit_action :=
  | IncProcessed
  | IncDownloaded
  | CPut (m : msg).

Definition crit_block (success : bool) : list crit_action :=
  [IncProcessed; CPut PROCESSED_PROGRESS]
  ++ (if success then [IncDownloaded; CPut DOWNLOADED_PROGRESS] else []).

(** A submitted [download_video(video)]: the messages it has yet to put
    before it asks for the lock and how its retry loop ends, or what is left
    of its [with lock:] block. *)
Inductive task :=
  | Downloading (todo : list msg) (r : result bool)
  | InLock (todo : list crit_action).

Definition download_video (W : world) (opts : ydl_opts) (paths : gset string)
    (video : ytdict) : task :=
  let '(r, s) := download_video_attempts W opts video (wstate_init paths) in
  Downloading (sent s) r.

(** The thread pool and what the threads share. *)
Record pool := Pool {
  pending : list task;        (** submitted, not started; first in, first out *)
  running : list task;        (** at most [max_workers] *)
  lock_held : bool;
  pool_sent : list msg;
  downloaded_count : Z;
  processed_count : Z;
  raised : list exn           (** exceptions of finished futures *)
}.

Definition pool_init (tasks : list task) : pool :=
  Pool tasks [] false [] 0 0 [].

Definition with_running (p : pool) (r : list task) : pool :=
  Pool (pending p) r (lock_held p) (pool_sent p)
       (downloaded_count p) (processed_count p) (raised p).

Definition do_crit (a : crit_action) (p : pool) : pool :=
  match a with
  | IncProcessed =>
      Pool (pending p) (running p) (lock_held p) (pool_sent p)
           (downloaded_count p) (processed_count p + 1) (raised p)
  | IncDownloaded =>
      Pool (pending p) (running p) (lock_held p) (pool_sent p)
           (downloaded_count p + 1) (processed_count p) (raised p)
  | CPut m =>
      Pool (pending p) (running p) (lock_held p) (pool_sent p ++ [m])
           (downloaded_count p) (processed_count p) (raised p)
  end.

(** One step of the running task at position [j]; [None] when it waits for
    the lock (or there is no such task). *)
Definition task_step (j : nat) (p : pool) : option pool :=
  match running p !! j with
  | None => None
  | Some (Downloading (m :: todo) r) =>
      Some (with_running (do_crit (CPut m) p)
                         (<[j := Downloading todo r]> (running p)))
  | Some (Downloading [] (Raise e)) =>
      Some (Pool (pending p) (delete j (running p)) (lock_held p) (pool_sent p)
                 (downloaded_count p) (processed_count p) (raised p ++ [e]))
  | Some (Downloading [] (Ok success)) =>
      if lock_held p then None
      else Some (Pool (pending p) (<[j := InLock (crit_block success)]> (running p))
                      true (pool_sent p)
                      (downloaded_count p) (processed_count p) (raised p))
  | Some (InLock (a :: todo)) =>
      Some (with_running (do_crit a p) (<[j := InLock todo]> (running p)))
  | Some (InLock []) =>
      Some (Pool (pending p) (delete j (running p)) false (pool_sent p)
                 (downloaded_count p) (processed_count p) (raised p))
  end.

(** A free worker takes the oldest pending task. *)
Definition start_step (max_workers : nat) (p : pool) : option pool :=
  match pending p with
  | t :: ts =>
      if (length (running p) <? max_workers)%nat
      then Some (Pool ts (running p ++ [t]) (lock_held p) (pool_sent p)
                      (downloaded_count p) (processed_count p) (raised p))
      else None
  | [] => None
  end.

(** Choice 0 starts a task, choice [j + 1] steps the running task [j]. *)
Definition pool_step (max_workers : nat) (choice : nat) (p : pool) : option pool :=
  match choice with
  | O => start_step max_workers p
  | S j => task_step j p
  end.

(** All the states one step away. *)
Definition pool_succs (max_workers : nat) (p : pool) : list pool :=
  omap (fun c => pool_step max_workers c p) (seq 0 (S (length (running p)))).

(** The pool under a scheduler: its [k]-th decision picks among the steps
    that are possible. *)
Fixpoint pool_run (max_workers : nat) (sched : nat -> nat) (fuel k : nat)
    (p : pool) : pool :=
  match fuel with
  | O => p
  | S fuel' =>
      match pool_succs max_workers p with
      | [] => p
      | p0 :: ps =>
          pool_run max_workers sched fuel' (S k)
                   (nth (sched k mod length (p0 :: ps)) (p0 :: ps) p0)
      end
  end.

(** The number of steps a task, and a pool, has left. *)
Definition task_size (t : task) : nat :=
  match t with
  | Downloading todo (Ok success) => length todo + 1 + length (crit_block success) + 1
  | Downloading todo (Raise _) => length todo + 1
  | InLock todo => length todo + 1
  end.

Definition tasks_sum (f : task -> nat) (l : list task) : nat := sum_list (f <$> l).

Definition pool_size (p : pool) : nat :=
  tasks_sum (fun t => S (task_size t)) (pending p)
  + tasks_sum task_size (running p).

Section Concurrent.
Variable W : world.                 (** the main thread of the process *)
Variable TW : nat -> world.         (** the thread of the [i]-th entry *)
Variable sched : nat -> nat.        (** the thread scheduler *)

(** The [try] block of [download_process_concurrent]. *)
Definition download_process_concurrent_try (info : playlist_info)
    (format_choice : string) (max_simultaneous : Z) (base_folder : string)
    : M wstate (option (Z * Z)) :=
  put (STATUS "Starting downloads");;
  let entries := entries info in
  let total_files := length entries in
  if (total_files =? 0)%nat then
    put (STATUS "Empty content");;
    ret None
  else
    playlist_folder ← create_playlist_folder W base_folder info;
    ffmpeg ← get_ffmpeg_path W;
    let ydl_opts_template := make_opts ffmpeg playlist_folder format_choice in
    (* ThreadPoolExecutor(max_workers=max_simultaneous) *)
    if (max_simultaneous <=? 0)%Z
    then raise (Exn ValueError "max_workers must be greater than 0")
    else
      paths ← gets fs;
      let futures :=
        imap (fun i video => download_video (TW i) ydl_opts_template paths video)
             entries in
      let p0 := pool_init futures in
      let p := pool_run (Z.to_nat max_simultaneous) sched (pool_size p0) 0 p0 in
      modify (fun s => WState (sent s ++ pool_sent p) (fs s) (is_set_calls s)
                              (clock_reads s) (downloads s) (slept s));;
      (* future.result() *)
      match raised p with
      | e :: _ => raise e
      | [] =>
          put (STATUS "Complete!");;
          put (QUEUE_COMPLETE info);;
          ret (Some (downloaded_count p, processed_count p))
      end.

Definition download_process_concurrent (info : playlist_info)
    (format_choice : string) (max_simultaneous : Z) (base_folder : string)
    : M wstate (option (Z * Z)) :=
  try_finally
    (try_except
       (download_process_concurrent_try info format_choice max_simultaneous
                                        base_folder)
       (fun e => put (STATUS ("Error: " +:+ exn_str e));; ret None))
    (put THREAD_END).
End Concurrent.

(** A process that [download_proc.terminate()] (line 668) stops after it has
    put [k] messages: it is killed on the spot, no [except] or [finally]
    clause runs, and the queue holds the first [k] messages of the run. *)
Definition terminated_after (k : nat) (run : list msg) : list msg := take k run.

(* ===================================================================== *)
(** * The event loop of [main]                                            *)
(* ===================================================================== *)

(** The state is the "application state variables" of [main] (lines
    430-441), the folder settings, and the two widgets that show text of
    the state: the status and the queue. Calls that only paint (progress
    bars, the count label, enabling and hiding of buttons, clearing the URL
    input) are left out; no state variable depends on them. *)

(** A dictionary of the queue is shared: the queue, [current_download] and
    the thread that resolves its URL all hold the same object. [oid] is the
    identity of the object, [dict] its contents. *)
Record item := Item { oid : nat; dict : playlist_info }.

(** A started [multiprocessing.Process]: its target, its (pickled)
    arguments, and whether [terminate()] was called on it. *)
Record process := Process {
  proc_max_workers : option Z;   (** [None] for [download_process] *)
  proc_info : playlist_info;
  proc_format : string;
  proc_base_folder : string;
  proc_terminated : bool
}.

Inductive posted_event :=
  | PostMsg (m : msg)
  | PostDownload.

Record gui := Gui {
  download_queue : list item;   (** the queue, oldest entry first *)
  next_oid : nat;   (** the identity of the next dictionary made *)
  initial_total : Z;
  downloaded_files : Z;
  processed_files : Z;
  session_active : bool;
  current_download : option item;   (** an alias of a queue entry *)
  concurrent_mode : bool;
  cancel_event : bool;   (** the cancellation event is set *)
  download_proc : option process;   (** the last process started *)
  current_total : Z;
  processed_current : Z;
  base_folder : string;
  create_subfolder : bool;
  status_txt : string * string;   (** the status text and its colour *)
  queue_text : string;   (** the queue text *)
  (** the [fetch_title] threads at work: their [temp_item] and URL *)
  fetch_threads : list (nat * string);
  (** [window.write_event_value]: events read later *)
  posted : list posted_event
}.

Definition set_download_queue (x : list item) (g : gui) : gui :=
  Gui x (next_oid g) (initial_total g) (downloaded_files g)
      (processed_files g) (session_active g) (current_download g)
      (concurrent_mode g) (cancel_event g) (download_proc g)
      (current_total g) (processed_current g) (base_folder g)
      (create_subfolder g) (status_txt g) (queue_text g) (fetch_threads g)
      (posted g).

Definition set_next_oid (x : nat) (g : gui) : gui :=
  Gui (download_queue g) x (initial_total g) (downloaded_files g)
      (processed_files g) (session_active g) (current_download g)
      (concurrent_mode g) (cancel_event g) (download_proc g)
      (current_total g) (processed_current g) (base_folder g)
      (create_subfolder g) (status_txt g) (queue_text g) (fetch_threads g)
      (posted g).

Definition set_initial_total (x : Z) (g : gui) : gui :=
  Gui (download_queue g) (next_oid g) x (downloaded_files g)
      (processed_files g) (session_active g) (current_download g)
      (concurrent_mode g) (cancel_event g) (download_proc g)
      (current_total g) (processed_current g) (base_folder g)
      (create_subfolder g) (status_txt g) (queue_text g) (fetch_threads g)
      (posted g).

Definition set_downloaded_files (x : Z) (g : gui) : gui :=
  Gui (download_queue g) (next_oid g) (initial_total g) x
      (processed_files g) (session_active g) (current_download g)
      (concurrent_mode g) (cancel_event g) (download_proc g)
      (current_total g) (processed_current g) (base_folder g)
      (create_subfolder g) (status_txt g) (queue_text g) (fetch_threads g)
      (posted g).

Definition set_processed_files (x : Z) (g : gui) : gui :=
  Gui (download_queue g) (next_oid g) (initial_total g) (downloaded_files g)
      x (session_active g) (current_download g) (concurrent_mode g)
      (cancel_event g) (download_proc g) (current_total g)
      (processed_current g) (base_folder g) (create_subfolder g)
      (status_txt g) (queue_text g) (fetch_threads g) (posted g).

Definition set_session_active (x : bool) (g : gui) : gui :=
  Gui (download_queue g) (next_oid g) (initial_total g) (downloaded_files g)
      (processed_files g) x (current_download g) (concurrent_mode g)
      (cancel_event g) (download_proc g) (current_total g)
      (processed_current g) (base_folder g) (create_subfolder g)
      (status_txt g) (queue_text g) (fetch_threads g) (posted g).

Definition set_current_download (x : option item) (g : gui) : gui :=
  Gui (download_queue g) (next_oid g) (initial_total g) (downloaded_files g)
      (processed_files g) (session_active g) x (concurrent_mode g)
      (cancel_event g) (download_proc g) (current_total g)
      (processed_current g) (base_folder g) (create_subfolder g)
      (status_txt g) (queue_text g) (fetch_threads g) (posted g).

Definition set_concurrent_mode (x : bool) (g : gui) : gui :=
  Gui (download_queue g) (next_oid g) (initial_total g) (downloaded_files g)
      (processed_files g) (session_active g) (current_download g) x
      (cancel_event g) (download_proc g) (current_total g)
      (processed_current g) (base_folder g) (create_subfolder g)
      (status_txt g) (queue_text g) (fetch_threads g) (posted g).

Definition set_cancel_event (x : bool) (g : gui) : gui :=
  Gui (download_queue g) (next_oid g) (initial_total g) (downloaded_files g)
      (processed_files g) (session_active g) (current_download g)
      (concurrent_mode g) x (download_proc g) (current_total g)
      (processed_current g) (base_folder g) (create_subfolder g)
      (status_txt g) (queue_text g) (fetch_threads g) (posted g).

Definition set_download_proc (x : option process) (g : gui) : gui :=
  Gui (download_queue g) (next_oid g) (initial_total g) (downloaded_files g)
      (processed_files g) (session_active g) (current_download g)
      (concurrent_mode g) (cancel_event g) x (current_total g)
      (processed_current g) (base_folder g) (create_subfolder g)
      (status_txt g) (queue_text g) (fetch_threads g) (posted g).

Definition set_current_total (x : Z) (g : gui) : gui :=
  Gui (download_queue g) (next_oid g) (initial_total g) (downloaded_files g)
      (processed_files g) (session_active g) (current_download g)
      (concurrent_mode g) (cancel_event g) (download_proc g) x
      (processed_current g) (base_folder g) (create_subfolder g)
      (status_txt g) (queue_text g) (fetch_threads g) (posted g).

Definition set_processed_current (x : Z) (g : gui) : gui :=
  Gui (download_queue g) (next_oid g) (initial_total g) (downloaded_files g)
      (processed_files g) (session_active g) (current_download g)
      (concurrent_mode g) (cancel_event g) (download_proc g)
      (current_total g) x (base_folder g) (create_subfolder g)
      (status_txt g) (queue_text g) (fetch_threads g) (posted g).

Definition set_base_folder (x : string) (g : gui) : gui :=
  Gui (download_queue g) (next_oid g) (initial_total g) (downloaded_files g)
      (processed_files g) (session_active g) (current_download g)
      (concurrent_mode g) (cancel_event g) (download_proc g)
      (current_total g) (processed_current g) x (create_subfolder g)
      (status_txt g) (queue_text g) (fetch_threads g) (posted g).

Definition set_create_subfolder (x : bool) (g : gui) : gui :=
  Gui (download_queue g) (next_oid g) (initial_total g) (downloaded_files g)
      (processed_files g) (session_active g) (current_download g)
      (concurrent_mode g) (cancel_event g) (download_proc g)
      (current_total g) (processed_current g) (base_folder g) x
      (status_txt g) (queue_text g) (fetch_threads g) (posted g).

Definition set_status_txt (x : string * string) (g : gui) : gui :=
  Gui (download_queue g) (next_oid g) (initial_total g) (downloaded_files g)
      (processed_files g) (session_active g) (current_download g)
      (concurrent_mode g) (cancel_event g) (download_proc g)
      (current_total g) (processed_current g) (base_folder g)
      (create_subfolder g) x (queue_text g) (fetch_threads g) (posted g).

Definition set_queue_text (x : string) (g : gui) : gui :=
  Gui (download_queue g) (next_oid g) (initial_total g) (downloaded_files g)
      (processed_files g) (session_active g) (current_download g)
      (concurrent_mode g) (cancel_event g) (download_proc g)
      (current_total g) (processed_current g) (base_folder g)
      (create_subfolder g) (status_txt g) x (fetch_threads g) (posted g).

Definition set_fetch_threads (x : list (nat * string)) (g : gui) : gui :=
  Gui (download_queue g) (next_oid g) (initial_total g) (downloaded_files g)
      (processed_files g) (session_active g) (current_download g)
      (concurrent_mode g) (cancel_event g) (download_proc g)
      (current_total g) (processed_current g) (base_folder g)
      (create_subfolder g) (status_txt g) (queue_text g) x (posted g).

Definition set_posted (x : list posted_event) (g : gui) : gui :=
  Gui (download_queue g) (next_oid g) (initial_total g) (downloaded_files g)
      (processed_files g) (session_active g) (current_download g)
      (concurrent_mode g) (cancel_event g) (download_proc g)
      (current_total g) (processed_current g) (base_folder g)
      (create_subfolder g) (status_txt g) (queue_text g) (fetch_threads g) x.

Definition gui_init (folder : string) (subfolder : bool) : gui :=
  Gui [] 0 0 0 0 false None false false None 0 0 folder subfolder
      ("Waiting for start", "white") "Queue is empty" [] [].

(** What [window.read] hands to the loop: the event, and in [values] the
    inputs the handlers read. An event posted with
    [window.write_event_value(msg_type, msg_value)] comes back as [EvMsg]
    with the message as its value. *)
Inductive event :=
  | TIMEOUT
  | WIN_CLOSED
  | EXIT
  | ADD_QUEUE
  | CLEAR_QUEUE
  (** the clicks on the bin button of the queue window, each with the
      position selected in the list, until the window is closed *)
  | VIEW_QUEUE (clicks : list (option nat))
  | REMOVE_LAST
  | CONCURRENT
  | CONCURRENT_COUNT
  (** the folder dialog: closed with OK or not, its folder and option, and
      whether [os.makedirs] could make the folder *)
  | CHOOSE_DIR (ok : bool) (folder : string) (create_sub : bool) (made : bool)
  | DOWNLOAD
  | CANCEL
  | EvMsg (m : msg).

Record values := Values {
  v_url : string;                 (** [values["-URL-"]] *)
  v_mp4 : bool;                   (** [values["-MP4-"]] *)
  v_concurrent : bool;            (** [values["-CONCURRENT-"]] *)
  v_concurrent_count : string     (** [values["-CONCURRENT-COUNT-"]] *)
}.

(** ** Python helpers of the loop *)

(** [sub in s] *)
Fixpoint str_contains (sub s : string) : bool :=
  String.prefix sub s
  || match s with
     | EmptyString => false
     | String _ s' => str_contains sub s'
     end.

(** [os.path.basename(p)], POSIX flavour. *)
Fixpoint path_basename (p : string) : string :=
  match p with
  | EmptyString => EmptyString
  | String c p' =>
      if str_contains "/" p' then path_basename p'
      else if Ascii.eqb c "/" then p' else p
  end.

(** [s.isdigit()] on code points below 256: the ASCII digits and the
    superscripts 1, 2, 3. *)
Definition py_isdigit_char (c : ascii) : bool :=
  let n := nat_of_ascii c in
  ((48 <=? n) && (n <=? 57)) || (n =? 178) || (n =? 179) || (n =? 185).

Fixpoint str_forallb (P : ascii -> bool) (s : string) : bool :=
  match s with
  | EmptyString => true
  | String c s' => P c && str_forallb P s'
  end.

Definition py_isdigit (s : string) : bool :=
  negb (String.eqb s EmptyString) && str_forallb py_isdigit_char s.

(** [int(s)] for a string that passes [isdigit] (no sign, blank or
    underscore), as CPython 3.11 computes it with its default settings: the
    leading decimal digits are counted first, and more than
    [sys.get_int_max_str_digits()] = 4300 of them are refused; a character
    that is not a decimal digit (the superscripts are digits for [isdigit]
    and not for [int]) or an empty string is an invalid literal; otherwise
    the digits give the number. The message of an invalid literal shows
    the first 200 characters of [repr(s)], which for such a string is [s] in
    quotes. *)
Definition ascii_digit (c : ascii) : bool :=
  let n := nat_of_ascii c in (48 <=? n) && (n <=? 57).

Definition int_max_str_digits : nat := 4300.

Fixpoint digit_prefix_length (s : string) : nat :=
  match s with
  | EmptyString => 0
  | String c s' => if ascii_digit c then S (digit_prefix_length s') else 0
  end.

Fixpoint int_of_digits_go (acc : Z) (s : string) : option Z :=
  match s with
  | EmptyString => Some acc
  | String c s' =>
      if ascii_digit c
      then int_of_digits_go (10 * acc + Z.of_nat (nat_of_ascii c - 48)) s'
      else None
  end.

Definition invalid_literal (s : string) : exn :=
  Exn ValueError
      ("invalid literal for int() with base 10: "
       +:+ substring 0 200 ("'" +:+ s +:+ "'")).

Definition exceeds_limit (digits : nat) : exn :=
  Exn ValueError
      ("Exceeds the limit (" +:+ pretty int_max_str_digits
       +:+ " digits) for integer string conversion: value has "
       +:+ pretty digits
       +:+ " digits; use sys.set_int_max_str_digits() to increase the limit").

Definition int_of_digits (s : string) : result Z :=
  let digits := digit_prefix_length s in
  if int_max_str_digits <? digits then Raise (exceeds_limit digits)
  else match s with
       | EmptyString => Raise (invalid_literal s)
       | _ => match int_of_digits_go 0 s with
              | Some z => Ok z
              | None => Raise (invalid_literal s)
              end
       end.

(** [a == b] on the dictionaries of the model. *)
Definition field_eqb {A} (eqb : A -> A -> bool) (a b : field A) : bool :=
  match a, b with
  | Absent, Absent | IsNone, IsNone => true
  | Val x, Val y => eqb x y
  | _, _ => false
  end.

Fixpoint ytdict_eqb (a b : ytdict) : bool :=
  match a, b with
  | YtDict i u t e, YtDict i' u' t' e' =>
      field_eqb String.eqb i i' && field_eqb String.eqb u u'
      && field_eqb String.eqb t t'
      && field_eqb
           (fix list_eqb (l l' : list ytdict) : bool :=
              match l, l' with
              | [], [] => true
              | x :: l, y :: l' => ytdict_eqb x y && list_eqb l l'
              | _, _ => false
              end) e e'
  end.

Fixpoint ytdicts_eqb (l l' : list ytdict) : bool :=
  match l, l' with
  | [], [] => true
  | x :: l, y :: l' => ytdict_eqb x y && ytdicts_eqb l l'
  | _, _ => false
  end.

Definition playlist_info_eqb (a b : playlist_info) : bool :=
  String.eqb (title a) (title b) && String.eqb (url a) (url b)
  && Z.eqb (total a) (total b) && ytdicts_eqb (entries a) (entries b).

(** [l.remove(x)]: the first element that is [x] or equals it goes; [None]
    stands for the [ValueError] when there is none. *)
Fixpoint list_remove (x : item) (l : list item) : option (list item) :=
  match l with
  | [] => None
  | y :: l' =>
      if (oid y =? oid x) || playlist_info_eqb (dict y) (dict x) then Some l'
      else cons y <$> list_remove x l'
  end.

(** ** The nested functions of [main] *)

(** A title as the queue text shows it (line 445). *)
Definition display_title (t : string) : string :=
  if 38 <? String.length t then str_take 35 t +:+ "..." else t.

(** [titles] of [update_queue_display]: the newest entry first. *)
Definition queue_titles (q : list item) : list string :=
  (fun it => display_title (title (dict it))) <$> reverse q.

Definition queue_display_text (q : list item) : string :=
  match queue_titles q with
  | [] => "Queue is empty"
  | titles => str_join " | " titles
  end.

(** [queue_titles] of the queue window (lines 553 and 578). *)
Definition view_queue_titles (q : list item) : list string :=
  imap (fun i it => pretty (S i) +:+ ". " +:+ title (dict it)) (reverse q).

Definition update_queue_display : M gui unit :=
  modify (fun g => set_queue_text (queue_display_text (download_queue g)) g).

(** [sum(item.get('total', 0) for item in download_queue)] *)
Definition queue_total (q : list item) : Z :=
  foldr (fun it acc => (total (dict it) + acc)%Z) 0%Z q.

Definition update_counters : M gui unit :=
  modify (fun g => if session_active g then g
                   else set_initial_total (queue_total (download_queue g)) g).

Definition set_status (text color : string) : M gui unit :=
  modify (set_status_txt (text, color)).

Definition temp_item_dict (u : string) : playlist_info :=
  PlaylistInfo "Loading..." u 0 [].

(** [add_to_queue(url)]; the thread it starts is recorded, and runs in
    [fetch_title]. *)
Definition add_to_queue (u : string) : M gui unit :=
  if negb (startswith u "http://" || startswith u "https://") then
    set_status "Invalid URL" "red"
  else
    n ← gets next_oid;
    let temp_item := Item n (temp_item_dict u) in
    modify (fun g => set_next_oid (S n)
                       (set_download_queue (download_queue g ++ [temp_item]) g));;
    update_queue_display;;
    set_status "Fetching info..." "#5DE2E7";;
    modify (fun g => set_fetch_threads (fetch_threads g ++ [(n, u)]) g).

(** [temp_item.update(info)]: every holder of the object sees the change. *)
Definition update_object (n : nat) (info : playlist_info) (g : gui) : gui :=
  let upd it := if oid it =? n then Item n info else it in
  set_current_download (upd <$> current_download g)
    (set_download_queue (upd <$> download_queue g) g).

(** The thread [fetch_title] of the [k]-th pending resolution, run in one
    piece once [get_playlist_info] has returned. *)
Definition fetch_title (extract_info : string -> nat -> result (option ytdict))
    (k : nat) : M gui unit :=
  threads ← gets fetch_threads;
  match threads !! k with
  | None => ret tt
  | Some (n, u) =>
      modify (fun g => set_fetch_threads (delete k threads) g);;
      let info := match (get_playlist_info extract_info u []).1 with
                  | Ok info => info
                  | Raise _ => temp_item_dict u
                  end in
      modify (update_object n info);;
      if (total info =? 0)%Z then
        q ← gets download_queue;
        match list_remove (Item n info) q with
        | None => raise (Exn ValueError "list.remove(x): x not in list")
        | Some q' =>
            modify (set_download_queue q');;
            set_status "Invalid URL" "red";;
            update_queue_display
        end
      else
        update_queue_display;;
        update_counters;;
        set_status "Waiting to start" "white"
  end.

(** ** The loop *)

(** The messages found on the queue, one by one (lines 514-524). *)
Definition drain_msg (m : msg) : M gui unit :=
  match m with
  | DOWNLOADED_PROGRESS =>
      modify (fun g => set_downloaded_files (downloaded_files g + 1)%Z g)
  | PROCESSED_PROGRESS =>
      modify (fun g => set_processed_files (processed_files g + 1)%Z g);;
      modify (fun g => if concurrent_mode g
                       then set_processed_current (processed_current g + 1)%Z g
                       else g)
  | _ => modify (fun g => set_posted (posted g ++ [PostMsg m]) g)
  end;;
  update_counters.

Fixpoint drain (msgs : list msg) : M gui unit :=
  match msgs with
  | [] => ret tt
  | m :: msgs' => drain_msg m;; drain msgs'
  end.

(** One click on the bin button of the queue window (lines 572-581). *)
Definition delete_selected (selection : option nat) : M gui unit :=
  match selection with
  | None => ret tt
  | Some selected_index =>
      q ← gets download_queue;
      if selected_index <? length q then
        modify (set_download_queue (delete (length q - 1 - selected_index) q));;
        update_queue_display;;
        update_counters
      else ret tt
  end.

Fixpoint view_queue (clicks : list (option nat)) : M gui unit :=
  match clicks with
  | [] => ret tt
  | c :: clicks' => delete_selected c;; view_queue clicks'
  end.

Definition status_color (status_text : string) : string :=
  if str_contains "Complete" status_text then "#7BFF47"
  else if str_contains "Error" status_text || str_contains "Cancelled" status_text
       then "red"
       else "white".

(** The handlers (lines 527-718); the result says whether the loop goes on. *)
Definition handle (ev : event) (vals : values) : M gui bool :=
  match ev with
  | WIN_CLOSED | EXIT => ret false
  | ADD_QUEUE =>
      let u := str_strip (v_url vals) in
      (if negb (String.eqb u EmptyString) then
         add_to_queue u;;
         modify (set_downloaded_files 0);;
         modify (set_processed_files 0);;
         modify (fun g => set_initial_total (queue_total (download_queue g)) g)
       else ret tt);;
      ret true
  | CLEAR_QUEUE =>
      modify (set_download_queue []);;
      modify (set_downloaded_files 0);;
      modify (set_processed_files 0);;
      update_queue_display;;
      update_counters;;
      ret true
  | VIEW_QUEUE clicks => view_queue clicks;; ret true
  | REMOVE_LAST =>
      q ← gets download_queue;
      (if negb (bool_decide (q = [])) then
         (* download_queue.pop() *)
         modify (set_download_queue (removelast q));;
         update_queue_display;;
         update_counters
       else ret tt);;
      ret true
  | CONCURRENT =>
      modify (set_concurrent_mode (v_concurrent vals));;
      ret true
  | CHOOSE_DIR ok selected_folder create_sub made =>
      (if ok && negb (String.eqb selected_folder EmptyString) then
         modify (set_create_subfolder create_sub);;
         let new_base :=
           if create_sub then
             if String.eqb (path_basename selected_folder) "Petice Downloads"
             then selected_folder
             else path_join selected_folder "Petice Downloads"
           else selected_folder in
         if made then modify (set_base_folder new_base) else ret tt
       else ret tt);;
      ret true
  | DOWNLOAD =>
      g ← gets id;
      (match last (download_queue g), current_download g with
       | Some newest, None =>
           if (0 <? initial_total g)%Z then
             modify (set_session_active true);;
             modify (set_current_download (Some newest));;
             modify (set_current_total (total (dict newest)));;
             modify (set_processed_current 0);;
             set_status "Starting..." "yellow";;
             modify (set_cancel_event false);;
             let format_choice := if v_mp4 vals then "mp4" else "mp3" in
             target ←
               (if concurrent_mode g then
                  max_workers ←
                    (if py_isdigit (v_concurrent_count vals)
                     then fun s => (int_of_digits (v_concurrent_count vals), s)
                     else ret 10%Z);
                  ret (Some max_workers)
                else ret None);
             modify (set_download_proc
                       (Some (Process target (dict newest) format_choice
                                      (base_folder g) false)))
           else ret tt
       | _, _ => ret tt
       end);;
      ret true
  | CANCEL =>
      modify (set_cancel_event true);;
      (* if download_proc: download_proc.terminate() *)
      modify (fun g =>
                set_download_proc
                  ((fun p => Process (proc_max_workers p) (proc_info p) (proc_format p)
                                     (proc_base_folder p) true) <$> download_proc g) g);;
      set_status "Cancelled" "red";;
      modify (set_current_download None);;
      modify (set_session_active false);;
      modify (set_downloaded_files 0);;
      modify (set_processed_files 0);;
      update_counters;;
      ret true
  | EvMsg (STATUS status_text) =>
      set_status status_text (status_color status_text);;
      ret true
  | EvMsg (QUEUE_COMPLETE _) =>
      g ← gets id;
      (match last (download_queue g), current_download g with
       | Some newest, Some current =>
           if playlist_info_eqb (dict current) (dict newest) then
             modify (set_download_queue (removelast (download_queue g)));;
             modify (set_current_download None);;
             update_queue_display
           else ret tt
       | _, _ => ret tt
       end);;
      ret true
  | EvMsg THREAD_END =>
      modify (set_current_download None);;
      modify (set_session_active false);;
      q ← gets download_queue;
      (if negb (bool_decide (q = []))
       then modify (fun g => set_posted (posted g ++ [PostDownload]) g)
       else ret tt);;
      ret true
  | _ => ret true
  end.

(** One turn of [while True]: the queue is drained, then the event is
    handled. *)
Definition loop_iteration (msgs : list msg) (ev : event) (vals : values)
    : M gui bool :=
  drain msgs;;
  handle ev vals.

(** What the process [download_proc] puts on the queue, when the process is
    killed, if it is, after [k] messages. *)
Definition proc_messages (W : world) (TW : nat -> world) (sched : nat -> nat)
    (paths : gset string) (k : nat) (p : process) : list msg :=
  let run :=
    match proc_max_workers p with
    | None =>
        download_process W (proc_info p) (proc_format p) (proc_base_folder p)
                         (wstate_init paths)
    | Some n =>
        download_process_concurrent W TW sched (proc_info p) (proc_format p) n
                                    (proc_base_folder p) (wstate_init paths)
    end in
  if proc_terminated p then terminated_after k (sent run.2) else sent run.2.

(* ===================================================================== *)
(** * Observations on runs                                                *)
(* ===================================================================== *)

(** Whatever the start state, the computation only appends messages that
    satisfy [P], and removes no path. *)
Definition emits {A} (P : msg -> Prop) (m : M wstate A) : Prop :=
  ∀ s, ∃ evs, sent (m s).2 = sent s ++ evs ∧ Forall P evs ∧ fs s ⊆ fs (m s).2.

(** The messages of the retry loops and of the progress hook. *)
Definition is_progress (m : msg) : Prop :=
  match m with STATUS _ | FILE_PROGRESS _ => True | _ => False end.

Definition msg_eqb (a b : msg) : bool :=
  match a, b with
  | PROCESSED_PROGRESS, PROCESSED_PROGRESS => true
  | DOWNLOADED_PROGRESS, DOWNLOADED_PROGRESS => true
  | THREAD_END, THREAD_END => true
  | _, _ => false
  end.

(** How often one of the three payload-free messages occurs. *)
Definition count_msg (m : msg) (l : list msg) : nat :=
  length (List.filter (msg_eqb m) l).

(** The cancellation event is never seen set. *)
Definition never_cancelled (W : world) : Prop :=
  ∀ k, cancel_is_set W k = false.

(** The messages before the final one. *)
Definition not_thread_end (m : msg) : Prop := m ≠ THREAD_END.

(** What a task has yet to do, and a weighted count of it. *)
Definition task_todo (t : task) : list crit_action :=
  match t with
  | Downloading todo (Ok success) => (CPut <$> todo) ++ crit_block success
  | Downloading todo (Raise _) => CPut <$> todo
  | InLock todo => todo
  end.

Definition todo_weight (w : crit_action -> nat) (t : task) : nat :=
  sum_list (w <$> task_todo t).

(** What is done, by [done], and what is left to do, by weight, summed over
    the pool. *)
Definition pool_total (done : pool -> Z) (w : crit_action -> nat) (p : pool) : Z :=
  (done p + Z.of_nat (tasks_sum (todo_weight w) (pending p ++ running p)))%Z.

(** The three weights: puts of a message, and the two increments. *)
Definition w_put (m : msg) (a : crit_action) : nat :=
  match a with CPut m' => if msg_eqb m m' then 1 else 0 | _ => 0 end.
Definition w_processed (a : crit_action) : nat :=
  match a with IncProcessed => 1 | _ => 0 end.
Definition w_downloaded (a : crit_action) : nat :=
  match a with IncDownloaded => 1 | _ => 0 end.

(** [done] is a count of what a pool has done: it reads nothing but the
    messages and the counters, and an action adds its weight to it. *)
Definition counts_done (done : pool -> Z) (w : crit_action -> nat) : Prop :=
  (∀ a p, done (do_crit a p) = (done p + Z.of_nat (w a))%Z)
  ∧ ∀ p p', pool_sent p = pool_sent p' →
            downloaded_count p = downloaded_count p' →
            processed_count p = processed_count p' → done p = done p'.

Definition is_inlock (t : task) : Prop :=
  match t with InLock _ => True | Downloading _ _ => False end.

(** A held lock is held by a running task. *)
Definition lock_inv (p : pool) : Prop :=
  lock_held p = true → Exists is_inlock (running p).

Definition does_not_raise (t : task) : Prop :=
  match t with Downloading _ (Raise _) => False | _ => True end.

(** No task raises, so no future holds an exception. *)
Definition no_raise (p : pool) : Prop :=
  raised p = [] ∧ Forall does_not_raise (pending p) ∧ Forall does_not_raise (running p).

(** What the resolver did after [j] failed attempts: each one is followed
    by a sleep of one second; a successful attempt ends the list. *)
Definition resolver_trace (u : string) (j : nat) (succeeded : bool)
    : list resolver_action :=
  concat (replicate j [ExtractInfo u; Sleep 1])
  ++ (if succeeded then [ExtractInfo u] else []).

(* ===================================================================== *)
(** * A small world for examples                                          *)
(* ===================================================================== *)

Definition paths0 : gset string := {[ "/app/bin/ffmpeg.exe"; "/dl" ]}.

(** Every download succeeds after one call of the hook. *)
Definition world_ok : world :=
  World (fun _ => false) (fun k => f64_of_Z (Z.of_nat k)) "/app/bin/ffmpeg.exe"
        (fun _ => None)
        (fun _ _ _ => ([ProgressDict (Val "finished") Absent Absent Absent Absent],
                       Ok tt)).

(** Every download fails. *)
Definition world_failing : world :=
  World (fun _ => false) (fun k => f64_of_Z (Z.of_nat k)) "/app/bin/ffmpeg.exe"
        (fun _ => None)
        (fun _ _ _ => ([], Raise (Exn DownloadError "ERROR: Video unavailable"))).

Definition one_song : playlist_info :=
  PlaylistInfo "X" "https://www.youtube.com/watch?v=abc" 1
               [YtDict (Val "abc") Absent (Val "Song") Absent].

(** The handlers that assign 0 to the two counters. *)
Definition resets_counters (ev : event) (vals : values) : bool :=
  match ev with
  | ADD_QUEUE => negb (String.eqb (str_strip (v_url vals)) EmptyString)
  | CLEAR_QUEUE | CANCEL => true
  | _ => false
  end.

(** A computation of the loop that leaves the two counters alone. *)
Definition keeps_counters {A} (m : M gui A) : Prop :=
  ∀ g, processed_files (m g).2 = processed_files g
       ∧ downloaded_files (m g).2 = downloaded_files g.

(* ===================================================================== *)
(** * A session, from the start of the program                            *)
(* ===================================================================== *)

Definition after {A} (m : M gui A) (g : gui) : gui := (m g).2.

(** yt-dlp resolves every URL to a playlist of two entries. *)
Definition extract_two : string -> nat -> result (option ytdict) :=
  fun _ _ => Ok (Some (YtDict (Val "PL1") Absent (Val "My list")
                      (Val [YtDict (Val "a1") Absent (Val "One") Absent;
                            YtDict (Val "a2") Absent (Val "Two") Absent]))).

(** The inputs with a URL typed in, and with the URL input empty. *)
Definition values_url : values :=
  Values " https://www.youtube.com/playlist?list=PL1 " true false "10".
Definition values_idle : values := Values EmptyString true false "10".

(** The URL is added, resolved, and its download is started. *)
Definition gui_added : gui :=
  after (loop_iteration [] ADD_QUEUE values_url) (gui_init "/dl" true).
Definition gui_resolved : gui := after (fetch_title extract_two 0) gui_added.
Definition gui_started : gui :=
  after (loop_iteration [] DOWNLOAD values_idle) gui_resolved.

(** What the process of [g] puts on the queue in the world where every
    download succeeds; [k] counts only if the process is terminated. *)
Definition job_messages (k : nat) (g : gui) : list msg :=
  match download_proc g with
  | Some p => proc_messages world_ok (fun _ => world_ok) (fun _ => 0) paths0 k p
  | None => []
  end.

(** The posted events are read and handled, one by one. *)
Definition read_posted (g : gui) : gui :=
  foldl (fun g e => match e with
                    | PostMsg m => after (handle (EvMsg m) values_idle) g
                    | PostDownload => after (handle DOWNLOAD values_idle) g
                    end)
        (set_posted [] g) (posted g).

(** The job runs to its end and the loop takes in all its messages. *)
Definition gui_finished : gui :=
  read_posted
    (after (loop_iteration (job_messages 0 gui_started) TIMEOUT values_idle)
           gui_started).

(** Or the user cancels after the first message of the job. *)
Definition gui_cancelled : gui :=
  after (loop_iteration [STATUS "Starting downloads"] CANCEL values_idle) gui_started.

(* ===================================================================== *)
(** * The configuration file                                              *)
(* ===================================================================== *)

(** [str.lower] and the line boundaries of [str.splitlines], on code points
    below 256. *)
Definition py_lower_char (c : ascii) : ascii :=
  let n := nat_of_ascii c in
  if ((65 <=? n) && (n <=? 90))
     || ((192 <=? n) && (n <=? 222) && negb (n =? 215))
  then ascii_of_nat (n + 32) else c.

Fixpoint str_lower (s : string) : string :=
  match s with
  | EmptyString => EmptyString
  | String c s' => String (py_lower_char c) (str_lower s')
  end.

Definition is_linebreak (c : ascii) : bool :=
  let n := nat_of_ascii c in
  ((10 <=? n) && (n <=? 13)) || ((28 <=? n) && (n <=? 30)) || (n =? 133).

(** The text cut at every line boundary (a carriage return and the line
    feed after it are one boundary): the first piece and the later ones. *)
Fixpoint split_lines (s : string) : string * list string :=
  match s with
  | EmptyString => (EmptyString, [])
  | String c s' =>
      if is_linebreak c then
        let '(l, ls) :=
          match s' with
          | String c' s'' =>
              if (nat_of_ascii c =? 13) && (nat_of_ascii c' =? 10)
              then split_lines s'' else split_lines s'
          | EmptyString => split_lines s'
          end in
        (EmptyString, l :: ls)
      else
        let '(l, ls) := split_lines s' in (String c l, ls)
  end.

(** [s.splitlines()]: the pieces, without the empty piece after a final
    line boundary. *)
Definition splitlines (s : string) : list string :=
  let '(l, ls) := split_lines s in
  match last (l :: ls) with
  | Some EmptyString => removelast (l :: ls)
  | _ => l :: ls
  end.

(** The file as [main] first writes it (line 377) and as the folder dialog
    writes it (line 626). *)
Definition default_config (default_base_folder : string) : string :=
  default_base_folder
  +:+ String (ascii_of_nat 10) ("True" +:+ String (ascii_of_nat 10) EmptyString).

Definition saved_config (base_folder : string) (create_subfolder : bool) : string :=
  base_folder +:+ String (ascii_of_nat 10) (if create_subfolder then "true" else "false").

(** "Load configuration" (lines 380-391): [file] is the text [f.read()]
    returns, or [None] when reading raises; [desktop] is the Desktop folder
    of the user.  A text file gives back the text written to it when that
    text has no carriage return and the encoding has its characters. *)
Definition load_config (desktop : string) (file : option string) : string * bool :=
  let create_subfolder := true in
  let base_folder := desktop in
  match file with
  | None => (base_folder, create_subfolder)
  | Some text =>
      let lines := splitlines text in
      let base_folder :=
        match lines with
        | l0 :: _ => str_strip l0
        | [] => base_folder
        end in
      let create_subfolder :=
        match lines with
        | _ :: l1 :: _ => String.eqb (str_lower (str_strip l1)) "true"
        | _ => create_subfolder
        end in
      (base_folder, create_subfolder)
  end.

(** The start of [main] (lines 371-391): a missing file is written first
    (the write is taken to succeed; the program stops if it does not).
    [existing] is the text of the file if there is one. *)
Definition startup_config (desktop : string) (existing : option string)
    : string * (string * bool) :=
  let text :=
    match existing with
    | Some text => text
    | None => default_config (path_join desktop "Petice Downloads")
    end in
  (text, load_config desktop (Some text)).

(** What the folder dialog writes to the configuration file (lines 624-626),
    if it gets that far: the base folder and the option as the handler has
    just set them. *)
Definition config_written (ev : event) (vals : values) (g : gui) : option string :=
  match ev with
  | CHOOSE_DIR ok selected_folder _ made =>
      if ok && negb (String.eqb selected_folder EmptyString) && made
      then let g' := (handle ev vals g).2 in
           Some (saved_config (base_folder g') (create_subfolder g'))
      else None
  | _ => None
  end.

Definition no_linebreak (s : string) : Prop :=
  str_forallb (fun c => negb (is_linebreak c)) s = true.

(* ===================================================================== *)
(** * More observations                                                   *)
(* ===================================================================== *)

Definition is_queue_complete (m : msg) : bool :=
  match m with QUEUE_COMPLETE _ => true | _ => false end.

(** The messages the loop counts itself; all others it posts as events. *)
Definition is_counter_msg (m : msg) : bool :=
  match m with PROCESSED_PROGRESS | DOWNLOADED_PROGRESS => true | _ => false end.

(** A task as [download_video] makes it: it has not asked for the lock. *)
Definition task_fresh (t : task) : Prop :=
  match t with
  | Downloading todo _ => Forall is_progress todo
  | InLock _ => False
  end.

(** A task at work: in its retry loop, or somewhere in its [with lock:]
    block. *)
Definition task_ok (t : task) : Prop :=
  match t with
  | Downloading todo _ => Forall is_progress todo
  | InLock todo => ∃ b, todo `suffix_of` crit_block b
  end.

(** The messages of the items of a job. *)
Definition is_item_msg (m : msg) : Prop :=
  match m with QUEUE_COMPLETE _ | THREAD_END => False | _ => True end.

(** At no point of the list are there more DOWNLOADED than PROCESSED
    messages. *)
Definition balanced (l : list msg) : Prop :=
  ∀ k, count_msg DOWNLOADED_PROGRESS (take k l)
       ≤ count_msg PROCESSED_PROGRESS (take k l).

(** A lock holder that has put its PROCESSED message and not yet its
    DOWNLOADED message. *)
Definition lock_debt (t : task) : nat :=
  match t with
  | InLock todo =>
      sum_list (w_put DOWNLOADED_PROGRESS <$> todo)
      - sum_list (w_put PROCESSED_PROGRESS <$> todo)
  | Downloading _ _ => 0
  end.

Definition pool_balanced (p : pool) : Prop :=
  Forall task_fresh (pending p) ∧ Forall task_ok (running p)
  ∧ Forall is_item_msg (pool_sent p) ∧ balanced (pool_sent p)
  ∧ count_msg DOWNLOADED_PROGRESS (pool_sent p) + tasks_sum lock_debt (running p)
    ≤ count_msg PROCESSED_PROGRESS (pool_sent p).

(** The futures of a concurrent job. *)
Definition futures_of (TW : nat -> world) (opts : ydl_opts) (paths : gset string)
    (videos : list ytdict) : list task :=
  imap (fun i video => download_video (TW i) opts paths video) videos.

(** yt-dlp fails at the first look-up, finds nothing at the second, and
    resolves the URL to a single video at the third. *)
Definition flaky_video : ytdict :=
  YtDict (Val "v1") Absent (Val "What? A song.") Absent.

Definition extract_flaky : string -> nat -> result (option ytdict) :=
  fun _ k =>
    match k with
    | 0 => Raise (Exn DownloadError "network is unreachable")
    | 1 => Ok None
    | _ => Ok (Some flaky_video)
    end.

(** The run of the process [p] when nothing stops it. *)
Definition proc_run (W : world) (TW : nat -> world) (sched : nat -> nat)
    (paths : gset string) (p : process) : result (option (Z * Z)) * wstate :=
  match proc_max_workers p with
  | None =>
      download_process W (proc_info p) (proc_format p) (proc_base_folder p)
                       (wstate_init paths)
  | Some n =>
      download_process_concurrent W TW sched (proc_info p) (proc_format p) n
                                  (proc_base_folder p) (wstate_init paths)
  end.

(** The cancellation event is set from the [k]-th look at it on, and every
    download calls the hook once. *)
Definition world_cancelled_from (k : nat) : world :=
  World (fun i => k <=? i) (fun i => f64_of_Z (Z.of_nat i)) "/app/bin/ffmpeg.exe"
        (fun _ => None)
        (fun _ _ _ => ([ProgressDict (Val "downloading") (Val (PInt 50)) Absent
                                     Absent Absent],
                       Ok tt)).

(* ===================================================================== *)
(** * The state of the loop                                               *)
(* ===================================================================== *)

(** An entry of the queue is a placeholder that waits for its title, or a
    resolved entry, which has at least one item. *)
Definition entry_ok (it : item) : Prop :=
  dict it = temp_item_dict (url (dict it)) ∨ (1 ≤ total (dict it))%Z.

(** What holds of the state between two turns of the loop: the queue text
    shows the queue, the dictionaries of the queue are distinct objects
    made earlier, each a placeholder or resolved, and there is a current
    download only during a session. *)
Definition gui_wf (g : gui) : Prop :=
  queue_text g = queue_display_text (download_queue g)
  ∧ NoDup (oid <$> download_queue g)
  ∧ Forall (fun it => oid it < next_oid g) (download_queue g)
  ∧ Forall entry_ok (download_queue g)
  ∧ (session_active g = false → current_download g = None).

(** Entries leave the queue, or one placeholder is appended. *)
Definition queue_step (g g' : gui) : Prop :=
  (download_queue g' `sublist_of` download_queue g ∧ next_oid g' = next_oid g)
  ∨ ∃ u, download_queue g' = download_queue g ++ [Item (next_oid g) (temp_item_dict u)]
         ∧ next_oid g' = S (next_oid g).

(** One posted event is read and handled. *)
Definition read_event (g : gui) (e : posted_event) : gui :=
  match e with
  | PostMsg m => after (handle (EvMsg m) values_idle) g
  | PostDownload => after (handle DOWNLOAD values_idle) g
  end.

(** A second URL is added while the first download runs. *)
Definition gui_added_during : gui :=
  after (loop_iteration [] ADD_QUEUE values_url) gui_started.

(** A piece of a path: a string without a slash. *)
Definition no_slash (s : string) : bool :=
  str_forallb (fun c => negb (Ascii.eqb c "/")) s.

Definition no_underscore (s : string) : bool :=
  str_forallb (fun c => negb (Ascii.eqb c "_")) s.

(* ===================================================================== *)
(** * Facts about strings and [sanitize_filename]                         *)
(* ===================================================================== *)

Lemma str_replace_char_removes old new s :
  old ≠ new → ¬ str_mem old (str_replace_char old new s).
Proof.
  intros Hne. unfold str_mem. induction s as [|c s IH]; simpl; [tauto|].
  intros [Heq | Hin]; [|tauto].
  destruct (Ascii.eqb_spec c old); congruence.
Qed.

Lemma str_replace_char_keeps_out c old new s :
  c ≠ new → ¬ str_mem c s → ¬ str_mem c (str_replace_char old new s).
Proof.
  intros Hne. unfold str_mem. induction s as [|c' s IH]; simpl; [tauto|].
  intros Hout [Heq | Hin]; [|tauto].
  destruct (Ascii.eqb_spec c' old); [congruence|tauto].
Qed.

Lemma replace_all_keeps_out chars new c s :
  c ≠ new → ¬ str_mem c s →
  ¬ str_mem c (fold_left (fun name char => str_replace_char char new name) chars s).
Proof.
  intros Hne. revert s. induction chars as [|a chars IH]; simpl; [tauto|].
  intros s Hout. apply IH. by apply str_replace_char_keeps_out.
Qed.

Lemma replace_all_removes chars new c s :
  c ≠ new → In c chars →
  ¬ str_mem c (fold_left (fun name char => str_replace_char char new name) chars s).
Proof.
  intros Hne. revert s. induction chars as [|a chars IH]; simpl; [tauto|].
  intros s [-> | Hin].
  - apply replace_all_keeps_out; [done|]. by apply str_replace_char_removes.
  - by apply IH.
Qed.

Lemma str_lstrip_mem P c s : str_mem c (str_lstrip P s) → str_mem c s.
Proof.
  unfold str_mem. induction s as [|a s IH]; simpl; [tauto|].
  destruct (P a); simpl; tauto.
Qed.

Lemma str_rstrip_mem P c s : str_mem c (str_rstrip P s) → str_mem c s.
Proof.
  unfold str_mem. induction s as [|a s IH]; simpl; [tauto|].
  destruct (str_rstrip P s) as [|b r] eqn:E.
  - destruct (P a); simpl; tauto.
  - simpl in *. tauto.
Qed.

Lemma str_rstrip_last P s c :
  str_last (str_rstrip P s) = Some c → P c = false.
Proof.
  induction s as [|a s IH]; simpl; [done|].
  destruct (str_rstrip P s) as [|b r] eqn:E.
  - destruct (P a) eqn:Ha; simpl; [done|]. by intros [= <-].
  - simpl in *. exact IH.
Qed.

Lemma str_lstrip_head P s c :
  str_head (str_lstrip P s) = Some c → P c = false.
Proof.
  induction s as [|a s IH]; simpl; [done|].
  destruct (P a) eqn:Ha; simpl; [done|]. by intros [= <-].
Qed.

Lemma str_rstrip_head P s :
  str_rstrip P s = EmptyString ∨ str_head (str_rstrip P s) = str_head s.
Proof.
  destruct s as [|a s]; simpl; [by left|].
  destruct (str_rstrip P s); [destruct (P a)|]; auto.
Qed.

(** The sanitized name holds none of the reserved characters. *)
Lemma sanitize_filename_no_reserved name c :
  In c invalid_chars → ¬ str_mem c (sanitize_filename name).
Proof.
  intros Hin Hmem. unfold sanitize_filename, str_strip in Hmem.
  do 2 apply str_rstrip_mem in Hmem. apply str_lstrip_mem in Hmem.
  revert Hmem. apply replace_all_removes; [|done].
  intros ->. revert Hin. unfold invalid_chars, dquote. simpl.
  intros [H|[H|[H|[H|[H|[H|[H|[H|[H|[]]]]]]]]]]; discriminate H.
Qed.

(** It does not end with a dot. *)
Lemma sanitize_filename_no_trailing_dot name :
  str_last (sanitize_filename name) ≠ Some "."%char.
Proof.
  intros H. apply str_rstrip_last in H. discriminate H.
Qed.

(** It does not start with whitespace. *)
Lemma sanitize_filename_no_leading_space name c :
  str_head (sanitize_filename name) = Some c → py_isspace c = false.
Proof.
  unfold sanitize_filename, str_strip.
  set (s := fold_left _ _ _).
  destruct (str_rstrip_head is_dot (str_rstrip py_isspace (str_lstrip py_isspace s)))
    as [-> | ->]; [done|].
  destruct (str_rstrip_head py_isspace (str_lstrip py_isspace s)) as [-> | ->]; [done|].
  apply str_lstrip_head.
Qed.

(** C9: stripping the dots after the whitespace uncovers whitespace again.
    On the name [a .] (letter, space, dot) [sanitize_filename] returns
    [a ] (letter, space): the result ends with a space. *)
Theorem sanitize_filename_trailing_space :
  sanitize_filename "a ." = "a "
  ∧ str_last (sanitize_filename "a .") = Some " "%char
  ∧ py_isspace " " = true.
Proof. by vm_compute. Qed.

(* ===================================================================== *)
(** * [get_playlist_info]                                                 *)
(* ===================================================================== *)

Ltac unfold_M :=
  unfold mbind, M_bind, mret, M_ret, fmap, M_fmap, bind, ret, raise,
    try_except, try_finally, modify, gets in *.

Section ResolverFacts.
Variable extract_info : string -> nat -> result (option ytdict).

(** One attempt calls yt-dlp once; when it returns, the item count is the
    length of the item list and at least 1. *)
Lemma resolve_attempt_spec u log :
  ∃ r, resolve_attempt extract_info u log = (r, log ++ [ExtractInfo u])
    ∧ ∀ info, r = Ok info →
        (1 ≤ total info)%Z ∧ total info = Z.of_nat (length (entries info))
        ∧ url info = u.
Proof.
  unfold resolve_attempt, call_extract_info. unfold_M.
  destruct (extract_info u (n_calls log)) as [[d|]|e]; simpl.
  - destruct (yt_title d) as [| |t]; simpl;
      try (eexists; split; [reflexivity|]; intros ? [=]; fail).
    + destruct (yt_entries d) as [| |es]; simpl;
        try (eexists; split; [reflexivity|]; intros ? [=]; fail).
      * eexists; split; [reflexivity|]. intros ? [= <-]. simpl. done.
      * eexists; split; [reflexivity|]. intros ? [= <-]. simpl.
        destruct es; simpl; [done|]. repeat split; lia.
    + destruct (yt_entries d) as [| |es]; simpl;
        try (eexists; split; [reflexivity|]; intros ? [=]; fail).
      * eexists; split; [reflexivity|]. intros ? [= <-]. simpl. done.
      * eexists; split; [reflexivity|]. intros ? [= <-]. simpl.
        destruct es; simpl; [done|]. repeat split; lia.
  - eexists; split; [reflexivity|]. intros ? [=].
  - eexists; split; [reflexivity|]. intros ? [=].
Qed.

Lemma resolve_loop_spec u rng log :
  ∃ info j,
    j ≤ length rng
    ∧ resolve_loop extract_info rng u log
      = (Ok info, log ++ resolver_trace u j (j <? length rng))
    ∧ if j <? length rng
      then (1 ≤ total info)%Z ∧ total info = Z.of_nat (length (entries info))
      else info = PlaylistInfo (sanitize_filename u) u 0 [].
Proof.
  revert log. induction rng as [|a rng IH]; intros log.
  - exists (PlaylistInfo (sanitize_filename u) u 0 []), 0. simpl.
    split; [done|]. split; [|done].
    unfold resolver_trace. simpl. by rewrite app_nil_r.
  - simpl. destruct (resolve_attempt_spec u log) as (r & Hr & Hok).
    unfold_M. rewrite Hr. destruct r as [info|e].
    + exists info, 0. simpl. split; [lia|]. split; [done|].
      destruct (Hok info eq_refl) as (? & ? & ?). done.
    + unfold sleep. unfold_M.
      destruct (IH ((log ++ [ExtractInfo u]) ++ [Sleep 1])) as (info & j & Hj & Hrun & Hres).
      exists info, (S j). split; [lia|]. split.
      * rewrite Hrun. f_equal. unfold resolver_trace. simpl.
        rewrite <- !app_assoc. simpl. done.
      * exact Hres.
Qed.

End ResolverFacts.

(* ===================================================================== *)
(** * The progress percentage                                             *)
(* ===================================================================== *)

(** C5, as stated, fails: with a percentage of 10 supplied and 50 of 100
    bytes downloaded the hook reports 10, not the byte ratio 50. *)
Lemma file_progress_not_spec :
  let d := ProgressDict (Val "downloading") (Val (PInt 10)) (Val (PInt 50))
                        (Val (PInt 100)) Absent in
  file_progress d = Ok 10%Z ∧ file_progress_spec d = 50%Z
  ∧ file_progress d ≠ Ok (file_progress_spec d).
Proof. vm_compute. by repeat split. Qed.

(** The literal [0.1] is a canonical binary64 and the correctly rounded
    quotient of 1 by 10. *)
Lemma f64_0_1_canonical :
  valid_binary 53 1024 f64_0_1 = true
  ∧ f64_div (exact_of_Z 1) (exact_of_Z 10) = f64_0_1.
Proof. by vm_compute. Qed.

(** The throttle of line 192 at the two sides of a tenth of a second: a
    callback 0.09375 s after the last report is dropped, one 0.109375 s or
    0.125 s after it reports. *)
Example throttle_around_a_tenth :
  let q (a b : Z) := f64_div (exact_of_Z a) (exact_of_Z b) in
  SFltb (q 3%Z 32%Z) f64_0_1 = true
  ∧ SFltb (q 7%Z 64%Z) f64_0_1 = false
  ∧ SFltb (q 1%Z 8%Z) f64_0_1 = false
  ∧ SFltb (f64_sub (q 9%Z 8%Z) (f64_of_Z 1)) f64_0_1 = false
  ∧ SFltb (f64_sub (q 11%Z 10%Z) (f64_of_Z 1)) f64_0_1 = false
  ∧ SFltb (f64_sub (q 109%Z 100%Z) (f64_of_Z 1)) f64_0_1 = true.
Proof. vm_compute. by repeat split. Qed.

(** A defect of the code: the default of [d.get('total_bytes_estimate', 1)]
    is 1, which the guard [if total_bytes else 0] lets through. With no
    percentage, no total and no estimate key the hook therefore reports
    100 times the bytes downloaded: 5 bytes are reported as 500. *)
Lemma file_progress_default_estimate_slip d :
  get (d_percent d) = None →
  py_truthy (get (d_total_bytes d)) = false →
  d_total_bytes_estimate d = Absent →
  file_progress d
  = ratio_percent (get_default (d_downloaded_bytes d) (PInt 0)) (Some (PInt 1)).
Proof.
  intros Hp Ht He. unfold file_progress, py_or. by rewrite Hp, Ht, He.
Qed.

Example file_progress_default_estimate :
  file_progress (ProgressDict (Val "downloading") Absent (Val (PInt 5)) Absent Absent)
  = Ok 500%Z.
Proof. by vm_compute. Qed.

(** The ratio is a binary64 one: 29 of 100 bytes are reported as 28. *)
Example file_progress_float_ratio :
  file_progress (ProgressDict (Val "downloading") Absent (Val (PInt 29))
                              (Val (PInt 100)) Absent)
  = Ok 28%Z.
Proof. by vm_compute. Qed.

(** A byte count divided by itself is 1.0, so that the ratio is exactly 100
    at the end of a transfer. *)
Lemma f64_div_same p :
  f64_div (S754_finite false p 0) (S754_finite false p 0)
  = S754_finite false 4503599627370496 (-52).
Proof.
  unfold f64_div, SFdiv, SFdiv_core_binary.
  replace (Zdigits2 (Z.pos p) + 0 - (Zdigits2 (Z.pos p) + 0))%Z with 0%Z by lia.
  change (Z.min (fexp 53 1024 0) (0 - 0)) with (-53)%Z.
  change (0 - 0 - -53)%Z with 53%Z. cbv iota.
  rewrite Z.shiftl_mul_pow2 by lia.
  assert (H : Z.div_eucl (Z.pos p * 2 ^ 53) (Z.pos p) = (2 ^ 53, 0)%Z).
  { pose proof (Z.div_mul (2 ^ 53) (Z.pos p) ltac:(lia)) as Hq.
    pose proof (Z.mod_mul (2 ^ 53) (Z.pos p) ltac:(lia)) as Hr.
    rewrite Z.mul_comm in Hq, Hr. unfold Z.div in Hq. unfold Z.modulo in Hr.
    destruct (Z.div_eucl (Z.pos p * 2 ^ 53) (Z.pos p)) as [q r].
    by subst. }
  rewrite H.
  assert (Hl : new_location (Z.pos p) 0 = loc_Exact).
  { unfold new_location, new_location_even, new_location_odd.
    destruct (Z.even (Z.pos p)); reflexivity. }
  rewrite Hl. reflexivity.
Qed.

Lemma ratio_percent_same n :
  (0 < n)%Z → ratio_percent (Some (PInt n)) (Some (PInt n)) = Ok 100%Z.
Proof.
  intros Hn. destruct n as [|p|p]; try lia.
  unfold ratio_percent, py_truediv. simpl Z.eqb. cbn [exact_of_Z].
  rewrite f64_div_same. reflexivity.
Qed.

Lemma ratio_percent_zero t :
  t ≠ 0%Z → ratio_percent (Some (PInt 0)) (Some (PInt t)) = Ok 0%Z.
Proof.
  intros Ht. unfold ratio_percent, py_truediv.
  destruct (Z.eqb_spec t 0) as [|_]; [done|].
  destruct t as [|p|p]; [done|reflexivity|reflexivity].
Qed.

(** C5 (amended): a progress callback of a transfer in flight (status
    "downloading", no cancellation, not dropped by the throttle) puts one
    FILE_PROGRESS message, whose value is that of [file_progress]; when that
    computation raises, the hook raises and puts nothing. The value is
    [int(percent)] when yt-dlp supplies a percentage; otherwise it is
    [int((downloaded_bytes / total) * 100)] in float arithmetic, where
    [downloaded_bytes] defaults to 0 and [total] is [total_bytes] when that
    is a non-zero number, else a non-zero [total_bytes_estimate]; it is 0
    when neither total is available: the estimate is [None] or zero, or its
    key is missing and no byte is counted as downloaded. With a known
    integer total, no byte downloaded is reported as 0 and as many bytes as
    the total as 100. *)
Theorem file_progress_cases W d last s :
  cancel_is_set W (is_set_calls s) = false →
  get (d_status d) = Some "downloading" →
  let now := monotonic W (clock_reads s) in
  let downloaded := get_default (d_downloaded_bytes d) (PInt 0) in
  (SFltb (f64_sub now last) f64_0_1 = false →
   match file_progress d with
   | Ok p => ∃ s', progress_hook W d last s = (Ok now, s')
                   ∧ sent s' = sent s ++ [FILE_PROGRESS p]
   | Raise e => ∃ s', progress_hook W d last s = (Raise e, s')
                      ∧ sent s' = sent s
   end)
  ∧ (SFltb (f64_sub now last) f64_0_1 = true →
     ∃ s', progress_hook W d last s = (Ok last, s') ∧ sent s' = sent s)
  ∧ (∀ p, d_percent d = Val p → file_progress d = py_int p)
  ∧ (get (d_percent d) = None →
     (∀ t, d_total_bytes d = Val t → py_truthy (Some t) = true →
           file_progress d = ratio_percent downloaded (Some t))
     ∧ (py_truthy (get (d_total_bytes d)) = false →
        (∀ e, d_total_bytes_estimate d = Val e →
              file_progress d =
                if py_truthy (Some e) then ratio_percent downloaded (Some e)
                else Ok 0%Z)
        ∧ (d_total_bytes_estimate d = IsNone → file_progress d = Ok 0%Z)
        ∧ (d_total_bytes_estimate d = Absent → downloaded = Some (PInt 0) →
           file_progress d = Ok 0%Z))
     ∧ (∀ n, (0 < n)%Z → d_total_bytes d = Val (PInt n) →
             (downloaded = Some (PInt 0) → file_progress d = Ok 0%Z)
             ∧ (downloaded = Some (PInt n) → file_progress d = Ok 100%Z))).
Proof.
  intros Hc Hst now downloaded. split; [|split; [|split]].
  - intros Hthr. unfold progress_hook, is_set, time_monotonic, lift, put.
    unfold_M. simpl. rewrite Hc.
    destruct (decide (get (d_status d) = Some "downloading")) as [_|]; [|done].
    cbn [clock_reads]. fold now. rewrite Hthr.
    destruct (file_progress d) as [p|e]; simpl; eexists; split; reflexivity.
  - intros Hthr. unfold progress_hook, is_set, time_monotonic, lift, put.
    unfold_M. simpl. rewrite Hc.
    destruct (decide (get (d_status d) = Some "downloading")) as [_|]; [|done].
    cbn [clock_reads]. fold now. rewrite Hthr. simpl. eexists; split; reflexivity.
  - unfold file_progress. by intros p ->.
  - unfold file_progress, downloaded. intros ->. split; [|split].
    + intros t -> Ht. unfold py_or. cbn [get]. by rewrite !Ht.
    + intros Hf. unfold py_or. rewrite Hf. split; [|split].
      * intros e ->. cbn [get_default]. done.
      * by intros ->.
      * intros -> Hd. cbn [get_default]. rewrite Hd. reflexivity.
    + intros n Hn ->. unfold py_or. cbn [get].
      assert (Ht : py_truthy (Some (PInt n)) = true).
      { simpl. destruct (Z.eqb_spec n 0); [lia|done]. }
      rewrite !Ht. split; intros ->.
      * apply ratio_percent_zero. lia.
      * by apply ratio_percent_same.
Qed.

Lemma file_progress_cases_witness :
  ∃ s', progress_hook world_ok
          (ProgressDict (Val "downloading") IsNone (Val (PInt 50))
                        (Val (PInt 100)) Absent)
          (S754_zero false) (WState [] ∅ 0 1 0 0)
        = (Ok (f64_of_Z 1), s')
        ∧ sent s' = [FILE_PROGRESS 50].
Proof.
  exact (proj1 (file_progress_cases world_ok
                  (ProgressDict (Val "downloading") IsNone (Val (PInt 50))
                                (Val (PInt 100)) Absent)
                  (S754_zero false) (WState [] ∅ 0 1 0 0) eq_refl eq_refl)
               eq_refl).
Defined.

(* ===================================================================== *)
(** * The unique playlist folder                                          *)
(* ===================================================================== *)

Lemma str_length_app (s1 s2 : string) :
  String.length (s1 +:+ s2) = String.length s1 + String.length s2.
Proof. induction s1 as [|c s1 IH]; simpl; [done|]. by rewrite IH. Qed.

Lemma candidate_inj original : Inj (=) (=) (candidate original).
Proof.
  assert (Hlen : ∀ k, original ≠ original +:+ "_" +:+ pretty (S k)).
  { intros k H. apply (f_equal String.length) in H.
    rewrite !str_length_app in H. simpl in H. lia. }
  intros [|j] [|k] H; simpl in H.
  - done.
  - by apply Hlen in H.
  - symmetry in H. by apply Hlen in H.
  - apply String.app_inj in H. injection H as H. by apply pretty_nat_inj in H.
Qed.

(** The loop stops at the first free candidate, if it has fuel to reach it. *)
Lemma unique_folder_loop_spec exists_ original fuel k :
  match unique_folder_loop fuel exists_ original (candidate original k) (S k) with
  | Some r =>
      ∃ m, k ≤ m < k + fuel ∧ r = candidate original m
           ∧ exists_ (candidate original m) = false
           ∧ ∀ j, k ≤ j < m → exists_ (candidate original j) = true
  | None => ∀ j, k ≤ j < k + fuel → exists_ (candidate original j) = true
  end.
Proof.
  revert k. induction fuel as [|fuel IH]; intros k; simpl.
  - intros j Hj. lia.
  - destruct (exists_ (candidate original k)) eqn:Hk.
    + specialize (IH (S k)). simpl in IH.
      destruct (unique_folder_loop fuel exists_ original _ _) as [r|].
      * destruct IH as (m & Hm & -> & Hfree & Hbusy).
        exists m. split; [lia|]. split; [done|]. split; [done|].
        intros j Hj. destruct (decide (j = k)) as [->|]; [done|].
        apply Hbusy. lia.
      * intros j Hj. destruct (decide (j = k)) as [->|]; [done|].
        apply IH. lia.
    + exists k. split; [lia|]. split; [done|]. split; [done|].
      intros j Hj. lia.
Qed.

Lemma str_forallb_pretty_go P x s :
  (∀ d, (d < 10)%N → P (pretty_N_char d) = true) →
  str_forallb P (pretty_N_go x s) = str_forallb P s
  ∧ (s ≠ EmptyString → pretty_N_go x s ≠ EmptyString).
Proof.
  intros HP. revert s. induction (N.lt_wf_0 x) as [x _ IH]. intros s.
  destruct (decide (x = 0%N)) as [->|Hx]; [by rewrite pretty_N_go_0|].
  rewrite pretty_N_go_step by lia.
  destruct (IH (x `div` 10)%N ltac:(apply N.div_lt; lia)
               (String (pretty_N_char (x `mod` 10)) s)) as [H1 H2].
  split; [|intros _; by apply H2].
  rewrite H1. cbn [str_forallb]. rewrite HP; [done|]. apply N.mod_lt. lia.
Qed.

(** ** Paths and the nodes they name *)

Lemma elem_of_fs_nodes (paths : gset string) n :
  n ∈ fs_nodes paths ↔ n = [] ∨ ∃ q, q ∈ paths ∧ n ∈ path_nodes q.
Proof.
  unfold fs_nodes. rewrite elem_of_union, elem_of_singleton, elem_of_list_to_set.
  rewrite list_elem_of_bind. split.
  - intros [->|(q & Hn & Hq)]; [by left|]. right. exists q.
    by apply elem_of_elements in Hq.
  - intros [->|(q & Hq & Hn)]; [by left|]. right. exists q.
    by apply elem_of_elements in Hq.
Qed.

Lemma path_exists_elem_of (paths : gset string) p :
  p ∈ paths → path_exists paths p = true.
Proof. intros H. unfold path_exists. by rewrite bool_decide_eq_true_2. Qed.

Lemma path_exists_not_elem_of (paths : gset string) p :
  path_exists paths p = false → p ∉ paths.
Proof. intros H Hp. apply path_exists_elem_of in Hp. congruence. Qed.

(** With a path all nodes on its way exist. *)
Lemma path_exists_nodes (paths : gset string) p n :
  path_exists paths p = true → n ∈ path_nodes p → n ∈ fs_nodes paths.
Proof.
  unfold path_exists. intros H Hn. apply orb_true_iff in H as [H|H].
  - apply bool_decide_eq_true in H. apply elem_of_fs_nodes. right. by exists p.
  - apply andb_true_iff in H as [_ H]. rewrite forallb_forall in H.
    apply list_elem_of_In in Hn. specialize (H n Hn).
    by apply bool_decide_eq_true in H.
Qed.

Lemma fs_nodes_mono (paths paths' : gset string) :
  paths ⊆ paths' → fs_nodes paths ⊆ fs_nodes paths'.
Proof.
  intros Hsub n Hn. apply elem_of_fs_nodes in Hn as [->|(q & Hq & Hn)];
    apply elem_of_fs_nodes; [by left|]. right. exists q. split; [|done]. by apply Hsub.
Qed.

(** What exists in a file system exists in a larger one. *)
Lemma path_exists_mono (paths paths' : gset string) p :
  paths ⊆ paths' → path_exists paths p = true → path_exists paths' p = true.
Proof.
  intros Hsub H. unfold path_exists in *. apply orb_true_iff.
  apply orb_true_iff in H as [H|H].
  - left. apply bool_decide_eq_true in H. apply bool_decide_eq_true. by apply Hsub.
  - right. apply andb_true_iff in H as [Hne H]. apply andb_true_iff. split; [done|].
    rewrite forallb_forall in H. apply forallb_forall. intros n Hn.
    specialize (H n Hn). apply bool_decide_eq_true in H. apply bool_decide_eq_true.
    by apply (fs_nodes_mono _ _ Hsub).
Qed.

Lemma path_components_no_slash s : no_slash s = true → path_components s = [s].
Proof.
  unfold no_slash. induction s as [|c s IH]; cbn [str_forallb path_components];
    [done|].
  intros H. apply andb_true_iff in H as [Hc Hs]. apply negb_true_iff in Hc.
  rewrite Hc. by rewrite IH.
Qed.

(** A piece appended to a path extends its last component. *)
Lemma path_components_app p :
  ∃ init lastc, path_components p = init ++ [lastc]
    ∧ ∀ s, no_slash s = true → path_components (p +:+ s) = init ++ [lastc +:+ s].
Proof.
  induction p as [|c p (init & lastc & Hp & Hps)].
  - exists [], EmptyString. split; [done|]. intros s Hs.
    by apply path_components_no_slash.
  - assert (Hstep : ∀ s, path_components (String c p +:+ s)
                         = if Ascii.eqb c "/" then EmptyString :: path_components (p +:+ s)
                           else match path_components (p +:+ s) with
                                | x :: xs => String c x :: xs
                                | [] => [String c EmptyString]
                                end) by done.
    cbn [path_components]. destruct (Ascii.eqb c "/").
    + exists (EmptyString :: init), lastc. rewrite Hp. split; [done|].
      intros s Hs. by rewrite Hstep, Hps.
    + rewrite Hp. destruct init as [|x xs].
      * exists [], (String c lastc). split; [done|].
        intros s Hs. by rewrite Hstep, Hps.
      * exists (String c x :: xs), lastc. split; [done|].
        intros s Hs. by rewrite Hstep, Hps.
Qed.

Lemma path_walk_snoc dir cs c :
  path_walk dir (cs ++ [c])
  = path_walk dir cs ++ [path_step (foldl path_step dir cs) c].
Proof.
  revert dir. induction cs as [|x cs IH]; intros dir; cbn [path_walk app foldl];
    [done|]. by rewrite IH.
Qed.

(** A component with an underscore is a name: it is not empty, [.] or [..]. *)
Lemma path_step_name dir l s :
  path_step dir (l +:+ String "_" s) = dir ++ [l +:+ String "_" s].
Proof.
  unfold path_step.
  assert (H : ∀ x, no_underscore x = true → l +:+ String "_" s ≠ x).
  { intros x Hx Heq. rewrite <- Heq in Hx. clear Heq.
    induction l as [|a l IH]; cbn in Hx; [done|].
    apply andb_true_iff in Hx as [_ Hx]. by apply IH. }
  destruct (String.eqb_spec (l +:+ String "_" s) EmptyString) as [Heq|_];
    [by apply H in Heq|].
  destruct (String.eqb_spec (l +:+ String "_" s) ".") as [Heq|_];
    [by apply H in Heq|].
  destruct (String.eqb_spec (l +:+ String "_" s) "..") as [Heq|_];
    [by apply H in Heq|].
  done.
Qed.

Lemma no_slash_pretty (n : nat) : no_slash (pretty n) = true.
Proof.
  assert (HP : ∀ d, (d < 10)%N → negb (Ascii.eqb (pretty_N_char d) "/") = true).
  { intros d Hd.
    assert (d = 0 ∨ d = 1 ∨ d = 2 ∨ d = 3 ∨ d = 4 ∨ d = 5 ∨ d = 6 ∨ d = 7 ∨ d = 8
            ∨ d = 9)%N as Hcases by lia.
    repeat (destruct Hcases as [->|Hcases]; [reflexivity|]). by subst. }
  unfold no_slash, pretty, pretty_nat, pretty, pretty_N.
  case_decide as Hn; [done|].
  by destruct (str_forallb_pretty_go (fun c => negb (Ascii.eqb c "/"))
                (N.of_nat n) EmptyString HP) as [-> _].
Qed.

(** The candidates with a suffix name nodes of one directory, one apart
    from the other. *)
Lemma candidate_node original :
  ∃ dir lastc, ∀ k,
    dir ++ [lastc +:+ "_" +:+ pretty (S k)] ∈ path_nodes (candidate original (S k)).
Proof.
  destruct (path_components_app original) as (init & lastc & _ & Happ).
  exists (foldl path_step [] init), lastc. intros k.
  unfold path_nodes. cbn [candidate]. rewrite Happ.
  2:{ change (no_slash (String "_" (pretty (S k))) = true).
      unfold no_slash. cbn [str_forallb]. apply (no_slash_pretty (S k)). }
  rewrite path_walk_snoc. apply elem_of_app. right. apply list_elem_of_singleton.
  symmetry. apply (path_step_name _ lastc (pretty (S k))).
Qed.

(** Two more tests than the file system has nodes always find a free name:
    the candidates with a suffix that exist name different nodes. *)
Lemma unique_folder_loop_terminates (paths : gset string) original :
  ∃ r, unique_folder_loop (S (S (size (fs_nodes paths)))) (path_exists paths)
                          original original 1 = Some r.
Proof.
  pose proof (unique_folder_loop_spec (path_exists paths)
                original (S (S (size (fs_nodes paths)))) 0) as H.
  simpl candidate in H.
  destruct (unique_folder_loop _ _ _ _ _) as [r|]; [by eexists|].
  exfalso.
  destruct (candidate_node original) as (dir & lastc & Hnode).
  set (node := fun k => dir ++ [lastc +:+ "_" +:+ pretty (S k)]).
  set (l := node <$> seq 0 (S (size (fs_nodes paths)))).
  assert (Hnd : NoDup l).
  { apply NoDup_fmap_2; [|apply NoDup_seq].
    intros j k Heq. unfold node in Heq. apply app_inj_tail in Heq as [_ Heq].
    apply String.app_inj in Heq. injection Heq as Heq.
    apply pretty_nat_inj in Heq. lia. }
  assert (Hsub : (list_to_set l : gset (list string)) ⊆ fs_nodes paths).
  { intros n Hn. apply elem_of_list_to_set in Hn.
    apply list_elem_of_fmap in Hn as (j & -> & Hj).
    apply elem_of_seq in Hj.
    apply (path_exists_nodes paths (candidate original (S j))); [|apply Hnode].
    apply H. lia. }
  apply subseteq_size in Hsub. rewrite size_list_to_set in Hsub; [|done].
  unfold l in Hsub. rewrite length_fmap, length_seq in Hsub. lia.
Qed.

(** The loop returns a free name: the first free candidate. *)
Lemma unique_folder_spec (paths : gset string) original :
  let r := unique_folder paths original in
  path_exists paths r = false
  ∧ ∃ k, r = candidate original k
         ∧ ∀ j, j < k → path_exists paths (candidate original j) = true.
Proof.
  intros r. unfold r, unique_folder.
  destruct (unique_folder_loop_terminates paths original) as (r' & Hr').
  pose proof (unique_folder_loop_spec (path_exists paths)
                original (S (S (size (fs_nodes paths)))) 0) as H.
  simpl candidate in H. rewrite Hr' in H. rewrite Hr'. simpl.
  destruct H as (m & Hm & -> & Hfree & Hbusy).
  split; [done|].
  exists m. split; [done|]. intros j Hj. apply Hbusy. lia.
Qed.

(** Unless [os.makedirs] fails, the folder is made, nothing is put on the
    queue and no path is lost. *)
Lemma create_playlist_folder_spec W base info s :
  let r := unique_folder (fs s) (path_join base (title info)) in
  makedirs_error W r = None →
  ∃ s', create_playlist_folder W base info s = (Ok r, s')
        ∧ r ∈ fs s' ∧ fs s ⊆ fs s' ∧ sent s' = sent s.
Proof.
  intros r Herr.
  destruct (unique_folder_spec (fs s) (path_join base (title info))) as [Hfree _].
  fold r in Hfree.
  unfold create_playlist_folder, makedirs. unfold_M. fold r.
  rewrite Hfree. rewrite Herr.
  eexists. split; [reflexivity|]. simpl.
  split; [set_solver|]. split; [set_solver|done].
Qed.

(** With an empty title the folder of the job would be the base folder
    itself, which exists: the job makes the folder [_1] in it. A doubled
    slash does not make a new name either. *)
Example unique_folder_empty_title :
  unique_folder {[ "/dl" ]} (path_join "/dl" EmptyString) = "/dl/_1"
  ∧ unique_folder {[ "/dl"; "/dl/X" ]} "/dl//X" = "/dl//X_1"
  ∧ unique_folder {[ "/dl/X/../X_1/../X_2" ]} "/dl/X" = "/dl/X_3".
Proof. vm_compute. by repeat split. Qed.

(** C6: the folder a job makes is not one that exists, under whatever
    spelling of its path. It is the folder of the title when that is free,
    and otherwise the title with the first free suffix among 1, 2, ...: X_1
    when X exists, X_2 when X_1 exists as well, and so on. Creating it
    leaves every existing path in place. Both processes make their folder
    this way. *)
Theorem unique_folder_never_existing (paths : gset string) original :
  let r := unique_folder paths original in
  path_exists paths r = false
  ∧ (r ∉ paths)
  ∧ (∃ k, r = candidate original k
          ∧ ∀ j, j < k → path_exists paths (candidate original j) = true)
  ∧ (path_exists paths original = false → r = original)
  ∧ (path_exists paths original = true →
     path_exists paths (original +:+ "_1") = false → r = original +:+ "_1")
  ∧ (path_exists paths original = true →
     path_exists paths (original +:+ "_1") = true →
     path_exists paths (original +:+ "_2") = false → r = original +:+ "_2")
  ∧ ∀ W base info s,
      path_join base (title info) = original → fs s = paths →
      makedirs_error W r = None →
      ∃ s', create_playlist_folder W base info s = (Ok r, s')
            ∧ r ∈ fs s' ∧ paths ⊆ fs s' ∧ sent s' = sent s
            ∧ path_exists (fs s') r = true
            ∧ ∀ p, path_exists paths p = true → path_exists (fs s') p = true.
Proof.
  intros r.
  destruct (unique_folder_spec paths original) as (Hfree & k & Hk & Hbusy).
  fold r in Hfree, Hk.
  split; [done|]. split; [by apply path_exists_not_elem_of|]. split; [by exists k|].
  assert (H1 : candidate original 1 = original +:+ "_1") by (by vm_compute).
  assert (H2 : candidate original 2 = original +:+ "_2") by (by vm_compute).
  split; [|split; [|split]].
  - intros H0. destruct k as [|k]; [done|].
    specialize (Hbusy 0 ltac:(lia)). simpl in Hbusy. congruence.
  - intros H0 Hf. destruct k as [|[|k]].
    + simpl in Hk. rewrite Hk in Hfree. congruence.
    + by rewrite Hk.
    + specialize (Hbusy 1 ltac:(lia)). rewrite H1 in Hbusy. congruence.
  - intros H0 H1' Hf. destruct k as [|[|[|k]]].
    + simpl in Hk. rewrite Hk in Hfree. congruence.
    + rewrite Hk, H1 in Hfree. congruence.
    + by rewrite Hk.
    + specialize (Hbusy 2 ltac:(lia)). rewrite H2 in Hbusy. congruence.
  - intros W base info s Hjoin Hfs Herr. subst paths original.
    destruct (create_playlist_folder_spec W base info s Herr)
      as (s' & Hrun & Hin & Hsub & Hsent).
    exists s'. split; [done|]. split; [done|]. split; [done|]. split; [done|].
    split; [by apply path_exists_elem_of|].
    intros p Hp. by apply (path_exists_mono _ _ _ Hsub).
Qed.

Lemma unique_folder_never_existing_witness :
  unique_folder {[ "/dl"; "/dl/X"; "/dl/X_1" ]} "/dl/X" = "/dl/X_2".
Proof.
  apply (proj1 (proj2 (proj2 (proj2 (proj2 (proj2
           (unique_folder_never_existing {[ "/dl"; "/dl/X"; "/dl/X_1" ]} "/dl/X"))))))).
  - vm_compute. reflexivity.
  - vm_compute. reflexivity.
  - vm_compute. reflexivity.
Defined.

(* ===================================================================== *)
(** * What the download processes put on the queue                        *)
(* ===================================================================== *)

Lemma emits_weaken {A} (P Q : msg -> Prop) (m : M wstate A) :
  (∀ x, P x → Q x) → emits P m → emits Q m.
Proof.
  intros HPQ Hm s. destruct (Hm s) as (evs & ? & ? & ?).
  exists evs. split; [done|]. split; [|done]. by eapply Forall_impl.
Qed.

Lemma emits_ret {A} P (a : A) : emits P (ret a : M wstate A).
Proof. intros s. exists []. simpl. by rewrite app_nil_r. Qed.

Lemma emits_raise {A} P e : emits P (raise e : M wstate A).
Proof. intros s. exists []. simpl. by rewrite app_nil_r. Qed.

Lemma emits_lift {A} P (r : result A) : emits P (lift r).
Proof. intros s. exists []. simpl. by rewrite app_nil_r. Qed.

Lemma emits_gets {A} P (f : wstate -> A) : emits P (gets f).
Proof. intros s. exists []. simpl. by rewrite app_nil_r. Qed.

Lemma emits_bind {A B} P (m : M wstate A) (k : A -> M wstate B) :
  emits P m → (∀ a, emits P (k a)) → emits P (bind m k).
Proof.
  intros Hm Hk s. unfold bind. destruct (Hm s) as (evs & He & HP & Hfs).
  destruct (m s) as [[a|e] s1]; simpl in *.
  - destruct (Hk a s1) as (evs' & He' & HP' & Hfs').
    exists (evs ++ evs'). rewrite He', He, app_assoc. split; [done|].
    split; [by apply Forall_app|]. by etrans.
  - by exists evs.
Qed.

Lemma emits_mbind {A B} P (m : M wstate A) (k : A -> M wstate B) :
  emits P m → (∀ a, emits P (k a)) → emits P (m ≫= k).
Proof. apply emits_bind. Qed.

Lemma emits_try_except {A} P (body : M wstate A) handler :
  emits P body → (∀ e, emits P (handler e)) → emits P (try_except body handler).
Proof.
  intros Hm Hk s. unfold try_except. destruct (Hm s) as (evs & He & HP & Hfs).
  destruct (body s) as [[a|e] s1]; simpl in *.
  - by exists evs.
  - destruct (Hk e s1) as (evs' & He' & HP' & Hfs').
    exists (evs ++ evs'). rewrite He', He, app_assoc. split; [done|].
    split; [by apply Forall_app|]. by etrans.
Qed.

Lemma emits_put (P : msg -> Prop) m : P m → emits P (put m).
Proof. intros Hm s. exists [m]. simpl. split; [done|]. split; [|done]. by constructor. Qed.

Lemma emits_time_sleep P n : emits P (time_sleep n).
Proof. intros s. exists []. simpl. by rewrite app_nil_r. Qed.

Lemma emits_is_set P W : emits P (is_set W).
Proof. intros s. exists []. simpl. by rewrite app_nil_r. Qed.

Lemma emits_time_monotonic P W : emits P (time_monotonic W).
Proof. intros s. exists []. simpl. by rewrite app_nil_r. Qed.

Lemma emits_ite {A} P (b : bool) (m1 m2 : M wstate A) :
  emits P m1 → emits P m2 → emits P (if b then m1 else m2).
Proof. by destruct b. Qed.

Create HintDb emits discriminated.
#[local] Hint Resolve emits_ret emits_raise emits_lift emits_gets emits_time_sleep
  emits_is_set emits_time_monotonic : emits.
#[local] Hint Extern 1 (emits _ (put _)) => apply emits_put; exact I : emits.

Ltac emits_step :=
  first
    [ solve [auto with emits]
    | apply emits_mbind; [|intros ?]
    | apply emits_try_except; [|intros ?]
    | apply emits_ite ].

Lemma emits_get_ffmpeg_path P W : emits P (get_ffmpeg_path W).
Proof.
  unfold get_ffmpeg_path. apply emits_mbind; [auto with emits|]. intros paths.
  destruct (path_exists paths _); auto with emits.
Qed.

Lemma emits_makedirs P W p : emits P (makedirs W p).
Proof.
  unfold makedirs. apply emits_mbind; [auto with emits|]. intros paths.
  destruct (path_exists paths p); [auto with emits|].
  destruct (makedirs_error W p); [auto with emits|].
  intros s. exists []. simpl. rewrite app_nil_r. split; [done|]. split; [done|].
  set_solver.
Qed.

Lemma emits_create_playlist_folder P W base info :
  emits P (create_playlist_folder W base info).
Proof.
  unfold create_playlist_folder. apply emits_mbind; [auto with emits|]. intros paths.
  apply emits_mbind; [apply emits_makedirs|]. intros _. auto with emits.
Qed.

Lemma emits_progress_hook W d last : emits is_progress (progress_hook W d last).
Proof.
  unfold progress_hook. repeat (emits_step || case_decide).
Qed.

Lemma emits_feed_hook W ds last : emits is_progress (feed_hook W ds last).
Proof.
  revert last. induction ds as [|d ds IH]; intros last; simpl; [auto with emits|].
  apply emits_mbind; [apply emits_progress_hook | auto].
Qed.

Lemma emits_ydl_run W opts u : emits is_progress (ydl_run W opts u).
Proof.
  unfold ydl_run. apply emits_mbind; [auto with emits|]. intros k.
  apply emits_mbind.
  { intros s. exists []. simpl. by rewrite app_nil_r. }
  intros _. destruct (ydl_download W opts u k) as [ds outcome].
  apply emits_mbind; [apply emits_feed_hook|]. intros _. auto with emits.
Qed.

#[local] Hint Resolve emits_get_ffmpeg_path emits_makedirs
  emits_create_playlist_folder emits_progress_hook emits_feed_hook
  emits_ydl_run : emits.

Lemma emits_seq_attempts W rng opts u t :
  emits is_progress (seq_attempts W rng opts u t).
Proof.
  induction rng as [|attempt rng IH]; simpl; [auto with emits|].
  repeat emits_step.
Qed.

Lemma emits_conc_attempts W rng opts u t :
  emits is_progress (conc_attempts W rng opts u t).
Proof.
  induction rng as [|attempt rng IH]; simpl; [auto with emits|].
  repeat emits_step.
Qed.

Lemma progress_not_thread_end m : is_progress m → not_thread_end m.
Proof. by destruct m. Qed.

#[local] Hint Extern 1 (emits not_thread_end (put _)) =>
  apply emits_put; discriminate : emits.

Lemma emits_seq_attempts_nte W rng opts u t :
  emits not_thread_end (seq_attempts W rng opts u t).
Proof.
  eapply emits_weaken; [apply progress_not_thread_end | apply emits_seq_attempts].
Qed.

#[local] Hint Resolve emits_seq_attempts_nte : emits.

Lemma emits_seq_video W folder fmt video counts :
  emits not_thread_end (seq_video W folder fmt video counts).
Proof.
  unfold seq_video. repeat emits_step.
Qed.

Lemma emits_seq_videos W folder fmt videos counts :
  emits not_thread_end (seq_videos W folder fmt videos counts).
Proof.
  revert counts. induction videos as [|v vs IH]; intros counts; simpl;
    [auto with emits|].
  apply emits_mbind; [apply emits_seq_video | auto].
Qed.

#[local] Hint Resolve emits_seq_video emits_seq_videos : emits.

Lemma emits_download_process_try W info fmt base :
  emits not_thread_end (download_process_try W info fmt base).
Proof.
  unfold download_process_try. repeat emits_step.
Qed.

(* ===================================================================== *)
(** * The thread pool                                                     *)
(* ===================================================================== *)

Lemma tasks_sum_app f l1 l2 : tasks_sum f (l1 ++ l2) = tasks_sum f l1 + tasks_sum f l2.
Proof.
  unfold tasks_sum. rewrite fmap_app. induction (f <$> l1) as [|x l IH]; simpl; lia.
Qed.

Lemma tasks_sum_cons f t l : tasks_sum f (t :: l) = f t + tasks_sum f l.
Proof. done. Qed.

Lemma tasks_sum_lookup f (l : list task) j t :
  l !! j = Some t →
  ∃ rest, tasks_sum f l = f t + rest
          ∧ (∀ t', tasks_sum f (<[j:=t']> l) = f t' + rest)
          ∧ tasks_sum f (delete j l) = rest.
Proof.
  intros Hj. exists (tasks_sum f (take j l ++ drop (S j) l)).
  pose proof (lookup_lt_Some _ _ _ Hj) as Hlt.
  split; [|split].
  - rewrite <- (take_drop_middle l j t Hj) at 1.
    rewrite !tasks_sum_app, tasks_sum_cons. lia.
  - intros t'. rewrite insert_take_drop by done.
    rewrite !tasks_sum_app, tasks_sum_cons. lia.
  - by rewrite delete_take_drop.
Qed.

(** The shape of a step, case by case. *)
Lemma pool_step_inv N c p p' :
  pool_step N c p = Some p' →
  (∃ t ts, c = 0 ∧ pending p = t :: ts ∧ length (running p) < N
           ∧ p' = Pool ts (running p ++ [t]) (lock_held p) (pool_sent p)
                       (downloaded_count p) (processed_count p) (raised p))
  ∨ ∃ j t, c = S j ∧ running p !! j = Some t ∧
      match t with
      | Downloading (m :: todo) r =>
          p' = with_running (do_crit (CPut m) p) (<[j := Downloading todo r]> (running p))
      | Downloading [] (Raise e) =>
          p' = Pool (pending p) (delete j (running p)) (lock_held p) (pool_sent p)
                    (downloaded_count p) (processed_count p) (raised p ++ [e])
      | Downloading [] (Ok success) =>
          lock_held p = false
          ∧ p' = Pool (pending p) (<[j := InLock (crit_block success)]> (running p))
                      true (pool_sent p)
                      (downloaded_count p) (processed_count p) (raised p)
      | InLock (a :: todo) =>
          p' = with_running (do_crit a p) (<[j := InLock todo]> (running p))
      | InLock [] =>
          p' = Pool (pending p) (delete j (running p)) false (pool_sent p)
                    (downloaded_count p) (processed_count p) (raised p)
      end.
Proof.
  destruct c as [|j]; simpl.
  - unfold start_step. destruct (pending p) as [|t ts]; [done|].
    destruct (Nat.ltb_spec (length (running p)) N); [|done].
    intros [= <-]. left. by exists t, ts.
  - unfold task_step. destruct (running p !! j) as [t|] eqn:Hj; [|done].
    intros H. right. exists j, t. split; [done|]. split; [done|].
    destruct t as [[|m todo] [b|e]|[|a todo]]; try (by injection H as <-).
    destruct (lock_held p); [done|]. by injection H as <-.
Qed.

(** Every step uses up one unit of [pool_size]. *)
Lemma pool_step_size N c p p' :
  pool_step N c p = Some p' → S (pool_size p') = pool_size p.
Proof.
  intros H. apply pool_step_inv in H as [(t & ts & _ & Hp & _ & ->) | (j & t & _ & Hj & H)].
  - unfold pool_size. simpl. rewrite Hp.
    rewrite tasks_sum_app, !tasks_sum_cons.
    change (tasks_sum task_size []) with 0. lia.
  - unfold pool_size.
    destruct (tasks_sum_lookup task_size _ _ _ Hj) as (rest & Hs & Hi & Hd).
    destruct t as [[|m todo] [b|e]|[|a todo]].
    + destruct H as [_ ->]. simpl. rewrite Hi, Hs. simpl. lia.
    + subst p'. simpl. rewrite Hd, Hs. simpl. lia.
    + subst p'. destruct p; simpl in *. rewrite Hi, Hs. simpl. lia.
    + subst p'. destruct p; simpl in *. rewrite Hi, Hs. simpl. lia.
    + subst p'. simpl. rewrite Hd, Hs. simpl. lia.
    + subst p'. destruct p, a; simpl in *; rewrite Hi, Hs; simpl; lia.
Qed.

Lemma sum_list_app_nat (l1 l2 : list nat) :
  sum_list (l1 ++ l2) = sum_list l1 + sum_list l2.
Proof. induction l1 as [|x l1 IH]; simpl; lia. Qed.

Lemma count_msg_app m l1 l2 :
  count_msg m (l1 ++ l2) = count_msg m l1 + count_msg m l2.
Proof. unfold count_msg. by rewrite List.filter_app, length_app. Qed.

Lemma counts_done_put m :
  counts_done (fun p => Z.of_nat (count_msg m (pool_sent p))) (w_put m).
Proof.
  split.
  - intros [] p; simpl; try lia. rewrite count_msg_app. unfold count_msg at 2.
    simpl. destruct (msg_eqb m m0); simpl; lia.
  - by intros p p' -> _ _.
Qed.

Lemma counts_done_processed : counts_done processed_count w_processed.
Proof. split; [intros [] p; simpl; lia | done]. Qed.

Lemma counts_done_downloaded : counts_done downloaded_count w_downloaded.
Proof. split; [intros [] p; simpl; lia | done]. Qed.

Lemma todo_weight_put w m todo r :
  todo_weight w (Downloading (m :: todo) r)
  = w (CPut m) + todo_weight w (Downloading todo r).
Proof. by destruct r. Qed.

Lemma todo_weight_acquire w b :
  todo_weight w (Downloading [] (Ok b)) = todo_weight w (InLock (crit_block b)).
Proof. done. Qed.

Lemma todo_weight_raise w e : todo_weight w (Downloading [] (Raise e)) = 0.
Proof. done. Qed.

Lemma todo_weight_crit w a todo :
  todo_weight w (InLock (a :: todo)) = w a + todo_weight w (InLock todo).
Proof. done. Qed.

Lemma todo_weight_release w : todo_weight w (InLock []) = 0.
Proof. done. Qed.

(** A step moves work from "left" to "done": the total stays. *)
Lemma pool_step_total done w N c p p' :
  counts_done done w →
  pool_step N c p = Some p' → pool_total done w p' = pool_total done w p.
Proof.
  intros [Hdo Hframe] H. unfold pool_total.
  apply pool_step_inv in H as [(t & ts & _ & Hp & _ & ->) | (j & t & _ & Hj & H)].
  - simpl. rewrite Hp, !tasks_sum_app, !tasks_sum_cons.
    change (tasks_sum (todo_weight w) []) with 0.
    rewrite (Hframe _ p) by done. lia.
  - rewrite !tasks_sum_app.
    destruct (tasks_sum_lookup (todo_weight w) _ _ _ Hj) as (rest & Hs & Hi & Hd).
    rewrite Hs.
    destruct t as [[|m todo] [b|e]|[|a todo]].
    + destruct H as [_ ->]. cbn [pending running]. rewrite Hi, (Hframe _ p) by done.
      rewrite todo_weight_acquire. lia.
    + subst p'. cbn [pending running]. rewrite Hd, (Hframe _ p) by done.
      rewrite todo_weight_raise. lia.
    + subst p'. unfold with_running. cbn [pending running do_crit].
      rewrite Hi. rewrite (Hframe _ (do_crit (CPut m) p)) by done. rewrite Hdo.
      rewrite todo_weight_put. lia.
    + subst p'. unfold with_running. cbn [pending running do_crit].
      rewrite Hi. rewrite (Hframe _ (do_crit (CPut m) p)) by done. rewrite Hdo.
      rewrite todo_weight_put. lia.
    + subst p'. cbn [pending running]. rewrite Hd, (Hframe _ p) by done.
      rewrite todo_weight_release. lia.
    + subst p'. unfold with_running.
      assert (Hpend : pending (do_crit a p) = pending p) by (by destruct a).
      cbn [pending running]. rewrite Hpend, Hi.
      rewrite (Hframe _ (do_crit a p)) by done. rewrite Hdo.
      rewrite todo_weight_crit. lia.
Qed.

(** A step keeps the lock with a running task. *)
Lemma pool_step_lock_inv N c p p' :
  pool_step N c p = Some p' → lock_inv p → lock_inv p'.
Proof.
  intros H Hinv. unfold lock_inv in *.
  apply pool_step_inv in H as [(t & ts & _ & Hp & _ & ->) | (j & t & _ & Hj & H)].
  - simpl. intros Hl. apply Exists_app. left. auto.
  - pose proof (lookup_lt_Some _ _ _ Hj) as Hlt.
    pose proof (take_drop_middle _ _ _ Hj) as Hmid.
    assert (Hother : ¬ is_inlock t → lock_held p = true →
              Exists is_inlock (take j (running p) ++ drop (S j) (running p))).
    { intros Hn Hl. specialize (Hinv Hl). rewrite <- Hmid in Hinv.
      apply Exists_app in Hinv as [?|Hinv]; [apply Exists_app; by left|].
      apply Exists_cons in Hinv as [?|?]; [done|]. apply Exists_app; by right. }
    destruct t as [[|m todo] [b|e]|[|a todo]].
    + destruct H as [_ ->]. simpl. intros _.
      rewrite insert_take_drop by done. apply Exists_app. right. by left.
    + subst p'. simpl. intros Hl. rewrite delete_take_drop.
      apply Hother; [simpl; tauto | done].
    + subst p'. simpl. intros Hl. rewrite insert_take_drop by done.
      specialize (Hother ltac:(simpl; tauto) Hl).
      apply Exists_app in Hother as [?|?]; apply Exists_app; [by left|].
      right. by right.
    + subst p'. simpl. intros Hl. rewrite insert_take_drop by done.
      specialize (Hother ltac:(simpl; tauto) Hl).
      apply Exists_app in Hother as [?|?]; apply Exists_app; [by left|].
      right. by right.
    + subst p'. simpl. done.
    + subst p'. simpl. intros _.
      rewrite insert_take_drop by done. apply Exists_app. right. by left.
Qed.

(** With a worker to run them, tasks that are left can always go on. *)
Lemma pool_progress N p :
  0 < N → lock_inv p → pool_succs N p = [] → pending p = [] ∧ running p = [].
Proof.
  intros HN Hinv Hnone. unfold pool_succs in Hnone.
  assert (Hno : ∀ c, c ≤ length (running p) → pool_step N c p = None).
  { intros c Hc. destruct (pool_step N c p) as [p'|] eqn:Hstep; [|done].
    exfalso. assert (Hin : p' ∈ omap (λ c, pool_step N c p) (seq 0 (S (length (running p))))).
    { apply list_elem_of_omap. exists c. split; [|done]. apply elem_of_seq. lia. }
    rewrite Hnone in Hin. by apply not_elem_of_nil in Hin. }
  assert (Hrun : running p = []).
  { destruct (running p) as [|t0 r] eqn:Hr; [done|]. exfalso.
    destruct (lock_held p) eqn:Hl.
    - specialize (Hinv Hl). rewrite Hr in Hinv.
      apply Exists_exists in Hinv as (t & Hin & Ht).
      apply list_elem_of_lookup in Hin as (j & Hj).
      pose proof (lookup_lt_Some _ _ _ Hj) as Hlt.
      specialize (Hno (S j) ltac:(simpl in *; lia)). simpl in Hno.
      unfold task_step in Hno. rewrite Hr, Hj in Hno.
      destruct t as [|[|a todo]]; done.
    - specialize (Hno 1 ltac:(simpl; lia)). simpl in Hno.
      unfold task_step in Hno. rewrite Hr in Hno. simpl in Hno. rewrite Hl in Hno.
      destruct t0 as [[|m todo] [b|e]|[|a todo]]; done. }
  split; [|done].
  destruct (pending p) as [|t ts] eqn:Hp; [done|]. exfalso.
  specialize (Hno 0 ltac:(lia)). simpl in Hno. unfold start_step in Hno.
  rewrite Hp, Hrun in Hno. simpl in Hno.
  destruct (Nat.ltb_spec 0 N); [done|lia].
Qed.

(** What every step keeps, the run keeps. *)
Lemma pool_run_invariant (I : pool -> Prop) N sched fuel k p :
  (∀ c q q', I q → pool_step N c q = Some q' → I q') →
  I p → I (pool_run N sched fuel k p).
Proof.
  intros Hstep. revert k p.
  induction fuel as [|fuel IH]; intros k p Hp; cbn [pool_run]; [done|].
  destruct (pool_succs N p) as [|p0 ps] eqn:Hs; [done|].
  apply IH.
  assert (Hin : nth (sched k mod length (p0 :: ps)) (p0 :: ps) p0 ∈ pool_succs N p).
  { rewrite Hs. apply list_elem_of_In, nth_In. apply Nat.mod_upper_bound. done. }
  unfold pool_succs in Hin. apply list_elem_of_omap in Hin as (c & _ & Hc).
  by eapply Hstep.
Qed.

(** With as much fuel as the pool has steps left, the run ends where no
    step is left. *)
Lemma pool_run_ends N sched fuel k p :
  pool_size p ≤ fuel → pool_succs N (pool_run N sched fuel k p) = [].
Proof.
  revert k p. induction fuel as [|fuel IH]; intros k p Hsize; cbn [pool_run].
  - destruct (pool_succs N p) as [|p0 ps] eqn:Hs; [done|]. exfalso.
    assert (Hin : p0 ∈ pool_succs N p) by (rewrite Hs; by left).
    unfold pool_succs in Hin. apply list_elem_of_omap in Hin as (c & _ & Hc).
    apply pool_step_size in Hc. lia.
  - destruct (pool_succs N p) as [|p0 ps] eqn:Hs; [done|].
    apply IH.
    assert (Hin : nth (sched k mod length (p0 :: ps)) (p0 :: ps) p0 ∈ pool_succs N p).
    { rewrite Hs. apply list_elem_of_In, nth_In. apply Nat.mod_upper_bound. done. }
    unfold pool_succs in Hin. apply list_elem_of_omap in Hin as (c & _ & Hc).
    apply pool_step_size in Hc. lia.
Qed.

(** The pool, run from its start with at least one worker and under any
    scheduler, finishes every task, and what it has done by then is what
    the tasks had to do. *)
Lemma pool_run_complete N sched tasks :
  0 < N →
  let p := pool_run N sched (pool_size (pool_init tasks)) 0 (pool_init tasks) in
  pending p = [] ∧ running p = []
  ∧ ∀ done w, counts_done done w →
      done p = (done (pool_init tasks)
                + Z.of_nat (tasks_sum (todo_weight w) tasks))%Z.
Proof.
  intros HN p.
  assert (Hlock : lock_inv p).
  { apply pool_run_invariant; [|done].
    intros c q q' Hq Hc. by eapply pool_step_lock_inv. }
  pose proof (pool_run_ends N sched _ 0 (pool_init tasks) (le_n _)) as Hend.
  destruct (pool_progress N p HN Hlock Hend) as [Hp Hr].
  split; [done|]. split; [done|].
  intros done w Hdw.
  assert (Htot : pool_total done w p = pool_total done w (pool_init tasks)).
  { apply (pool_run_invariant
             (fun q => pool_total done w q = pool_total done w (pool_init tasks)));
      [|done].
    intros c q q' Hq Hc. rewrite <- Hq. by eapply pool_step_total. }
  unfold pool_total in Htot. rewrite Hp, Hr in Htot. simpl in Htot.
  rewrite app_nil_r in Htot. change (tasks_sum (todo_weight w) []) with 0 in Htot. lia.
Qed.

(* ===================================================================== *)
(** * The worker threads of the concurrent process                        *)
(* ===================================================================== *)

Lemma count_msg_progress m l :
  Forall is_progress l → count_msg m l = 0.
Proof.
  unfold count_msg. induction 1 as [|x l Hx _ IH]; simpl; [done|].
  destruct m, x; simpl in *; done.
Qed.

Lemma count_msg_thread_end l :
  count_msg THREAD_END l = 0 ↔ Forall not_thread_end l.
Proof.
  unfold count_msg, not_thread_end. induction l as [|x l IH]; simpl.
  - split; [constructor|done].
  - destruct x; simpl; rewrite ?Forall_cons; split; try tauto; try lia;
      try (intros [? ?]; done); intros H; split; try done; by apply IH.
Qed.

(** The retry loop of a worker thread catches whatever a download raises. *)
Lemma conc_attempts_returns W rng opts u t s :
  ∃ b, (conc_attempts W rng opts u t s).1 = Ok b.
Proof.
  revert s. induction rng as [|attempt rng IH]; intros s; simpl; [by exists false|].
  unfold_M. destruct (ydl_run W opts u s) as [[[]|e] s1].
  - destruct (1 <? attempt); simpl; by exists true.
  - unfold put, time_sleep. unfold_M.
    destruct (attempt =? 3); simpl; apply IH.
Qed.

(** A submitted task puts progress messages and then asks for the lock. *)
Lemma download_video_task W opts paths video :
  ∃ evs b, download_video W opts paths video = Downloading evs (Ok b)
           ∧ Forall is_progress evs.
Proof.
  unfold download_video, download_video_attempts.
  set (m := conc_attempts W _ _ _ _).
  destruct (conc_attempts_returns W (seq 1 3) opts (video_url_of video)
              (py_str (get_default (yt_title video) "Unknown")) (wstate_init paths))
    as (b & Hb).
  destruct (emits_conc_attempts W (seq 1 3) opts (video_url_of video)
              (py_str (get_default (yt_title video) "Unknown")) (wstate_init paths))
    as (evs & Hevs & HP & _).
  fold m in Hb, Hevs. destruct (m (wstate_init paths)) as [r s]. simpl in *.
  subst r. exists evs, b. by rewrite Hevs.
Qed.

Lemma sum_list_w_put_progress m (evs : list msg) :
  sum_list (w_put m <$> (CPut <$> evs)) = count_msg m evs.
Proof.
  induction evs as [|x evs IH]; [done|].
  change (sum_list (w_put m <$> (CPut <$> (x :: evs))))
    with (w_put m (CPut x) + sum_list (w_put m <$> (CPut <$> evs))).
  rewrite IH. unfold count_msg. simpl. by destruct (msg_eqb m x).
Qed.

Lemma sum_list_w_inc (w : crit_action -> nat) (evs : list msg) :
  (∀ m, w (CPut m) = 0) → sum_list (w <$> (CPut <$> evs)) = 0.
Proof.
  intros Hw. induction evs as [|x evs IH]; [done|].
  change (sum_list (w <$> (CPut <$> (x :: evs))))
    with (w (CPut x) + sum_list (w <$> (CPut <$> evs))).
  by rewrite Hw, IH.
Qed.

Lemma todo_weight_downloading w evs b :
  todo_weight w (Downloading evs (Ok b))
  = sum_list (w <$> (CPut <$> evs)) + sum_list (w <$> crit_block b).
Proof. unfold todo_weight. simpl task_todo. by rewrite fmap_app, sum_list_app_nat. Qed.

(** The work the tasks of a job bring to the pool: one increment of
    [processed_count] and one PROCESSED message per entry, and no final
    message. *)
Lemma futures_weights TW opts paths (videos : list ytdict) k :
  let futures := imap (fun i video => download_video (TW (k + i)) opts paths video)
                      videos in
  tasks_sum (todo_weight w_processed) futures = length videos
  ∧ tasks_sum (todo_weight (w_put PROCESSED_PROGRESS)) futures = length videos
  ∧ tasks_sum (todo_weight (w_put THREAD_END)) futures = 0
  ∧ tasks_sum (todo_weight w_downloaded) futures
    = tasks_sum (todo_weight (w_put DOWNLOADED_PROGRESS)) futures
  ∧ tasks_sum (todo_weight w_downloaded) futures ≤ length videos.
Proof.
  revert k. induction videos as [|v vs IH]; intros k; simpl.
  - unfold tasks_sum. simpl. lia.
  - destruct (download_video_task (TW (k + 0)) opts paths v) as (evs & b & -> & Hevs).
    rewrite !tasks_sum_cons.
    assert (Hext : imap ((λ i video, download_video (TW (k + i)) opts paths video) ∘ S) vs
                   = imap (λ i video, download_video (TW (S k + i)) opts paths video) vs).
    { apply imap_ext. intros i x _. simpl. by rewrite Nat.add_succ_r. }
    rewrite Hext. destruct (IH (S k)) as (H1 & H2 & H3 & H4 & H5).
    rewrite H1, H2, H3.
    rewrite !todo_weight_downloading.
    rewrite !sum_list_w_put_progress, !sum_list_w_inc by done.
    rewrite !count_msg_progress by done.
    assert (Hp : sum_list (w_processed <$> crit_block b) = 1) by (by destruct b).
    assert (Hq : sum_list (w_put PROCESSED_PROGRESS <$> crit_block b) = 1)
      by (by destruct b).
    assert (Ht : sum_list (w_put THREAD_END <$> crit_block b) = 0) by (by destruct b).
    assert (Hd : sum_list (w_downloaded <$> crit_block b)
                 = sum_list (w_put DOWNLOADED_PROGRESS <$> crit_block b)
                 ∧ sum_list (w_downloaded <$> crit_block b) ≤ 1).
    { destruct b; vm_compute; lia. }
    rewrite Hp, Hq, Ht. cbn [length]. lia.
Qed.

(* ===================================================================== *)
(** * The final message                                                   *)
(* ===================================================================== *)

(** Both processes wrap their [try] block the same way. *)
Lemma job_wrapper (body : M wstate (option (Z * Z))) s :
  emits not_thread_end body →
  ∃ r evs s',
    try_finally
      (try_except body (fun e => put (STATUS ("Error: " +:+ exn_str e));; ret None))
      (put THREAD_END) s = (Ok r, s')
    ∧ sent s' = sent s ++ evs ++ [THREAD_END]
    ∧ Forall not_thread_end evs
    ∧ fs s ⊆ fs s'.
Proof.
  intros Hbody. unfold try_finally, try_except.
  destruct (Hbody s) as (evs & Hevs & HP & Hfs).
  destruct (body s) as [[r|e] s1]; simpl in *.
  - eexists r, evs, _. split; [reflexivity|]. simpl. rewrite Hevs, app_assoc. done.
  - unfold put. unfold_M. simpl.
    eexists None, (evs ++ [STATUS ("Error: " +:+ exn_str e)]), _.
    split; [reflexivity|]. simpl. rewrite Hevs, <- !app_assoc. split; [done|].
    split; [|done]. apply Forall_app. split; [done|]. by repeat constructor.
Qed.

Lemma emits_download_process_concurrent_try W TW sched info fmt N base :
  emits not_thread_end (download_process_concurrent_try W TW sched info fmt N base).
Proof.
  unfold download_process_concurrent_try.
  apply emits_mbind; [auto with emits|]. intros _.
  apply emits_ite; [repeat emits_step|].
  apply emits_mbind; [auto with emits|]. intros folder.
  apply emits_mbind; [auto with emits|]. intros ffmpeg.
  destruct (Z.leb_spec N 0) as [|HN]; [auto with emits|].
  apply emits_mbind; [auto with emits|]. intros paths.
  set (futures := imap _ _).
  set (p := pool_run _ _ _ _ _).
  assert (Hp : Forall not_thread_end (pool_sent p)).
  { apply count_msg_thread_end.
    destruct (pool_run_complete (Z.to_nat N) sched futures ltac:(lia)) as (_ & _ & Hdone).
    specialize (Hdone _ _ (counts_done_put THREAD_END)). fold p in Hdone.
    destruct (futures_weights TW (make_opts ffmpeg folder fmt) paths (entries info) 0)
      as (_ & _ & H3 & _).
    simpl in H3. fold futures in H3. rewrite H3 in Hdone. simpl in Hdone.
    unfold count_msg in *. simpl in Hdone. lia. }
  apply emits_mbind.
  { intros s. exists (pool_sent p). simpl. done. }
  intros _. destruct (raised p); repeat emits_step.
Qed.

(** C1 (amended): a download process that main does not terminate puts
    exactly one THREAD_END, and puts it last, however it ends (all items
    done, no items, an internal error, or a cancellation the process sees
    itself); this holds for the sequential and for the concurrent process
    and for every behaviour of the world. A process that main terminates
    before the end of its run has put no THREAD_END: the Cancel handler
    sets the cancellation event, terminates the process, and does what the
    THREAD_END handler would have done itself; after it there is no
    current download and no session, both counters are 0, and the queue is
    as it was. *)
Theorem thread_end_once_and_last W TW sched info fmt N base s vals g :
  (∃ r evs s',
     download_process W info fmt base s = (Ok r, s')
     ∧ sent s' = sent s ++ evs ++ [THREAD_END]
     ∧ count_msg THREAD_END (evs ++ [THREAD_END]) = 1
     ∧ ∀ k, k ≤ length evs →
            count_msg THREAD_END (terminated_after k (evs ++ [THREAD_END])) = 0)
  ∧ (∃ r evs s',
     download_process_concurrent W TW sched info fmt N base s = (Ok r, s')
     ∧ sent s' = sent s ++ evs ++ [THREAD_END]
     ∧ count_msg THREAD_END (evs ++ [THREAD_END]) = 1
     ∧ ∀ k, k ≤ length evs →
            count_msg THREAD_END (terminated_after k (evs ++ [THREAD_END])) = 0)
  ∧ (let g' := (handle CANCEL vals g).2 in
     (handle CANCEL vals g).1 = Ok true
     ∧ cancel_event g' = true
     ∧ current_download g' = None ∧ session_active g' = false
     ∧ processed_files g' = 0%Z ∧ downloaded_files g' = 0%Z
     ∧ download_queue g' = download_queue g
     ∧ ∀ p, download_proc g = Some p →
         ∃ p', download_proc g' = Some p'
           ∧ proc_terminated p' = true
           ∧ proc_max_workers p' = proc_max_workers p
           ∧ proc_info p' = proc_info p
           ∧ ∀ paths k,
               k < length (sent (proc_run W TW sched paths p).2) →
               count_msg THREAD_END (proc_messages W TW sched paths k p') = 0).
Proof.
  assert (Hcount : ∀ evs, Forall not_thread_end evs →
            count_msg THREAD_END (evs ++ [THREAD_END]) = 1
            ∧ ∀ k, k ≤ length evs →
                count_msg THREAD_END (terminated_after k (evs ++ [THREAD_END])) = 0).
  { intros evs Hevs. split.
    - rewrite count_msg_app. apply count_msg_thread_end in Hevs. rewrite Hevs. done.
    - intros k Hk. unfold terminated_after. rewrite take_app_le by done.
      apply count_msg_thread_end. by apply Forall_take. }
  split; [|split].
  - destruct (job_wrapper (download_process_try W info fmt base) s
                (emits_download_process_try W info fmt base))
      as (r & evs & s' & Hrun & Hsent & Hevs & _).
    exists r, evs, s'. destruct (Hcount evs Hevs). done.
  - destruct (job_wrapper (download_process_concurrent_try W TW sched info fmt N base) s
                (emits_download_process_concurrent_try W TW sched info fmt N base))
      as (r & evs & s' & Hrun & Hsent & Hevs & _).
    exists r, evs, s'. destruct (Hcount evs Hevs). done.
  - cbv zeta. unfold handle, set_status, update_counters. unfold_M. simpl.
    split; [done|]. split; [done|]. split; [done|]. split; [done|].
    split; [done|]. split; [done|]. split; [done|].
    intros p ->. simpl. eexists. split; [reflexivity|]. simpl.
    split; [done|]. split; [done|]. split; [done|].
    intros paths k Hk. unfold proc_messages, proc_run in *. simpl.
    destruct (proc_max_workers p) as [n|].
    + destruct (job_wrapper
                  (download_process_concurrent_try W TW sched (proc_info p)
                     (proc_format p) n (proc_base_folder p)) (wstate_init paths)
                  (emits_download_process_concurrent_try W TW sched (proc_info p)
                     (proc_format p) n (proc_base_folder p)))
        as (r & evs & s' & Hrun & Hsent & Hevs & _).
      unfold download_process_concurrent in *. rewrite Hrun in Hk |- *.
      simpl in Hsent, Hk |- *. rewrite Hsent in Hk |- *.
      apply (Hcount evs Hevs). rewrite length_app in Hk. simpl in Hk. lia.
    + destruct (job_wrapper
                  (download_process_try W (proc_info p) (proc_format p)
                     (proc_base_folder p)) (wstate_init paths)
                  (emits_download_process_try W (proc_info p) (proc_format p)
                     (proc_base_folder p)))
        as (r & evs & s' & Hrun & Hsent & Hevs & _).
      unfold download_process in *. rewrite Hrun in Hk |- *.
      simpl in Hsent, Hk |- *. rewrite Hsent in Hk |- *.
      apply (Hcount evs Hevs). rewrite length_app in Hk. simpl in Hk. lia.
Qed.

(* ===================================================================== *)
(** * The sequential process without cancellation                         *)
(* ===================================================================== *)

Lemma bind_ok {S A B} (m : M S A) (k : A -> M S B) s a s1 :
  m s = (Ok a, s1) → (m ≫= k) s = k a s1.
Proof. intros H. unfold mbind, M_bind, bind. by rewrite H. Qed.

Lemma bind_raise {S A B} (m : M S A) (k : A -> M S B) s e s1 :
  m s = (Raise e, s1) → (m ≫= k) s = (Raise e, s1).
Proof. intros H. unfold mbind, M_bind, bind. by rewrite H. Qed.

Lemma progress_hook_downloads W d last s :
  downloads (progress_hook W d last s).2 = downloads s.
Proof.
  unfold progress_hook, is_set, time_monotonic, put, lift. unfold_M. simpl.
  destruct (cancel_is_set W (is_set_calls s)); simpl; [done|].
  repeat case_decide; simpl; try done.
  destruct (SFltb _ _); simpl; [done|].
  destruct (file_progress d); simpl; done.
Qed.

Lemma feed_hook_downloads W ds last s :
  downloads (feed_hook W ds last s).2 = downloads s.
Proof.
  revert last s. induction ds as [|d ds IH]; intros last s; simpl; [done|].
  unfold_M. pose proof (progress_hook_downloads W d last s) as H.
  destruct (progress_hook W d last s) as [[last'|e] s1]; simpl in *; [|done].
  by rewrite IH.
Qed.

(** Every run of yt-dlp counts, and one that yt-dlp ends with an exception
    raises. *)
Lemma ydl_run_downloads W opts u s :
  downloads (ydl_run W opts u s).2 = S (downloads s)
  ∧ ∀ e, (ydl_download W opts u (downloads s)).2 = Raise e →
         ∃ e', (ydl_run W opts u s).1 = Raise e'.
Proof.
  unfold ydl_run. unfold_M. simpl.
  destruct (ydl_download W opts u (downloads s)) as [ds outcome]. simpl.
  set (s1 := WState _ _ _ _ _ _).
  pose proof (feed_hook_downloads W ds (S754_zero false) s1) as H.
  destruct (feed_hook W ds (S754_zero false) s1) as [[[]|e0] s2]; simpl in *.
  - unfold lift. simpl. split; [done|]. intros e ->. by exists e.
  - split; [done|]. intros e _. by exists e0.
Qed.

Section NoCancel.
Variable W : world.
Hypothesis Hnc : never_cancelled W.

(** The retry loop returns; it returns [False] when all its downloads
    fail. *)
Lemma seq_attempts_returns rng opts u t s :
  ∃ b, (seq_attempts W rng opts u t s).1 = Ok b
       ∧ ((∀ j, j < length rng →
                ∃ e, (ydl_download W opts u (downloads s + j)).2 = Raise e) →
          b = false).
Proof.
  revert s. induction rng as [|attempt rng IH]; intros s; simpl.
  { exists false. done. }
  unfold_M. unfold is_set at 1. rewrite Hnc.
  set (s0 := WState (sent s) (fs s) (S (is_set_calls s)) _ _ _).
  set (pre := if 1 <? attempt then _ else _).
  assert (Hpre : ∃ s1, pre s0 = (Ok tt, s1) ∧ downloads s1 = downloads s).
  { unfold pre. destruct (1 <? attempt); eexists; split; reflexivity. }
  destruct Hpre as (s1 & -> & Hd1).
  destruct (ydl_run_downloads W opts u s1) as [Hd2 Hfail].
  destruct (ydl_run W opts u s1) as [[[]|e] s2] eqn:Hrun; simpl in *.
  - set (post := if 1 <? attempt then _ else _).
    assert (Hpost : ∃ s3, post s2 = (Ok tt, s3)).
    { unfold post. destruct (1 <? attempt); eexists; reflexivity. }
    destruct Hpost as (s3 & ->). exists true. split; [done|].
    intros Hall. destruct (Hall 0 ltac:(lia)) as (e & He).
    rewrite Nat.add_0_r, <- Hd1 in He. destruct (Hfail e He) as (e' & [=]).
  - set (post := if attempt =? 3 then _ else _).
    assert (Hpost : ∃ s3, post s2 = (Ok tt, s3) ∧ downloads s3 = downloads s2).
    { unfold post. destruct (attempt =? 3); eexists; split; reflexivity. }
    destruct Hpost as (s3 & -> & Hd3).
    destruct (IH s3) as (b & Hb & Hfalse). exists b. split; [done|].
    intros Hall. apply Hfalse. intros j Hj.
    destruct (Hall (S j) ltac:(lia)) as (e0 & He0). exists e0.
    rewrite <- He0. replace (downloads s3 + j) with (downloads s + S j) by lia. done.
Qed.

(** One entry, with ffmpeg in place: the loop body returns, has counted
    the entry as processed and put PROCESSED once, and has counted it as
    downloaded and put DOWNLOADED exactly when the retry loop succeeded,
    which it does not when the three downloads fail. *)
Lemma seq_video_spec folder fmt video counts s :
  ffmpeg_path W ∈ fs s →
  ∃ (b : bool) evs s',
    seq_video W folder fmt video counts s
    = (Ok ((counts.1 + (if b then 1 else 0))%Z, (counts.2 + 1)%Z), s')
    ∧ sent s' = sent s ++ evs
    ∧ count_msg PROCESSED_PROGRESS evs = 1
    ∧ count_msg DOWNLOADED_PROGRESS evs = (if b then 1 else 0)
    ∧ fs s ⊆ fs s'
    ∧ ((∀ j, j < 3 →
             ∃ e, (ydl_download W (make_opts (ffmpeg_path W) folder fmt)
                                (video_url_of video) (downloads s + j)).2 = Raise e) →
       b = false).
Proof.
  intros Hff. unfold seq_video.
  set (t := py_str _).
  set (s0 := WState (sent s) (fs s) (S (is_set_calls s)) (clock_reads s)
                    (downloads s) (slept s)).
  set (s1 := WState (sent s ++ [STATUS ("Downloading:  '" +:+ t +:+ "'")]) (fs s)
                    (S (is_set_calls s)) (clock_reads s) (downloads s) (slept s)).
  set (opts := make_opts (ffmpeg_path W) folder fmt).
  destruct (seq_attempts_returns (seq 1 3) opts (video_url_of video) t s1)
    as (b & Hb & Hfalse).
  destruct (emits_seq_attempts W (seq 1 3) opts (video_url_of video) t s1)
    as (evs & Hevs & HP & Hfs).
  destruct (seq_attempts W (seq 1 3) opts (video_url_of video) t s1) as [r s2] eqn:Hrun.
  simpl in Hb, Hevs, Hfs. subst r.
  assert (H0 : is_set W s = (Ok false, s0)).
  { unfold is_set. by rewrite Hnc. }
  assert (H1 : get_ffmpeg_path W s1 = (Ok (ffmpeg_path W), s1)).
  { unfold get_ffmpeg_path. unfold_M. by rewrite path_exists_elem_of. }
  rewrite (bind_ok _ _ _ _ _ H0).
  rewrite (bind_ok (put _) _ s0 tt s1 eq_refl).
  rewrite (bind_ok _ _ _ _ _ H1).
  fold opts. rewrite (bind_ok _ _ _ _ _ Hrun).
  exists b,
    ([STATUS ("Downloading:  '" +:+ t +:+ "'")] ++ evs ++ [PROCESSED_PROGRESS]
     ++ if b then [DOWNLOADED_PROGRESS] else []).
  rewrite !count_msg_app, !(count_msg_progress _ evs) by done.
  destruct b; eexists; (split; [unfold put; unfold_M; cbn [fst snd]; do 2 f_equal; f_equal; lia|]);
    cbn [sent fs]; rewrite Hevs; cbn [sent]; rewrite <- !app_assoc;
    (split; [done|]); (split; [done|]); (split; [done|]); (split; [done|]); done.
Qed.

(** All the entries: every one is counted and reported as processed
    once, and the loop ends normally. *)
Lemma seq_videos_spec folder fmt videos counts s :
  ffmpeg_path W ∈ fs s →
  ∃ (ok : nat) evs s',
    seq_videos W folder fmt videos counts s
    = (Ok ((counts.1 + Z.of_nat ok)%Z, (counts.2 + Z.of_nat (length videos))%Z), s')
    ∧ sent s' = sent s ++ evs
    ∧ count_msg PROCESSED_PROGRESS evs = length videos
    ∧ count_msg DOWNLOADED_PROGRESS evs = ok
    ∧ ok ≤ length videos
    ∧ fs s ⊆ fs s'
    ∧ ((∀ opts u k, ∃ e, (ydl_download W opts u k).2 = Raise e) → ok = 0).
Proof.
  revert counts s. induction videos as [|v vs IH]; intros counts s Hff; simpl.
  - exists 0, [], s. unfold_M. rewrite app_nil_r.
    split; [|done]. destruct counts. simpl. do 2 f_equal. f_equal; lia.
  - destruct (seq_video_spec folder fmt v counts s Hff)
      as (b & evs & s1 & Hrun & Hsent & Hp & Hd & Hfs & Hfail).
    rewrite (bind_ok _ _ _ _ _ Hrun).
    destruct (IH ((counts.1 + (if b then 1 else 0))%Z, (counts.2 + 1)%Z) s1
                ltac:(set_solver))
      as (ok & evs' & s' & Hrun' & Hsent' & Hp' & Hd' & Hok & Hfs' & Hfail').
    exists ((if b then 1 else 0) + ok), (evs ++ evs'), s'.
    split.
    { rewrite Hrun'. simpl. do 2 f_equal. f_equal; destruct b; lia. }
    rewrite Hsent', Hsent, app_assoc, !count_msg_app, Hp, Hp', Hd, Hd'.
    split; [done|]. split; [done|]. split; [done|].
    split; [destruct b; lia|]. split; [set_solver|].
    intros Hall. rewrite (Hfail' Hall), (Hfail (fun j _ => Hall _ _ _)). done.
Qed.
End NoCancel.

(* ===================================================================== *)
(** * A process that reaches the end of its [try] block                   *)
(* ===================================================================== *)

(** Whatever the world does, an entry whose loop body returns has been
    counted and reported as processed once; one whose loop body raises has
    not been reported. *)
Lemma seq_video_processed W folder fmt video counts s :
  ∃ evs, sent (seq_video W folder fmt video counts s).2 = sent s ++ evs
    ∧ match (seq_video W folder fmt video counts s).1 with
      | Ok c => c.2 = (counts.2 + 1)%Z ∧ count_msg PROCESSED_PROGRESS evs = 1
      | Raise _ => count_msg PROCESSED_PROGRESS evs = 0
      end.
Proof.
  unfold seq_video.
  set (t := py_str _).
  destruct (is_set W s) as [[c|e] s0] eqn:H0; [|by injection H0].
  assert (Hs0 : sent s0 = sent s) by (injection H0 as _ <-; done).
  rewrite (bind_ok _ _ _ _ _ H0).
  destruct c.
  { exists []. simpl. by rewrite app_nil_r. }
  set (s1 := WState (sent s0 ++ [STATUS ("Downloading:  '" +:+ t +:+ "'")]) (fs s0)
                    (is_set_calls s0) (clock_reads s0) (downloads s0) (slept s0)).
  rewrite (bind_ok (put _) _ s0 tt s1 eq_refl).
  destruct (get_ffmpeg_path W s1) as [[ffmpeg|e] s1'] eqn:H1.
  2:{ rewrite (bind_raise _ _ _ _ _ H1). cbn [fst snd].
      exists [STATUS ("Downloading:  '" +:+ t +:+ "'")].
      unfold get_ffmpeg_path in H1. unfold_M. destruct (path_exists _ _); [done|].
      injection H1 as _ <-. simpl. by rewrite Hs0. }
  assert (s1' = s1) as ->.
  { unfold get_ffmpeg_path in H1. unfold_M. destruct (path_exists _ _); [|done].
    by injection H1 as _ <-. }
  rewrite (bind_ok _ _ _ _ _ H1).
  set (opts := make_opts ffmpeg folder fmt).
  destruct (emits_seq_attempts W (seq 1 3) opts (video_url_of video) t s1)
    as (evs & Hevs & HP & _).
  destruct (seq_attempts W (seq 1 3) opts (video_url_of video) t s1) as [[b|e] s2] eqn:Hrun.
  2:{ rewrite (bind_raise _ _ _ _ _ Hrun). cbn [fst snd] in *.
      exists ([STATUS ("Downloading:  '" +:+ t +:+ "'")] ++ evs).
      rewrite Hevs. unfold s1. cbn [sent]. rewrite Hs0, <- app_assoc. split; [done|].
      rewrite count_msg_app, (count_msg_progress _ evs) by done. done. }
  rewrite (bind_ok _ _ _ _ _ Hrun). cbn [fst snd] in *.
  exists ([STATUS ("Downloading:  '" +:+ t +:+ "'")] ++ evs ++ [PROCESSED_PROGRESS]
          ++ if b then [DOWNLOADED_PROGRESS] else []).
  rewrite !count_msg_app, !(count_msg_progress _ evs) by done.
  destruct b; unfold put; unfold_M; cbn [fst snd sent]; rewrite Hevs; unfold s1;
    cbn [sent]; rewrite Hs0, <- !app_assoc; done.
Qed.

Lemma seq_videos_processed W folder fmt videos counts s :
  ∃ evs, sent (seq_videos W folder fmt videos counts s).2 = sent s ++ evs
    ∧ ∀ c, (seq_videos W folder fmt videos counts s).1 = Ok c →
        c.2 = (counts.2 + Z.of_nat (length videos))%Z
        ∧ count_msg PROCESSED_PROGRESS evs = length videos.
Proof.
  revert counts s. induction videos as [|v vs IH]; intros counts s; simpl.
  - exists []. unfold_M. simpl. rewrite app_nil_r. split; [done|].
    intros c [= <-]. split; [lia|done].
  - destruct (seq_video_processed W folder fmt v counts s) as (evs & Hevs & Hres).
    destruct (seq_video W folder fmt v counts s) as [[c1|e] s1] eqn:Hrun.
    + rewrite (bind_ok _ _ _ _ _ Hrun). cbn [fst snd] in *.
      destruct (IH c1 s1) as (evs' & Hevs' & Hres').
      exists (evs ++ evs'). rewrite Hevs', Hevs, app_assoc. split; [done|].
      intros c Hc. destruct (Hres' c Hc) as [-> Hn]. destruct Hres as [-> H1].
      rewrite count_msg_app, H1, Hn. split; lia.
    + rewrite (bind_raise _ _ _ _ _ Hrun). cbn [fst snd] in *.
      exists evs. split; [done|]. intros c [=].
Qed.

Lemma emits_nothing {A} (m : M wstate A) s :
  emits (fun _ => False) m → sent (m s).2 = sent s.
Proof.
  intros Hm. destruct (Hm s) as (evs & -> & HF & _).
  destruct evs as [|x evs]; [by rewrite app_nil_r|].
  by apply Forall_cons in HF as [[] _].
Qed.

(** The sequential [try] block, when it returns counters, has counted and
    reported every entry once. *)
Lemma download_process_try_processed W info fmt base s :
  ∃ evs, sent (download_process_try W info fmt base s).2 = sent s ++ evs
    ∧ ∀ d p, (download_process_try W info fmt base s).1 = Ok (Some (d, p)) →
        p = Z.of_nat (length (entries info))
        ∧ count_msg PROCESSED_PROGRESS evs = length (entries info).
Proof.
  unfold download_process_try.
  set (s0 := WState (sent s ++ [STATUS "Starting downloads"]) (fs s) (is_set_calls s)
                    (clock_reads s) (downloads s) (slept s)).
  rewrite (bind_ok (put _) _ s tt s0 eq_refl).
  destruct (length (entries info) =? 0) eqn:Hn.
  { eexists [_; _]. split; [unfold put; unfold_M; simpl; by rewrite <- app_assoc|].
    intros d p [=]. }
  pose proof (emits_nothing (create_playlist_folder W base info) s0
                (emits_create_playlist_folder _ W base info)) as Hc.
  destruct (create_playlist_folder W base info s0) as [[folder|e] s1] eqn:Hrun.
  2:{ rewrite (bind_raise _ _ _ _ _ Hrun). cbn [fst snd] in *.
      exists [STATUS "Starting downloads"]. split; [by rewrite Hc|]. intros d p [=]. }
  rewrite (bind_ok _ _ _ _ _ Hrun). cbn [fst snd] in *.
  destruct (seq_videos_processed W folder fmt (entries info) (0, 0)%Z s1)
    as (evs & Hevs & Hres).
  destruct (seq_videos W folder fmt (entries info) (0, 0)%Z s1) as [[c|e] s2] eqn:Hvs.
  2:{ rewrite (bind_raise _ _ _ _ _ Hvs). cbn [fst snd] in *.
      exists ([STATUS "Starting downloads"] ++ evs).
      rewrite Hevs, Hc. unfold s0. cbn [sent]. rewrite <- app_assoc.
      split; [done|]. intros d p [=]. }
  rewrite (bind_ok _ _ _ _ _ Hvs). cbn [fst snd] in *.
  exists ([STATUS "Starting downloads"] ++ evs
          ++ [STATUS "Completed!"; QUEUE_COMPLETE info]).
  unfold put. unfold_M. cbn [fst snd sent]. rewrite Hevs, Hc. unfold s0. cbn [sent].
  rewrite <- !app_assoc. split; [done|].
  intros d p [= ->]. destruct (Hres _ eq_refl) as [Hp Hcount]. simpl in Hp.
  rewrite !count_msg_app, Hcount. split; [lia|]. done.
Qed.

(** When the wrapped process returns counters, its [try] block returned
    them, and its last message is THREAD_END. *)
Lemma job_wrapper_some (body : M wstate (option (Z * Z))) s c s' :
  try_finally
    (try_except body (fun e => put (STATUS ("Error: " +:+ exn_str e));; ret None))
    (put THREAD_END) s = (Ok (Some c), s') →
  ∃ s1, body s = (Ok (Some c), s1) ∧ sent s' = sent s1 ++ [THREAD_END].
Proof.
  unfold try_finally, try_except.
  destruct (body s) as [[r|e] s1]; unfold put; unfold_M; simpl.
  - intros [= -> <-]. by exists s1.
  - intros [=].
Qed.

Lemma job_wrapper_ok (body : M wstate (option (Z * Z))) s r s1 :
  body s = (Ok r, s1) →
  ∃ s', try_finally
          (try_except body (fun e => put (STATUS ("Error: " +:+ exn_str e));; ret None))
          (put THREAD_END) s = (Ok r, s')
        ∧ sent s' = sent s1 ++ [THREAD_END] ∧ fs s' = fs s1.
Proof.
  intros H. unfold try_finally, try_except. rewrite H. simpl.
  eexists. split; [reflexivity|]. done.
Qed.

(** With no cancellation, ffmpeg in place and a folder that can be made,
    the sequential [try] block runs to its end. *)
Lemma download_process_try_completes W info fmt base s :
  never_cancelled W →
  ffmpeg_path W ∈ fs s →
  makedirs_error W (unique_folder (fs s) (path_join base (title info))) = None →
  entries info ≠ [] →
  ∃ (ok : nat) evs s',
    download_process_try W info fmt base s
    = (Ok (Some (Z.of_nat ok, Z.of_nat (length (entries info)))), s')
    ∧ sent s' = sent s ++ [STATUS "Starting downloads"] ++ evs
                ++ [STATUS "Completed!"; QUEUE_COMPLETE info]
    ∧ count_msg PROCESSED_PROGRESS evs = length (entries info)
    ∧ count_msg DOWNLOADED_PROGRESS evs = ok
    ∧ ok ≤ length (entries info)
    ∧ ((∀ opts u k, ∃ e, (ydl_download W opts u k).2 = Raise e) → ok = 0).
Proof.
  intros Hnc Hff Hmk Hne. unfold download_process_try.
  set (s0 := WState (sent s ++ [STATUS "Starting downloads"]) (fs s) (is_set_calls s)
                    (clock_reads s) (downloads s) (slept s)).
  rewrite (bind_ok (put _) _ s tt s0 eq_refl).
  assert (Hn : (length (entries info) =? 0) = false).
  { destruct (entries info); [done|]. done. }
  cbv zeta. rewrite Hn.
  destruct (create_playlist_folder_spec W base info s0 Hmk)
    as (s1 & Hrun & _ & Hfs & Hsent).
  rewrite (bind_ok _ _ _ _ _ Hrun).
  destruct (seq_videos_spec W Hnc (unique_folder (fs s0) (path_join base (title info)))
              fmt (entries info) (0, 0)%Z s1 ltac:(set_solver))
    as (ok & evs & s2 & Hvs & Hsent2 & Hp & Hd & Hok & _ & Hfail).
  rewrite (bind_ok _ _ _ _ _ Hvs).
  exists ok, evs. eexists. unfold put. unfold_M. cbn [fst snd].
  split; [reflexivity|]. cbn [sent].
  rewrite Hsent2, Hsent. unfold s0. cbn [sent]. rewrite <- !app_assoc.
  done.
Qed.

(* ===================================================================== *)
(** * The concurrent process                                              *)
(* ===================================================================== *)

Lemma pool_step_no_raise N c p p' :
  pool_step N c p = Some p' → no_raise p → no_raise p'.
Proof.
  intros H (Hr & Hpend & Hrun). unfold no_raise.
  apply pool_step_inv in H as [(t & ts & _ & Hp & _ & ->) | (j & t & _ & Hj & H)].
  - simpl. rewrite Hp in Hpend. apply Forall_cons in Hpend as [Ht Hts].
    split; [done|]. split; [done|]. apply Forall_app. split; [done|]. by constructor.
  - pose proof (Forall_lookup_1 _ _ _ _ Hrun Hj) as Ht.
    destruct t as [[|m todo] [b|e]|[|a todo]]; try done.
    + destruct H as [_ ->]. simpl. split; [done|]. split; [done|].
      by apply Forall_insert.
    + subst p'. simpl. split; [done|]. split; [done|]. by apply Forall_insert.
    + subst p'. simpl. split; [done|]. split; [done|]. by apply Forall_delete.
    + subst p'. destruct a; simpl; (split; [done|]); (split; [done|]);
        by apply Forall_insert.
Qed.

Lemma futures_no_raise TW opts paths (videos : list ytdict) :
  Forall does_not_raise
         (imap (fun i video => download_video (TW i) opts paths video) videos).
Proof.
  apply Forall_lookup. intros i t Hi.
  apply list_lookup_imap_Some in Hi as (v & _ & ->).
  by destruct (download_video_task (TW i) opts paths v) as (evs & b & -> & _).
Qed.

(** The concurrent [try] block: when it returns counters it has counted
    and reported every entry once; and with at least one worker, ffmpeg in
    place and a folder that can be made it does return them. *)
Lemma download_process_concurrent_try_spec W TW sched info fmt N base s :
  ∃ evs,
    sent (download_process_concurrent_try W TW sched info fmt N base s).2
    = sent s ++ evs
    ∧ (∀ d p, (download_process_concurrent_try W TW sched info fmt N base s).1
              = Ok (Some (d, p)) →
         p = Z.of_nat (length (entries info))
         ∧ count_msg PROCESSED_PROGRESS evs = length (entries info))
    ∧ ((1 ≤ N)%Z → ffmpeg_path W ∈ fs s →
       makedirs_error W (unique_folder (fs s) (path_join base (title info))) = None →
       entries info ≠ [] →
       ∃ d, (download_process_concurrent_try W TW sched info fmt N base s).1
            = Ok (Some (d, Z.of_nat (length (entries info))))
            ∧ ∃ evs', evs = [STATUS "Starting downloads"] ++ evs'
                            ++ [STATUS "Complete!"; QUEUE_COMPLETE info]).
Proof.
  unfold download_process_concurrent_try.
  set (s0 := WState (sent s ++ [STATUS "Starting downloads"]) (fs s) (is_set_calls s)
                    (clock_reads s) (downloads s) (slept s)).
  rewrite (bind_ok (put _) _ s tt s0 eq_refl).
  destruct (length (entries info) =? 0) eqn:Hn.
  { eexists [_; _]. split; [unfold put; unfold_M; simpl; by rewrite <- app_assoc|].
    split; [intros d p [=]|]. intros _ _ _ Hne. apply Nat.eqb_eq in Hn.
    by destruct (entries info). }
  pose proof (emits_nothing (create_playlist_folder W base info) s0
                (emits_create_playlist_folder _ W base info)) as Hc.
  destruct (create_playlist_folder W base info s0) as [[folder|e] s1] eqn:Hrun.
  2:{ rewrite (bind_raise _ _ _ _ _ Hrun). cbn [fst snd] in *.
      exists [STATUS "Starting downloads"]. split; [by rewrite Hc|].
      split; [intros d p [=]|]. intros _ _ Hmk _.
      destruct (create_playlist_folder_spec W base info s0 Hmk) as (s1' & Hrun' & _).
      rewrite Hrun in Hrun'. done. }
  rewrite (bind_ok _ _ _ _ _ Hrun). cbn [fst snd] in *.
  destruct (get_ffmpeg_path W s1) as [[ffmpeg|e] s1'] eqn:H1.
  2:{ rewrite (bind_raise _ _ _ _ _ H1). cbn [fst snd].
      unfold get_ffmpeg_path in H1. unfold_M. destruct (path_exists _ _) eqn:Hin; [done|].
      injection H1 as _ <-.
      exists [STATUS "Starting downloads"]. split; [by rewrite Hc|].
      split; [intros d p [=]|]. intros _ Hff Hmk _.
      destruct (create_playlist_folder_spec W base info s0 Hmk) as (s1' & Hrun' & _ & Hfs & _).
      rewrite Hrun in Hrun'. injection Hrun' as _ <-. simpl in Hin.
      rewrite path_exists_elem_of in Hin; [done|set_solver]. }
  assert (s1' = s1) as ->.
  { unfold get_ffmpeg_path in H1. unfold_M. destruct (path_exists _ _); [|done].
    by injection H1 as _ <-. }
  rewrite (bind_ok _ _ _ _ _ H1).
  destruct (Z.leb_spec N 0) as [HN|HN].
  { exists [STATUS "Starting downloads"]. unfold_M. cbn [fst snd].
    split; [by rewrite Hc|]. split; [intros d p [=]|]. intros ?. lia. }
  rewrite (bind_ok (gets fs) _ s1 (fs s1) s1 eq_refl).
  set (futures := imap _ _).
  set (p := pool_run _ _ _ _ _).
  destruct (pool_run_complete (Z.to_nat N) sched futures ltac:(lia)) as (_ & _ & Hdone).
  fold p in Hdone.
  destruct (futures_weights TW (make_opts ffmpeg folder fmt) (fs s1) (entries info) 0)
    as (Hw1 & Hw2 & _).
  simpl in Hw1, Hw2. fold futures in Hw1, Hw2.
  pose proof (Hdone _ _ counts_done_processed) as Hproc.
  pose proof (Hdone _ _ (counts_done_put PROCESSED_PROGRESS)) as Hput.
  rewrite Hw1 in Hproc. rewrite Hw2 in Hput. simpl in Hproc, Hput.
  assert (Hcnt : count_msg PROCESSED_PROGRESS (pool_sent p) = length (entries info)).
  { unfold count_msg in *. simpl in Hput. lia. }
  assert (Hnr : raised p = []).
  { assert (Hinv : no_raise p).
    { apply pool_run_invariant.
      - intros c q q' Hq Hstep. by eapply pool_step_no_raise.
      - split; [done|]. split; [apply futures_no_raise|constructor]. }
    apply Hinv. }
  unfold_M. cbn [fst snd]. rewrite Hnr. unfold put. unfold_M. cbn [fst snd sent].
  exists ([STATUS "Starting downloads"] ++ pool_sent p
          ++ [STATUS "Complete!"; QUEUE_COMPLETE info]).
  rewrite Hc. unfold s0. cbn [sent]. rewrite <- !app_assoc.
  split; [done|]. split.
  - intros d p' [= <- <-]. rewrite !count_msg_app, Hcnt. split; [lia|done].
  - intros _ _ _ _. exists (downloaded_count p). split; [do 3 f_equal; lia|].
    by exists (pool_sent p).
Qed.

(* ===================================================================== *)
(** * The claims about a whole job                                        *)
(* ===================================================================== *)

Lemma thread_end_once_and_last_witness :
  ∃ r evs s',
    download_process world_ok one_song "mp4" "/dl" (wstate_init paths0) = (Ok r, s')
    ∧ sent s' = sent (wstate_init paths0) ++ evs ++ [THREAD_END]
    ∧ count_msg THREAD_END (evs ++ [THREAD_END]) = 1
    ∧ ∀ k, k ≤ length evs →
           count_msg THREAD_END (terminated_after k (evs ++ [THREAD_END])) = 0.
Proof.
  exact (proj1 (thread_end_once_and_last world_ok (fun _ => world_ok) (fun _ => 0)
                  one_song "mp4" 1 "/dl" (wstate_init paths0)
                  values_idle (gui_init "/dl" true))).
Defined.

(** C2: a job that runs to the end of its [try] block, under the
    sequential strategy or under the concurrent one with any number of
    workers and any scheduling, has put exactly one PROCESSED message per
    entry, and its own count of processed entries is the number of
    entries. With ffmpeg in place and a folder that can be made, the
    sequential process does run to that end when no cancellation is seen,
    and the concurrent one when it has at least one worker. *)
Theorem every_item_processed_once W TW sched info fmt N base paths :
  let n := length (entries info) in
  let s := wstate_init paths in
  (∀ d p s', download_process W info fmt base s = (Ok (Some (d, p)), s') →
             p = Z.of_nat n ∧ count_msg PROCESSED_PROGRESS (sent s') = n)
  ∧ (∀ d p s',
       download_process_concurrent W TW sched info fmt N base s
       = (Ok (Some (d, p)), s') →
       p = Z.of_nat n ∧ count_msg PROCESSED_PROGRESS (sent s') = n)
  ∧ (ffmpeg_path W ∈ paths →
     makedirs_error W (unique_folder paths (path_join base (title info))) = None →
     entries info ≠ [] →
     (never_cancelled W →
      ∃ d s', download_process W info fmt base s = (Ok (Some (d, Z.of_nat n)), s'))
     ∧ ((1 ≤ N)%Z →
        ∃ d s', download_process_concurrent W TW sched info fmt N base s
                = (Ok (Some (d, Z.of_nat n)), s'))).
Proof.
  intros n s. split; [|split].
  - intros d p s' Hrun. apply job_wrapper_some in Hrun as (s1 & Hbody & ->).
    destruct (download_process_try_processed W info fmt base s) as (evs & Hevs & Hres).
    rewrite Hbody in Hevs, Hres. simpl in Hevs. destruct (Hres d p eq_refl) as [-> Hn].
    split; [done|]. rewrite Hevs, !count_msg_app, Hn. done.
  - intros d p s' Hrun. apply job_wrapper_some in Hrun as (s1 & Hbody & ->).
    destruct (download_process_concurrent_try_spec W TW sched info fmt N base s)
      as (evs & Hevs & Hres & _).
    rewrite Hbody in Hevs, Hres. simpl in Hevs. destruct (Hres d p eq_refl) as [-> Hn].
    split; [done|]. rewrite Hevs, !count_msg_app, Hn. done.
  - intros Hff Hmk Hne. split.
    + intros Hnc.
      destruct (download_process_try_completes W info fmt base s Hnc Hff Hmk Hne)
        as (ok & evs & s1 & Hbody & _).
      destruct (job_wrapper_ok _ _ _ _ Hbody) as (s' & Hrun & _).
      by exists (Z.of_nat ok), s'.
    + intros HN.
      destruct (download_process_concurrent_try_spec W TW sched info fmt N base s)
        as (evs & Hevs & _ & Hex).
      destruct (Hex HN Hff Hmk Hne) as (d & Hbody & _).
      destruct (download_process_concurrent_try W TW sched info fmt N base s)
        as [r s1] eqn:Hrun. simpl in Hbody. subst r.
      destruct (job_wrapper_ok _ _ _ _ Hrun) as (s' & Hrun' & _).
      by exists d, s'.
Qed.

Lemma every_item_processed_once_witness :
  ∃ d p s',
    download_process_concurrent world_ok (fun _ => world_failing) (fun k => k)
                                one_song "mp3" 4 "/dl" (wstate_init paths0)
    = (Ok (Some (d, p)), s')
    ∧ p = 1%Z ∧ count_msg PROCESSED_PROGRESS (sent s') = 1.
Proof.
  do 3 eexists. split; [vm_compute; reflexivity|].
  apply (proj1 (proj2 (every_item_processed_once world_ok (fun _ => world_failing)
                         (fun k => k) one_song "mp3" 4 "/dl" paths0)) 0%Z).
  vm_compute. reflexivity.
Defined.

(** C7: with no cancellation seen, an entry whose three downloads fail is
    counted and reported as processed, not as downloaded, and its loop body
    returns, so that the loop goes on; and the job, whichever downloads
    fail, runs to the end of its [try] block: its last messages are the
    status "Completed!", QUEUE_COMPLETE and THREAD_END, and the [except]
    clause that reports an error does not run. *)
Theorem failed_item_is_processed_not_downloaded W info fmt base :
  never_cancelled W →
  (∀ folder video counts s,
     ffmpeg_path W ∈ fs s →
     (∀ j, j < 3 →
           ∃ e, (ydl_download W (make_opts (ffmpeg_path W) folder fmt)
                              (video_url_of video) (downloads s + j)).2 = Raise e) →
     ∃ evs s',
       seq_video W folder fmt video counts s = (Ok (counts.1, (counts.2 + 1)%Z), s')
       ∧ sent s' = sent s ++ evs
       ∧ count_msg PROCESSED_PROGRESS evs = 1
       ∧ count_msg DOWNLOADED_PROGRESS evs = 0)
  ∧ (∀ s,
       ffmpeg_path W ∈ fs s →
       makedirs_error W (unique_folder (fs s) (path_join base (title info))) = None →
       entries info ≠ [] →
       ∃ (ok : nat) evs s',
         download_process W info fmt base s
         = (Ok (Some (Z.of_nat ok, Z.of_nat (length (entries info)))), s')
         ∧ sent s' = sent s ++ [STATUS "Starting downloads"] ++ evs
                     ++ [STATUS "Completed!"; QUEUE_COMPLETE info; THREAD_END]
         ∧ count_msg PROCESSED_PROGRESS evs = length (entries info)
         ∧ count_msg DOWNLOADED_PROGRESS evs = ok
         ∧ ((∀ opts u k, ∃ e, (ydl_download W opts u k).2 = Raise e) → ok = 0)).
Proof.
  intros Hnc. split.
  - intros folder video counts s Hff Hfail.
    destruct (seq_video_spec W Hnc folder fmt video counts s Hff)
      as (b & evs & s' & Hrun & Hsent & Hp & Hd & _ & Hb).
    rewrite (Hb Hfail) in Hrun, Hd. rewrite Z.add_0_r in Hrun.
    by exists evs, s'.
  - intros s Hff Hmk Hne.
    destruct (download_process_try_completes W info fmt base s Hnc Hff Hmk Hne)
      as (ok & evs & s1 & Hbody & Hsent & Hp & Hd & _ & Hall).
    destruct (job_wrapper_ok _ _ _ _ Hbody) as (s' & Hrun & Hsent' & _).
    exists ok, evs, s'. split; [done|]. split; [|done].
    rewrite Hsent', Hsent, <- !app_assoc. done.
Qed.

Lemma failed_item_is_processed_not_downloaded_witness :
  ∃ evs s',
    download_process world_failing one_song "mp4" "/dl" (wstate_init paths0)
    = (Ok (Some (0%Z, 1%Z)), s')
    ∧ sent s' = [STATUS "Starting downloads"] ++ evs
                ++ [STATUS "Completed!"; QUEUE_COMPLETE one_song; THREAD_END]
    ∧ count_msg PROCESSED_PROGRESS evs = 1
    ∧ count_msg DOWNLOADED_PROGRESS evs = 0.
Proof.
  assert (Hnc : never_cancelled world_failing) by (intros k; reflexivity).
  assert (Hff : ffmpeg_path world_failing ∈ fs (wstate_init paths0)).
  { apply (bool_decide_unpack _). vm_compute. exact I. }
  destruct (proj2 (failed_item_is_processed_not_downloaded world_failing one_song
                     "mp4" "/dl" Hnc) (wstate_init paths0) Hff eq_refl
                  ltac:(discriminate))
    as (ok & evs & s' & Hrun & Hsent & Hp & Hd & Hall).
  assert (Hok : ok = 0).
  { apply Hall. intros opts u k. eexists. reflexivity. }
  rewrite Hok in Hrun, Hd. exists evs, s'.
  split; [exact Hrun|]. split; [exact Hsent|]. split; [exact Hp | exact Hd].
Defined.

(* ===================================================================== *)
(** * The event loop                                                      *)
(* ===================================================================== *)

(** C1, as stated, fails for a cancellation by the user: the Cancel
    handler terminates the process. Here the job of a playlist of two
    entries is started and cancelled after its first message; the process
    has put "Starting downloads" and no THREAD_END, while the job left
    alone would have put twelve messages. The handler has freed the slot
    of the download and reset the counters itself. *)
Lemma cancelled_job_puts_no_thread_end :
  (proc_terminated <$> download_proc gui_started) = Some false
  ∧ length (job_messages 1 gui_started) = 12
  ∧ count_msg THREAD_END (job_messages 1 gui_started) = 1
  ∧ session_active gui_started = true
  ∧ (proc_terminated <$> download_proc gui_cancelled) = Some true
  ∧ job_messages 1 gui_cancelled = [STATUS "Starting downloads"]
  ∧ count_msg THREAD_END (job_messages 1 gui_cancelled) = 0
  ∧ current_download gui_cancelled = None
  ∧ session_active gui_cancelled = false
  ∧ processed_files gui_cancelled = 0%Z
  ∧ downloaded_files gui_cancelled = 0%Z.
Proof. vm_compute. repeat split. Qed.

(** C10: for a URL that starts with neither "http://" nor "https://",
    [add_to_queue] sets the status text to "Invalid URL" and does nothing
    else: the queue is as it was and no resolution is started. *)
Theorem add_to_queue_invalid_url u g :
  startswith u "http://" = false → startswith u "https://" = false →
  add_to_queue u g = (Ok tt, set_status_txt ("Invalid URL", "red") g)
  ∧ download_queue (add_to_queue u g).2 = download_queue g
  ∧ fetch_threads (add_to_queue u g).2 = fetch_threads g
  ∧ status_txt (add_to_queue u g).2 = ("Invalid URL", "red").
Proof.
  intros H1 H2. unfold add_to_queue. rewrite H1, H2. simpl. done.
Qed.

Lemma add_to_queue_invalid_url_witness :
  download_queue (add_to_queue "ftp://host/file" gui_resolved).2
  = download_queue gui_resolved
  ∧ fetch_threads (add_to_queue "ftp://host/file" gui_resolved).2
    = fetch_threads gui_resolved.
Proof.
  destruct (add_to_queue_invalid_url "ftp://host/file" gui_resolved eq_refl eq_refl)
    as (_ & Hq & Ht & _).
  split; [exact Hq | exact Ht].
Defined.

Lemma queue_titles_snoc q x :
  queue_titles (q ++ [x]) = display_title (title (dict x)) :: queue_titles q.
Proof. unfold queue_titles. by rewrite reverse_snoc, fmap_cons. Qed.

Lemma last_removelast_snoc {A} (q : list A) x :
  last (q ++ [x]) = Some x ∧ removelast (q ++ [x]) = q.
Proof.
  split; [apply last_snoc|].
  rewrite removelast_app by done. simpl. by rewrite app_nil_r.
Qed.

(** C3: [add_to_queue] with a valid URL appends the new entry at the end of
    the queue; the queue text and the queue window list the entries newest
    first, so that the title of the new entry ("Loading...") comes first;
    Remove Last takes the entry at that same end away and Download, when it
    starts a job, takes the entry at that same end as the job. *)
Theorem queue_is_lifo u g vals :
  startswith u "http://" || startswith u "https://" = true →
  let g' := (add_to_queue u g).2 in
  let new := Item (next_oid g) (temp_item_dict u) in
  download_queue g' = download_queue g ++ [new]
  ∧ queue_titles (download_queue g')
    = title (dict new) :: queue_titles (download_queue g)
  ∧ title (dict new) = "Loading..."
  ∧ queue_text g' = str_join " | " (queue_titles (download_queue g'))
  ∧ (∃ rest, view_queue_titles (download_queue g') = "1. Loading..." :: rest)
  ∧ download_queue (handle REMOVE_LAST vals g').2 = download_queue g
  ∧ (current_download g = None → (0 < initial_total g)%Z →
     current_download (handle DOWNLOAD vals g').2 = Some new)
  ∧ (∀ q x, queue_titles (q ++ [x]) = display_title (title (dict x)) :: queue_titles q
            ∧ last (q ++ [x]) = Some x ∧ removelast (q ++ [x]) = q)
  ∧ ∀ (q : list item) i it,
      q !! i = Some it →
      queue_titles q !! (length q - 1 - i) = Some (display_title (title (dict it))).
Proof.
  intros Hu g' new.
  assert (Hg' : g' = set_fetch_threads (fetch_threads g ++ [(next_oid g, u)])
                 (set_status_txt ("Fetching info...", "#5DE2E7")
                   (set_queue_text (queue_display_text (download_queue g ++ [new]))
                     (set_next_oid (S (next_oid g))
                       (set_download_queue (download_queue g ++ [new]) g))))).
  { unfold g', add_to_queue. rewrite Hu. reflexivity. }
  assert (Hq : download_queue g' = download_queue g ++ [new]) by (by rewrite Hg').
  split; [done|]. split; [rewrite Hq, queue_titles_snoc; reflexivity|]. split; [done|].
  split.
  { assert (Ht : queue_text g' = queue_display_text (download_queue g ++ [new]))
      by (by rewrite Hg').
    rewrite Ht, Hq. unfold queue_display_text. by rewrite queue_titles_snoc. }
  split.
  { rewrite Hq. unfold view_queue_titles. rewrite reverse_snoc. simpl. by eexists. }
  split.
  { unfold handle. unfold update_queue_display, update_counters. unfold_M.
    rewrite Hq. rewrite bool_decide_eq_false_2 by (by destruct (download_queue g)).
    cbn [negb]. destruct (session_active _); cbn [snd download_queue set_initial_total
      set_queue_text set_download_queue];
      apply last_removelast_snoc. }
  split.
  { intros Hc Ht. unfold handle. unfold set_status. unfold_M. cbn [id].
    rewrite Hq. rewrite (proj1 (last_removelast_snoc _ _)).
    assert (Hc' : current_download g' = None) by (by rewrite Hg').
    assert (Ht' : initial_total g' = initial_total g) by (by rewrite Hg').
    rewrite Hc', Ht'. destruct (Z.ltb_spec 0 (initial_total g)); [|lia].
    destruct (concurrent_mode g'); [|done].
    destruct (py_isdigit _); [|done].
    destruct (int_of_digits _); done. }
  split.
  { intros q x. split; [apply queue_titles_snoc | apply last_removelast_snoc]. }
  intros q i it Hi. unfold queue_titles. rewrite list_lookup_fmap.
  pose proof (lookup_lt_Some _ _ _ Hi) as Hlt.
  rewrite reverse_lookup by lia.
  replace (length q - S (length q - 1 - i)) with i by lia.
  by rewrite Hi.
Qed.

Lemma queue_is_lifo_witness :
  queue_titles (download_queue (add_to_queue "https://www.youtube.com/watch?v=xyz"
                                             gui_resolved).2)
  = ["Loading..."; "My list"].
Proof.
  exact (proj1 (proj2 (queue_is_lifo "https://www.youtube.com/watch?v=xyz"
                         gui_resolved values_idle eq_refl))).
Defined.

(** ** The two counters *)

Lemma keeps_ret {A} (a : A) : keeps_counters (ret a : M gui A).
Proof. by intros g. Qed.

Lemma keeps_raise {A} e : keeps_counters (raise e : M gui A).
Proof. by intros g. Qed.

Lemma keeps_gets {A} (f : gui -> A) : keeps_counters (gets f).
Proof. by intros g. Qed.

Lemma keeps_bind {A B} (m : M gui A) (k : A -> M gui B) :
  keeps_counters m → (∀ a, keeps_counters (k a)) → keeps_counters (m ≫= k).
Proof.
  intros Hm Hk g. unfold mbind, M_bind, bind. destruct (Hm g) as [H1 H2].
  destruct (m g) as [[a|e] g1]; simpl in *; [|done].
  destruct (Hk a g1) as [H3 H4]. by rewrite H3, H4.
Qed.

Lemma keeps_modify (f : gui -> gui) :
  (∀ g, processed_files (f g) = processed_files g
        ∧ downloaded_files (f g) = downloaded_files g) →
  keeps_counters (modify f).
Proof. intros Hf g. apply Hf. Qed.

Lemma keeps_ite {A} (b : bool) (m1 m2 : M gui A) :
  keeps_counters m1 → keeps_counters m2 → keeps_counters (if b then m1 else m2).
Proof. by destruct b. Qed.

Ltac keeps_step :=
  first
    [ assumption
    | apply keeps_ret | apply keeps_raise | apply keeps_gets
    | apply keeps_modify; intros ?; try case_match; done
    | apply keeps_bind; [|intros ?]
    | apply keeps_ite
    | progress case_match ].

Lemma keeps_update_queue_display : keeps_counters update_queue_display.
Proof. unfold update_queue_display. repeat keeps_step. Qed.

Lemma keeps_update_counters : keeps_counters update_counters.
Proof. unfold update_counters. repeat keeps_step. Qed.

Lemma keeps_set_status t c : keeps_counters (set_status t c).
Proof. unfold set_status. repeat keeps_step. Qed.

Create HintDb keeps discriminated.
#[local] Hint Resolve keeps_update_queue_display keeps_update_counters
  keeps_set_status : keeps.

Ltac keeps_auto := repeat (solve [auto with keeps] || keeps_step).

Lemma keeps_add_to_queue u : keeps_counters (add_to_queue u).
Proof. unfold add_to_queue. keeps_auto. Qed.

Lemma keeps_fetch_title extract_info k : keeps_counters (fetch_title extract_info k).
Proof.
  unfold fetch_title. keeps_auto.
Qed.

Lemma keeps_view_queue clicks : keeps_counters (view_queue clicks).
Proof.
  induction clicks as [|c clicks IH]; simpl; [apply keeps_ret|].
  unfold delete_selected. keeps_auto.
Qed.

(** The handlers other than the three that reset leave the counters. *)
Lemma keeps_handle ev vals :
  resets_counters ev vals = false → keeps_counters (handle ev vals).
Proof.
  intros Hr. destruct ev; simpl in Hr; try discriminate Hr; unfold handle.
  - keeps_auto.
  - keeps_auto.
  - keeps_auto.
  - apply negb_false_iff in Hr. rewrite Hr. keeps_auto.
  - pose proof (keeps_view_queue clicks). keeps_auto.
  - keeps_auto.
  - keeps_auto.
  - keeps_auto.
  - keeps_auto.
  - keeps_auto.
  - destruct m; keeps_auto.
Qed.

(** The three that reset. *)
Lemma handle_resets ev vals g :
  resets_counters ev vals = true →
  processed_files (handle ev vals g).2 = 0%Z
  ∧ downloaded_files (handle ev vals g).2 = 0%Z.
Proof.
  intros Hr. destruct ev; simpl in Hr; try discriminate Hr; unfold handle.
  - rewrite Hr.
    pose proof (keeps_add_to_queue (str_strip (v_url vals)) g) as [_ _].
    assert (Hadd : ∃ g1, add_to_queue (str_strip (v_url vals)) g = (Ok tt, g1)).
    { unfold add_to_queue, update_queue_display, set_status. unfold_M.
      destruct (startswith _ "http://" || startswith _ "https://"); simpl;
        eexists; reflexivity. }
    destruct Hadd as (g1 & Hadd). unfold_M. rewrite Hadd. done.
  - unfold update_queue_display, update_counters. unfold_M. simpl.
    by destruct (session_active g).
  - unfold update_counters, set_status. unfold_M. simpl. done.
Qed.

(** Draining adds one to a counter for each of its messages. *)
Lemma drain_counters msgs g :
  processed_files (drain msgs g).2
  = (processed_files g + Z.of_nat (count_msg PROCESSED_PROGRESS msgs))%Z
  ∧ downloaded_files (drain msgs g).2
    = (downloaded_files g + Z.of_nat (count_msg DOWNLOADED_PROGRESS msgs))%Z
  ∧ ∃ g1, drain msgs g = (Ok tt, g1).
Proof.
  revert g. induction msgs as [|m msgs IH]; intros g; simpl.
  { split; [unfold count_msg; simpl; lia|].
    split; [unfold count_msg; simpl; lia|]. by eexists. }
  assert (Hm : ∃ g1, drain_msg m g = (Ok tt, g1)
             ∧ processed_files g1
               = (processed_files g + Z.of_nat (count_msg PROCESSED_PROGRESS [m]))%Z
             ∧ downloaded_files g1
               = (downloaded_files g + Z.of_nat (count_msg DOWNLOADED_PROGRESS [m]))%Z).
  { unfold drain_msg, update_counters. unfold_M.
    destruct m; simpl; eexists; (split; [reflexivity|]);
      repeat (case_match; simpl); unfold count_msg; simpl; lia. }
  destruct Hm as (g1 & Hrun & Hp & Hd).
  rewrite (bind_ok _ _ _ _ _ Hrun).
  destruct (IH g1) as (Hp' & Hd' & Hex).
  rewrite Hp', Hd', Hp, Hd.
  change (m :: msgs) with ([m] ++ msgs). rewrite !count_msg_app.
  split; [lia|]. split; [lia|done].
Qed.

(** C4, as stated, fails: adding a URL resets the counters. After the
    job of two entries has run to its end both counters are 2; adding
    another URL sets them to 0. *)
Lemma add_queue_resets_counters :
  processed_files gui_finished = 2%Z ∧ downloaded_files gui_finished = 2%Z
  ∧ processed_files (after (loop_iteration [] ADD_QUEUE values_url) gui_finished) = 0%Z
  ∧ downloaded_files (after (loop_iteration [] ADD_QUEUE values_url) gui_finished) = 0%Z.
Proof. vm_compute. repeat split. Qed.

(** C4 (amended): in a turn of the loop, draining the queue adds to
    [processed_files] and [downloaded_files] the number of PROCESSED and
    DOWNLOADED messages found; then the handlers of Add (with a URL that is
    not blank), Clear Queue and Cancel set both to 0, and every other
    handler leaves them as they are. The thread that resolves a URL leaves
    them as they are. *)
Theorem counters_reset_by_add_clear_cancel msgs ev vals g :
  let g1 := (drain msgs g).2 in
  let g' := (loop_iteration msgs ev vals g).2 in
  processed_files g1
  = (processed_files g + Z.of_nat (count_msg PROCESSED_PROGRESS msgs))%Z
  ∧ downloaded_files g1
    = (downloaded_files g + Z.of_nat (count_msg DOWNLOADED_PROGRESS msgs))%Z
  ∧ (if resets_counters ev vals
     then processed_files g' = 0%Z ∧ downloaded_files g' = 0%Z
     else processed_files g' = processed_files g1
          ∧ downloaded_files g' = downloaded_files g1)
  ∧ ∀ extract_info k,
      processed_files (fetch_title extract_info k g).2 = processed_files g
      ∧ downloaded_files (fetch_title extract_info k g).2 = downloaded_files g.
Proof.
  intros g1 g'.
  destruct (drain_counters msgs g) as (Hp & Hd & g0 & Hrun).
  split; [done|]. split; [done|]. split.
  - unfold g', g1, loop_iteration. rewrite (bind_ok _ _ _ _ _ Hrun), Hrun.
    destruct (resets_counters ev vals) eqn:Hr.
    + by apply handle_resets.
    + by apply keeps_handle.
  - intros extract_info k. apply keeps_fetch_title.
Qed.

(* ===================================================================== *)
(** * More on [sanitize_filename]                                         *)
(* ===================================================================== *)

Lemma str_replace_char_length old new s :
  String.length (str_replace_char old new s) = String.length s.
Proof. induction s as [|c s IH]; simpl; [done|]. by rewrite IH. Qed.

Lemma str_lstrip_length P s : String.length (str_lstrip P s) ≤ String.length s.
Proof. induction s as [|c s IH]; simpl; [done|]. destruct (P c); simpl; lia. Qed.

Lemma str_rstrip_length P s : String.length (str_rstrip P s) ≤ String.length s.
Proof.
  induction s as [|c s IH]; simpl; [done|].
  destruct (str_rstrip P s); [destruct (P c)|]; simpl in *; lia.
Qed.

Lemma replace_all_length chars new s :
  String.length (fold_left (fun name char => str_replace_char char new name) chars s)
  = String.length s.
Proof.
  revert s. induction chars as [|a chars IH]; intros s; simpl; [done|].
  by rewrite IH, str_replace_char_length.
Qed.

(** X1: whatever the name, the result of [sanitize_filename] holds none of
    the nine reserved characters, does not end with a dot, does not start
    with whitespace, and is not longer than the name. *)
Theorem sanitize_filename_safe name :
  Forall (fun c => ¬ str_mem c (sanitize_filename name)) invalid_chars
  ∧ str_last (sanitize_filename name) ≠ Some "."%char
  ∧ (∀ c, str_head (sanitize_filename name) = Some c → py_isspace c = false)
  ∧ String.length (sanitize_filename name) ≤ String.length name.
Proof.
  split; [|split; [|split]].
  - apply Forall_forall. intros c Hc. apply sanitize_filename_no_reserved.
    by apply list_elem_of_In.
  - apply sanitize_filename_no_trailing_dot.
  - apply sanitize_filename_no_leading_space.
  - unfold sanitize_filename, str_strip.
    etrans; [apply str_rstrip_length|]. etrans; [apply str_rstrip_length|].
    etrans; [apply str_lstrip_length|]. by rewrite replace_all_length.
Qed.

Lemma str_replace_char_absent old new s :
  ¬ str_mem old s → str_replace_char old new s = s.
Proof.
  unfold str_mem. induction s as [|c s IH]; simpl; [done|].
  intros Hout. destruct (Ascii.eqb_spec c old) as [->|_]; [tauto|].
  rewrite IH; [done|tauto].
Qed.

Lemma replace_all_absent chars new s :
  Forall (fun c => ¬ str_mem c s) chars →
  fold_left (fun name char => str_replace_char char new name) chars s = s.
Proof.
  induction 1 as [|a chars Ha _ IH]; simpl; [done|].
  by rewrite str_replace_char_absent.
Qed.

Lemma str_lstrip_id P s :
  (∀ c, str_head s = Some c → P c = false) → str_lstrip P s = s.
Proof. destruct s as [|c s]; simpl; [done|]. intros H. by rewrite (H c). Qed.

Lemma str_rstrip_id P s :
  (∀ c, str_last s = Some c → P c = false) → str_rstrip P s = s.
Proof.
  induction s as [|c s IH]; simpl; [done|]. intros H.
  destruct s as [|c' s'].
  - simpl. by rewrite (H c).
  - rewrite IH by exact H. done.
Qed.

(** X2: a name that already is clean comes back unchanged: no reserved
    character in it, no whitespace at its start, neither whitespace nor a
    dot at its end. *)
Theorem sanitize_filename_clean_unchanged name :
  Forall (fun c => ¬ str_mem c name) invalid_chars →
  (∀ c, str_head name = Some c → py_isspace c = false) →
  (∀ c, str_last name = Some c → py_isspace c = false ∧ is_dot c = false) →
  sanitize_filename name = name.
Proof.
  intros Hres Hhead Hlast. unfold sanitize_filename, str_strip.
  rewrite replace_all_absent by done.
  rewrite str_lstrip_id by done.
  rewrite (str_rstrip_id py_isspace name)
    by (intros c Hc; by apply Hlast in Hc as [? ?]).
  apply str_rstrip_id. intros c Hc. by apply Hlast in Hc as [? ?].
Qed.

Lemma sanitize_filename_clean_unchanged_witness :
  sanitize_filename "My list (live) - part 2" = "My list (live) - part 2".
Proof.
  apply sanitize_filename_clean_unchanged.
  - repeat constructor; vm_compute; intuition discriminate.
  - intros c [= <-]. reflexivity.
  - intros c [= <-]. split; reflexivity.
Defined.

(* ===================================================================== *)
(** * More on [get_playlist_info]                                         *)
(* ===================================================================== *)

Lemma n_calls_app log log' : n_calls (log ++ log') = n_calls log + n_calls log'.
Proof. unfold n_calls. by rewrite List.filter_app, length_app. Qed.

Section ResolverRetries.
Variable extract_info : string -> nat -> result (option ytdict).

Lemma resolve_attempt_none u log :
match extract_info u (n_calls log) with Ok (Some _) => False | _ => True end →
∃ e, resolve_attempt extract_info u log = (Raise e, log ++ [ExtractInfo u]).
Proof.
unfold resolve_attempt, call_extract_info. unfold_M.
destruct (extract_info u (n_calls log)) as [[d|]|e]; simpl; [done| |]; eauto.
Qed.

Lemma resolve_attempt_some u log d t es :
extract_info u (n_calls log) = Ok (Some d) →
get_default (yt_title d) u = Some t →
get_default (yt_entries d) [] = Some es →
resolve_attempt extract_info u log
= (Ok {| title := sanitize_filename t; url := u;
         total := (if decide (es = []) then 1 else Z.of_nat (length es))%Z;
         entries := (if decide (es = []) then [d] else es) |},
   log ++ [ExtractInfo u]).
Proof.
intros Hd Ht Hes. unfold resolve_attempt, call_extract_info. unfold_M.
rewrite Hd. simpl. rewrite Ht. simpl. rewrite Hes. done.
Qed.

Lemma resolve_loop_first_success u rng log j d t es :
j < length rng →
(∀ k, k < j →
   match extract_info u (n_calls log + k) with Ok (Some _) => False | _ => True end) →
extract_info u (n_calls log + j) = Ok (Some d) →
get_default (yt_title d) u = Some t →
get_default (yt_entries d) [] = Some es →
resolve_loop extract_info rng u log
= (Ok {| title := sanitize_filename t; url := u;
         total := (if decide (es = []) then 1 else Z.of_nat (length es))%Z;
         entries := (if decide (es = []) then [d] else es) |},
   log ++ resolver_trace u j true).
Proof.
revert log j. induction rng as [|a rng IH]; intros log j Hj Hfail Hd Ht Hes.
- simpl in Hj. lia.
- cbn [resolve_loop]. destruct j as [|j].
  + rewrite Nat.add_0_r in Hd.
    unfold_M. rewrite (resolve_attempt_some u log d t es) by done. done.
  + destruct (resolve_attempt_none u log) as [e He].
    { specialize (Hfail 0 ltac:(lia)). by rewrite Nat.add_0_r in Hfail. }
    unfold_M. rewrite He. unfold sleep. unfold_M.
    assert (Hn : n_calls ((log ++ [ExtractInfo u]) ++ [Sleep 1]) = S (n_calls log)).
    { rewrite !n_calls_app. unfold n_calls. simpl. lia. }
    rewrite (IH _ j).
    * f_equal. unfold resolver_trace. simpl. rewrite <- !app_assoc. done.
    * simpl in Hj. lia.
    * intros k Hk. rewrite Hn. specialize (Hfail (S k) ltac:(lia)).
      by replace (S (n_calls log) + k) with (n_calls log + S k) by lia.
    * rewrite Hn. by replace (S (n_calls log) + j) with (n_calls log + S j) by lia.
    * done.
    * done.
Qed.

(** X3: failed look-ups are retried, and the first one that returns decides
  the result.  If the first [j] calls of [extract_info] (at most two)
  raise or return [None] and the next one returns an info dictionary,
  then [get_playlist_info] returns, after exactly [j + 1] calls and a
  sleep of one second after each failed one: the sanitized title of that
  dictionary (the URL if it has no title), the URL, and the entries of
  the playlist with their number, or the dictionary itself as the only
  entry, with total 1, when it has no entries. *)
Theorem get_playlist_info_first_success u j d t es :
j < 3 →
(∀ k, k < j →
   match extract_info u k with Ok (Some _) => False | _ => True end) →
extract_info u j = Ok (Some d) →
get_default (yt_title d) u = Some t →
get_default (yt_entries d) [] = Some es →
get_playlist_info extract_info u []
= (Ok {| title := sanitize_filename t; url := u;
         total := (if decide (es = []) then 1 else Z.of_nat (length es))%Z;
         entries := (if decide (es = []) then [d] else es) |},
   resolver_trace u j true)
∧ n_calls (resolver_trace u j true) = j + 1.
Proof.
intros Hj Hfail Hd Ht Hes. split.
- unfold get_playlist_info.
  rewrite (resolve_loop_first_success u (seq 0 3) [] j d t es); done.
- unfold resolver_trace. rewrite n_calls_app.
  assert (Hc : ∀ n, n_calls (concat (replicate n [ExtractInfo u; Sleep 1])) = n).
  { induction n as [|n IHn]; [done|]. simpl.
    change (ExtractInfo u :: Sleep 1 :: ?l) with ([ExtractInfo u; Sleep 1] ++ l).
    rewrite n_calls_app, IHn. done. }
  rewrite Hc. done.
Qed.
End ResolverRetries.

Lemma get_playlist_info_first_success_witness :
  get_playlist_info extract_flaky "https://youtu.be/v1" []
  = (Ok {| title := "What_ A song"; url := "https://youtu.be/v1";
           total := 1; entries := [flaky_video] |},
     resolver_trace "https://youtu.be/v1" 2 true)
  ∧ n_calls (resolver_trace "https://youtu.be/v1" 2 true) = 3.
Proof.
  refine (get_playlist_info_first_success extract_flaky "https://youtu.be/v1" 2
            flaky_video "What? A song." [] _ _ _ _ _).
  - lia.
  - intros [|[|k]] Hk; simpl; [done|done|lia].
  - reflexivity.
  - reflexivity.
  - reflexivity.
Defined.

(* ===================================================================== *)
(** * Jobs that do not get to download                                    *)
(* ===================================================================== *)

(** The folder of a job is made without a message, a download or a look at
    the cancellation event. *)
Lemma create_playlist_folder_ok W base info s :
  let r := unique_folder (fs s) (path_join base (title info)) in
  makedirs_error W r = None →
  create_playlist_folder W base info s
  = (Ok r, WState (sent s) ({[r]} ∪ list_to_set (path_ancestors r) ∪ fs s)
                  (is_set_calls s) (clock_reads s) (downloads s) (slept s)).
Proof.
  intros r Hmk. unfold create_playlist_folder, makedirs. unfold_M. simpl.
  fold r. destruct (unique_folder_spec (fs s) (path_join base (title info)))
    as [Hfree _]. fold r in Hfree.
  rewrite Hfree. rewrite Hmk. done.
Qed.

(** X4: a job without entries, under either strategy: it puts the three
    messages Starting downloads, Empty content and THREAD_END, returns, and
    has made no folder, started no download and not looked at the
    cancellation event. *)
Theorem empty_job_creates_nothing W TW sched info fmt N base s :
  entries info = [] →
  let empty_run (r : result (option (Z * Z)) * wstate) :=
    r.1 = Ok None
    ∧ sent r.2 = sent s ++ [STATUS "Starting downloads"; STATUS "Empty content";
                            THREAD_END]
    ∧ fs r.2 = fs s ∧ downloads r.2 = downloads s
    ∧ is_set_calls r.2 = is_set_calls s in
  empty_run (download_process W info fmt base s)
  ∧ empty_run (download_process_concurrent W TW sched info fmt N base s).
Proof.
  intros He. cbv zeta.
  unfold download_process, download_process_try, download_process_concurrent,
    download_process_concurrent_try, put.
  unfold_M. rewrite He. simpl. rewrite <- !app_assoc. done.
Qed.

Lemma empty_job_creates_nothing_witness :
  sent (download_process world_ok (temp_item_dict "https://youtu.be/x") "mp3" "/dl"
                         (wstate_init paths0)).2
  = [STATUS "Starting downloads"; STATUS "Empty content"; THREAD_END].
Proof.
  exact (proj1 (proj2 (proj1
    (empty_job_creates_nothing world_ok (fun _ => world_ok) (fun k => k)
       (temp_item_dict "https://youtu.be/x") "mp3" 1 "/dl" (wstate_init paths0)
       eq_refl)))).
Defined.

(** X5: a job whose FFmpeg binary is missing (its path does not exist once
    the folder of the job is made), under either strategy: the
    folder of the job is made all the same, then the job ends with the
    status Error: FFmpeg not found at: <path> and THREAD_END; no download
    is started and no item is counted.  The sequential job finds out at its
    first entry, after the Downloading message of that entry. *)
Theorem missing_ffmpeg_fails_job W TW sched info fmt N base s :
  let folder := unique_folder (fs s) (path_join base (title info)) in
  entries info ≠ [] →
  makedirs_error W folder = None →
  path_exists ({[folder]} ∪ list_to_set (path_ancestors folder) ∪ fs s)
              (ffmpeg_path W) = false →
  cancel_is_set W (is_set_calls s) = false →
  let error := STATUS ("Error: FFmpeg not found at: " +:+ ffmpeg_path W) in
  let failed_run (r : result (option (Z * Z)) * wstate) (evs : list msg) :=
    r.1 = Ok None
    ∧ sent r.2 = sent s ++ [STATUS "Starting downloads"] ++ evs ++ [error; THREAD_END]
    ∧ folder ∈ fs r.2 ∧ downloads r.2 = downloads s in
  (∃ text, failed_run (download_process W info fmt base s) [STATUS text])
  ∧ failed_run (download_process_concurrent W TW sched info fmt N base s) [].
Proof.
  intros folder He Hmk Hff Hc. cbv zeta.
  destruct (entries info) as [|video videos] eqn:Hentries; [done|].
  pose proof (create_playlist_folder_ok W base info
                (WState (sent s ++ [STATUS "Starting downloads"]) (fs s)
                        (is_set_calls s) (clock_reads s) (downloads s) (slept s)))
    as Hfolder.
  cbn [fs sent is_set_calls clock_reads downloads slept] in Hfolder.
  specialize (Hfolder Hmk). fold folder in Hfolder.
  split.
  - eexists.
    unfold download_process, download_process_try, put.
    unfold_M. rewrite Hentries. cbn [length Nat.eqb].
    rewrite Hfolder. cbn [seq_videos]. unfold seq_video, is_set, get_ffmpeg_path, put.
    unfold_M. cbn [fs sent is_set_calls clock_reads downloads slept fst snd].
    rewrite Hc. cbn [fs sent is_set_calls clock_reads downloads slept fst snd].
    rewrite Hff.
    cbn [fs sent is_set_calls clock_reads downloads slept fst snd exn_str].
    split; [done|]. split; [by rewrite <- !app_assoc|]. split; [set_solver|done].
  - unfold download_process_concurrent, download_process_concurrent_try, put.
    unfold_M. rewrite Hentries. cbn [length Nat.eqb].
    rewrite Hfolder. unfold get_ffmpeg_path. unfold_M.
    cbn [fs sent is_set_calls clock_reads downloads slept fst snd].
    rewrite Hff.
    cbn [fs sent is_set_calls clock_reads downloads slept fst snd exn_str].
    split; [done|]. split; [by rewrite <- !app_assoc|]. split; [set_solver|done].
Qed.

Lemma missing_ffmpeg_fails_job_witness :
  sent (download_process_concurrent world_ok (fun _ => world_ok) (fun k => k)
          one_song "mp3" 2 "/dl" (wstate_init {[ "/dl" ]})).2
  = [STATUS "Starting downloads";
     STATUS "Error: FFmpeg not found at: /app/bin/ffmpeg.exe"; THREAD_END].
Proof.
  refine (proj1 (proj2 (proj2
    (missing_ffmpeg_fails_job world_ok (fun _ => world_ok) (fun k => k)
       one_song "mp3" 2 "/dl" (wstate_init {[ "/dl" ]}) _ _ _ _)))).
  - discriminate.
  - reflexivity.
  - vm_compute. reflexivity.
  - reflexivity.
Defined.

(* ===================================================================== *)
(** * The messages of a job                                               *)
(* ===================================================================== *)

Lemma balanced_progress l : Forall is_progress l → balanced l.
Proof.
  intros Hl k. rewrite !count_msg_progress; [done| |]; by apply Forall_take.
Qed.

Lemma balanced_app l1 l2 : balanced l1 → balanced l2 → balanced (l1 ++ l2).
Proof.
  intros H1 H2 k. rewrite take_app, !count_msg_app.
  specialize (H2 (k - length l1)). specialize (H1 k). lia.
Qed.

Lemma balanced_snoc l m :
  balanced l →
  count_msg DOWNLOADED_PROGRESS (l ++ [m]) ≤ count_msg PROCESSED_PROGRESS (l ++ [m]) →
  balanced (l ++ [m]).
Proof.
  intros Hl Hm k. destruct (decide (k ≤ length l)) as [Hk|Hk].
  - rewrite take_app_le by done. apply Hl.
  - rewrite take_ge; [done|]. rewrite length_app. simpl. lia.
Qed.

Lemma is_progress_item m : is_progress m → is_item_msg m.
Proof. by destruct m. Qed.

(** One entry of the sequential job: progress messages, then PROCESSED, and
    DOWNLOADED after it if the download succeeded. *)
Lemma seq_video_shape W folder fmt video counts s :
  ∃ pre, Forall is_progress pre ∧
    match (seq_video W folder fmt video counts s).1 with
    | Ok c => ∃ b : bool,
        sent (seq_video W folder fmt video counts s).2
        = sent s ++ pre ++ PROCESSED_PROGRESS
                          :: (if b then [DOWNLOADED_PROGRESS] else [])
        ∧ c = ((counts.1 + (if b then 1 else 0))%Z, (counts.2 + 1)%Z)
    | Raise _ => sent (seq_video W folder fmt video counts s).2 = sent s ++ pre
    end.
Proof.
  unfold seq_video.
  set (t := py_str _).
  destruct (is_set W s) as [[c|e] s0] eqn:H0; [|by injection H0].
  assert (Hs0 : sent s0 = sent s) by (injection H0 as _ <-; done).
  rewrite (bind_ok _ _ _ _ _ H0).
  destruct c.
  { exists []. simpl. by rewrite app_nil_r. }
  set (s1 := WState (sent s0 ++ [STATUS ("Downloading:  '" +:+ t +:+ "'")]) (fs s0)
                    (is_set_calls s0) (clock_reads s0) (downloads s0) (slept s0)).
  rewrite (bind_ok (put _) _ s0 tt s1 eq_refl).
  destruct (get_ffmpeg_path W s1) as [[ffmpeg|e] s1'] eqn:H1.
  2:{ rewrite (bind_raise _ _ _ _ _ H1). cbn [fst snd].
      exists [STATUS ("Downloading:  '" +:+ t +:+ "'")].
      split; [by repeat constructor|].
      unfold get_ffmpeg_path in H1. unfold_M. destruct (path_exists _ _); [done|].
      injection H1 as _ <-. simpl. by rewrite Hs0. }
  assert (s1' = s1) as ->.
  { unfold get_ffmpeg_path in H1. unfold_M. destruct (path_exists _ _); [|done].
    by injection H1 as _ <-. }
  rewrite (bind_ok _ _ _ _ _ H1).
  set (opts := make_opts ffmpeg folder fmt).
  destruct (emits_seq_attempts W (seq 1 3) opts (video_url_of video) t s1)
    as (evs & Hevs & HP & _).
  exists ([STATUS ("Downloading:  '" +:+ t +:+ "'")] ++ evs).
  split; [apply Forall_app; split; [by repeat constructor|done]|].
  destruct (seq_attempts W (seq 1 3) opts (video_url_of video) t s1) as [[b|e] s2] eqn:Hrun.
  2:{ rewrite (bind_raise _ _ _ _ _ Hrun). cbn [fst snd] in *.
      rewrite Hevs. unfold s1. cbn [sent]. by rewrite Hs0, <- app_assoc. }
  rewrite (bind_ok _ _ _ _ _ Hrun). cbn [fst snd] in *.
  destruct b; unfold put; unfold_M; cbn [fst snd sent];
    [exists true|exists false]; rewrite Hevs; unfold s1;
    cbn [sent]; rewrite Hs0, <- !app_assoc;
    (split; [done|]); f_equal; lia.
Qed.

Lemma seq_video_messages W folder fmt video counts s :
  ∃ evs, sent (seq_video W folder fmt video counts s).2 = sent s ++ evs
    ∧ Forall is_item_msg evs ∧ balanced evs
    ∧ count_msg PROCESSED_PROGRESS evs ≤ 1
    ∧ ∀ c, (seq_video W folder fmt video counts s).1 = Ok c →
        ∃ b : bool,
          c = ((counts.1 + (if b then 1 else 0))%Z, (counts.2 + 1)%Z)
          ∧ count_msg PROCESSED_PROGRESS evs = 1
          ∧ count_msg DOWNLOADED_PROGRESS evs = (if b then 1 else 0).
Proof.
  destruct (seq_video_shape W folder fmt video counts s) as (pre & Hpre & H).
  destruct (seq_video W folder fmt video counts s) as [[c|e] s1]; cbn [fst snd] in *.
  - destruct H as (b & Hsent & ->).
    exists (pre ++ PROCESSED_PROGRESS :: (if b then [DOWNLOADED_PROGRESS] else [])).
    split; [done|]. split.
    { apply Forall_app. split; [eapply Forall_impl; [done|apply is_progress_item]|].
      destruct b; by repeat constructor. }
    split.
    { apply balanced_app; [by apply balanced_progress|].
      intros k. destruct b; destruct k as [|[|[|k]]]; vm_compute; lia. }
    rewrite !count_msg_app, !(count_msg_progress _ pre) by done.
    split; [destruct b; vm_compute; lia|].
    intros c [= <-]. exists b. split; [done|]. destruct b; done.
  - exists pre. split; [done|].
    split; [eapply Forall_impl; [done|apply is_progress_item]|].
    split; [by apply balanced_progress|].
    rewrite count_msg_progress by done. split; [lia|]. intros c [=].
Qed.

Lemma seq_videos_messages W folder fmt videos counts s :
  ∃ evs, sent (seq_videos W folder fmt videos counts s).2 = sent s ++ evs
    ∧ Forall is_item_msg evs ∧ balanced evs
    ∧ count_msg PROCESSED_PROGRESS evs ≤ length videos
    ∧ ∀ c, (seq_videos W folder fmt videos counts s).1 = Ok c →
        c = ((counts.1 + Z.of_nat (count_msg DOWNLOADED_PROGRESS evs))%Z,
             (counts.2 + Z.of_nat (count_msg PROCESSED_PROGRESS evs))%Z)
        ∧ count_msg PROCESSED_PROGRESS evs = length videos.
Proof.
  revert counts s. induction videos as [|v vs IH]; intros counts s; simpl.
  - exists []. unfold_M. simpl. rewrite app_nil_r. split; [done|].
    split; [done|]. split; [by intros [|k]|]. split; [done|].
    intros c [= <-]. destruct counts as [d p]. unfold count_msg. simpl.
    split; [|done]. f_equal; lia.
  - destruct (seq_video_messages W folder fmt v counts s)
      as (evs & Hevs & Hitem & Hbal & Hle & Hres).
    destruct (seq_video W folder fmt v counts s) as [[c1|e] s1] eqn:Hrun.
    + rewrite (bind_ok _ _ _ _ _ Hrun). cbn [fst snd] in *.
      destruct (IH c1 s1) as (evs' & Hevs' & Hitem' & Hbal' & Hle' & Hres').
      exists (evs ++ evs'). rewrite Hevs', Hevs, app_assoc. split; [done|].
      split; [by apply Forall_app|]. split; [by apply balanced_app|].
      rewrite !count_msg_app. split; [lia|].
      intros c Hc. destruct (Hres' c Hc) as [-> Hn].
      destruct (Hres c1 eq_refl) as (b & -> & H1 & H2). cbn [fst snd].
      rewrite H1, H2, Hn. split; [|lia]. f_equal; destruct b; lia.
    + rewrite (bind_raise _ _ _ _ _ Hrun). cbn [fst snd] in *.
      exists evs. split; [done|]. split; [done|]. split; [done|].
      split; [lia|]. intros c [=].
Qed.

(** The wrapper of both processes, run: the messages of the body, the
    error of a body that raises, and THREAD_END. *)
Lemma job_wrapper_run (body : M wstate (option (Z * Z))) s :
  let r := try_finally
             (try_except body
                (fun e => put (STATUS ("Error: " +:+ exn_str e));; ret None))
             (put THREAD_END) s in
  match (body s).1 with
  | Ok c => r.1 = Ok c ∧ sent r.2 = sent (body s).2 ++ [THREAD_END]
  | Raise e =>
      r.1 = Ok None
      ∧ sent r.2 = sent (body s).2 ++ [STATUS ("Error: " +:+ exn_str e); THREAD_END]
  end
  ∧ fs r.2 = fs (body s).2 ∧ downloads r.2 = downloads (body s).2.
Proof.
  unfold try_finally, try_except, put. unfold_M.
  destruct (body s) as [[c|e] s1]; simpl; [done|]. by rewrite <- app_assoc.
Qed.

(** What one job puts before its last message: the messages of its items,
    and at the end of a job that completes the final status and
    QUEUE_COMPLETE. *)
Lemma download_process_try_messages W info fmt base s :
  let r := download_process_try W info fmt base s in
  ∃ evs, Forall is_item_msg evs ∧ balanced evs
    ∧ count_msg PROCESSED_PROGRESS evs ≤ length (entries info)
    ∧ match r.1 with
      | Ok (Some c) =>
          sent r.2 = sent s ++ evs ++ [STATUS "Completed!"; QUEUE_COMPLETE info]
          ∧ c = (Z.of_nat (count_msg DOWNLOADED_PROGRESS evs),
                 Z.of_nat (count_msg PROCESSED_PROGRESS evs))
          ∧ count_msg PROCESSED_PROGRESS evs = length (entries info)
      | _ => sent r.2 = sent s ++ evs
      end.
Proof.
  cbv zeta. unfold download_process_try.
  set (s0 := WState (sent s ++ [STATUS "Starting downloads"]) (fs s) (is_set_calls s)
                    (clock_reads s) (downloads s) (slept s)).
  rewrite (bind_ok (put _) _ s tt s0 eq_refl).
  destruct (length (entries info) =? 0) eqn:Hn.
  { exists [STATUS "Starting downloads"; STATUS "Empty content"].
    split; [by repeat constructor|].
    split; [apply balanced_progress; by repeat constructor|].
    split; [vm_compute; lia|].
    unfold put; unfold_M; simpl. by rewrite <- app_assoc. }
  pose proof (emits_nothing (create_playlist_folder W base info) s0
                (emits_create_playlist_folder _ W base info)) as Hc.
  destruct (create_playlist_folder W base info s0) as [[folder|e] s1] eqn:Hrun.
  2:{ rewrite (bind_raise _ _ _ _ _ Hrun). cbn [fst snd] in *.
      exists [STATUS "Starting downloads"]. split; [by repeat constructor|].
      split; [apply balanced_progress; by repeat constructor|].
      split; [vm_compute; lia|]. by rewrite Hc. }
  rewrite (bind_ok _ _ _ _ _ Hrun). cbn [fst snd] in *.
  destruct (seq_videos_messages W folder fmt (entries info) (0, 0)%Z s1)
    as (evs & Hevs & Hitem & Hbal & Hle & Hres).
  exists ([STATUS "Starting downloads"] ++ evs).
  split; [apply Forall_app; split; [by repeat constructor|done]|].
  split; [apply balanced_app; [apply balanced_progress; by repeat constructor|done]|].
  rewrite !count_msg_app.
  change (count_msg _ [STATUS "Starting downloads"]) with 0. cbn [Nat.add].
  split; [done|].
  destruct (seq_videos W folder fmt (entries info) (0, 0)%Z s1) as [[c|e] s2] eqn:Hvs.
  - rewrite (bind_ok _ _ _ _ _ Hvs). cbn [fst snd] in *.
    destruct (Hres c eq_refl) as [-> Hlen].
    unfold put. unfold_M. cbn [fst snd sent].
    rewrite Hevs, Hc. unfold s0. cbn [sent]. rewrite <- !app_assoc.
    split; [done|]. split; [f_equal; lia|done].
  - rewrite (bind_raise _ _ _ _ _ Hvs). cbn [fst snd] in *.
    rewrite Hevs, Hc. unfold s0. cbn [sent]. by rewrite <- !app_assoc.
Qed.

(* ===================================================================== *)
(** * The thread pool: the order of the counts                             *)
(* ===================================================================== *)

Lemma futures_fresh TW opts paths videos :
  Forall task_fresh (futures_of TW opts paths videos).
Proof.
  apply Forall_lookup. intros i t Hi.
  apply list_lookup_imap_Some in Hi as (v & _ & ->).
  by destruct (download_video_task (TW i) opts paths v) as (evs & b & -> & ?).
Qed.

Lemma count_msg_snoc m l x :
  count_msg m (l ++ [x]) = count_msg m l + (if msg_eqb m x then 1 else 0).
Proof. rewrite count_msg_app. f_equal. unfold count_msg. simpl. by destruct (msg_eqb m x). Qed.

Lemma crit_suffix_cases a todo b :
  (a :: todo) `suffix_of` crit_block b →
  (a, todo) ∈ [ (IncProcessed, [CPut PROCESSED_PROGRESS; IncDownloaded;
                                CPut DOWNLOADED_PROGRESS]);
                (CPut PROCESSED_PROGRESS, [IncDownloaded; CPut DOWNLOADED_PROGRESS]);
                (IncDownloaded, [CPut DOWNLOADED_PROGRESS]);
                (CPut DOWNLOADED_PROGRESS, []);
                (IncProcessed, [CPut PROCESSED_PROGRESS]);
                (CPut PROCESSED_PROGRESS, []) ].
Proof.
  intros [k Hk]. destruct b; cbn in Hk;
    repeat (destruct k as [|? k]; cbn in Hk;
            [injection Hk as <- <-; set_solver | injection Hk as <- Hk]);
    by destruct k.
Qed.

Lemma pool_step_balanced N c p p' :
  pool_step N c p = Some p' → pool_balanced p → pool_balanced p'.
Proof.
  intros H (Hpend & Hrun & Hitem & Hbal & Hcnt). unfold pool_balanced.
  apply pool_step_inv in H as [(t & ts & _ & Hp & Hlt & ->) | (j & t & _ & Hj & H)].
  - cbn [running pending pool_sent]. rewrite Hp in Hpend.
    apply Forall_cons in Hpend as [Ht Hts]. split; [done|].
    destruct t as [todo r|]; [|done].
    split; [apply Forall_app; split; [done|by constructor]|].
    split; [done|]. split; [done|].
    rewrite tasks_sum_app, tasks_sum_cons. unfold tasks_sum at 2. simpl. lia.
  - destruct (tasks_sum_lookup lock_debt _ _ _ Hj) as (rest & Hsum & Hins & Hdel).
    pose proof (Forall_lookup_1 _ _ _ _ Hrun Hj) as Ht.
    rewrite Hsum in Hcnt.
    destruct t as [[|m todo] [b|e]|[|a todo]].
    + destruct H as [_ ->]. cbn [running pending pool_sent].
      split; [done|]. split.
      { apply Forall_insert; [done|]. by exists b. }
      split; [done|]. split; [done|]. rewrite Hins.
      assert (lock_debt (InLock (crit_block b)) = 0) as -> by (by destruct b).
      simpl in Hcnt. lia.
    + subst p'. cbn [running pending pool_sent]. split; [done|].
      split; [by apply Forall_delete|]. split; [done|]. split; [done|].
      rewrite Hdel. simpl in Hcnt. lia.
    + subst p'. cbn [running pending pool_sent with_running do_crit].
      simpl in Ht. apply Forall_cons in Ht as [Hm Htodo].
      split; [done|]. split; [by apply Forall_insert|].
      split; [apply Forall_app; split; [done|]; repeat constructor;
              by apply is_progress_item|].
      assert (H0 : ∀ x, count_msg x (pool_sent p ++ [m]) = count_msg x (pool_sent p)).
      { intros x. rewrite count_msg_app, (count_msg_progress x [m]); [lia|].
        by repeat constructor. }
      split; [apply balanced_snoc; [done|]; rewrite !H0; simpl in Hcnt; lia|].
      rewrite !H0, Hins. simpl in *. lia.
    + subst p'. cbn [running pending pool_sent with_running do_crit].
      simpl in Ht. apply Forall_cons in Ht as [Hm Htodo].
      split; [done|]. split; [by apply Forall_insert|].
      split; [apply Forall_app; split; [done|]; repeat constructor;
              by apply is_progress_item|].
      assert (H0 : ∀ x, count_msg x (pool_sent p ++ [m]) = count_msg x (pool_sent p)).
      { intros x. rewrite count_msg_app, (count_msg_progress x [m]); [lia|].
        by repeat constructor. }
      split; [apply balanced_snoc; [done|]; rewrite !H0; simpl in Hcnt; lia|].
      rewrite !H0, Hins. simpl in *. lia.
    + subst p'. cbn [running pending pool_sent]. split; [done|].
      split; [by apply Forall_delete|]. split; [done|]. split; [done|].
      rewrite Hdel. simpl in Hcnt. lia.
    + subst p'. destruct Ht as [b Hsuf].
      assert (Hok : task_ok (InLock todo)).
      { exists b. by eapply suffix_cons_l. }
      pose proof (crit_suffix_cases _ _ _ Hsuf) as Hcase.
      repeat (apply elem_of_cons in Hcase as [Hcase|Hcase];
              [injection Hcase as -> ->|]);
        [..|by apply elem_of_nil in Hcase];
        cbn [running pending pool_sent with_running do_crit];
        (split; [done|]); (split; [by apply Forall_insert|]);
        rewrite ?Hins; rewrite ?count_msg_snoc; cbn [msg_eqb];
        cbn in Hcnt; cbn.
      all: try (split; [done|]; split; [done|]; lia).
      all: split; [apply Forall_app; split; [done|]; by repeat constructor|].
      all: split; [apply balanced_snoc; [done|]; rewrite !count_msg_snoc;
                   cbn [msg_eqb]; lia | lia].
Qed.

Lemma pool_init_balanced TW opts paths videos :
  pool_balanced (pool_init (futures_of TW opts paths videos)).
Proof.
  split; [apply futures_fresh|]. split; [constructor|]. split; [constructor|].
  split; [by intros [|k]|]. simpl. unfold count_msg, tasks_sum. simpl. lia.
Qed.

Lemma download_process_concurrent_try_messages W TW sched info fmt N base s :
  let r := download_process_concurrent_try W TW sched info fmt N base s in
  ∃ evs, Forall is_item_msg evs ∧ balanced evs
    ∧ count_msg PROCESSED_PROGRESS evs ≤ length (entries info)
    ∧ match r.1 with
      | Ok (Some c) =>
          sent r.2 = sent s ++ evs ++ [STATUS "Complete!"; QUEUE_COMPLETE info]
          ∧ c = (Z.of_nat (count_msg DOWNLOADED_PROGRESS evs),
                 Z.of_nat (count_msg PROCESSED_PROGRESS evs))
          ∧ count_msg PROCESSED_PROGRESS evs = length (entries info)
      | _ => sent r.2 = sent s ++ evs
      end.
Proof.
  cbv zeta. unfold download_process_concurrent_try.
  set (s0 := WState (sent s ++ [STATUS "Starting downloads"]) (fs s) (is_set_calls s)
                    (clock_reads s) (downloads s) (slept s)).
  rewrite (bind_ok (put _) _ s tt s0 eq_refl).
  assert (Hstart : Forall is_item_msg [STATUS "Starting downloads"]
                   ∧ balanced [STATUS "Starting downloads"]
                   ∧ count_msg PROCESSED_PROGRESS [STATUS "Starting downloads"]
                     ≤ length (entries info)).
  { split; [by repeat constructor|].
    split; [apply balanced_progress; by repeat constructor|vm_compute; lia]. }
  destruct (length (entries info) =? 0) eqn:Hn.
  { exists [STATUS "Starting downloads"; STATUS "Empty content"].
    split; [by repeat constructor|].
    split; [apply balanced_progress; by repeat constructor|].
    split; [vm_compute; lia|].
    unfold put; unfold_M; simpl. by rewrite <- app_assoc. }
  pose proof (emits_nothing (create_playlist_folder W base info) s0
                (emits_create_playlist_folder _ W base info)) as Hc.
  destruct (create_playlist_folder W base info s0) as [[folder|e] s1] eqn:Hrun.
  2:{ rewrite (bind_raise _ _ _ _ _ Hrun). cbn [fst snd] in *.
      exists [STATUS "Starting downloads"]. destruct Hstart as (? & ? & ?).
      by rewrite Hc. }
  rewrite (bind_ok _ _ _ _ _ Hrun). cbn [fst snd] in *.
  destruct (get_ffmpeg_path W s1) as [[ffmpeg|e] s1'] eqn:H1.
  2:{ rewrite (bind_raise _ _ _ _ _ H1). cbn [fst snd].
      unfold get_ffmpeg_path in H1. unfold_M. destruct (path_exists _ _) eqn:Hin; [done|].
      injection H1 as _ <-.
      exists [STATUS "Starting downloads"]. destruct Hstart as (? & ? & ?).
      by rewrite Hc. }
  assert (s1' = s1) as ->.
  { unfold get_ffmpeg_path in H1. unfold_M. destruct (path_exists _ _); [|done].
    by injection H1 as _ <-. }
  rewrite (bind_ok _ _ _ _ _ H1).
  destruct (Z.leb_spec N 0) as [HN|HN].
  { exists [STATUS "Starting downloads"]. unfold_M. cbn [fst snd].
    destruct Hstart as (? & ? & ?). by rewrite Hc. }
  rewrite (bind_ok (gets fs) _ s1 (fs s1) s1 eq_refl).
  change (imap _ (entries info))
    with (futures_of TW (make_opts ffmpeg folder fmt) (fs s1) (entries info)).
  set (futures := futures_of _ _ _ _).
  set (p := pool_run _ _ _ _ _).
  destruct (pool_run_complete (Z.to_nat N) sched futures ltac:(lia)) as (_ & _ & Hdone).
  fold p in Hdone.
  destruct (futures_weights TW (make_opts ffmpeg folder fmt) (fs s1) (entries info) 0)
    as (Hw1 & Hw2 & _ & Hw4 & _).
  simpl in Hw1, Hw2, Hw4. fold (futures_of TW (make_opts ffmpeg folder fmt) (fs s1)
                                  (entries info)) in Hw1, Hw2, Hw4.
  fold futures in Hw1, Hw2, Hw4.
  pose proof (Hdone _ _ counts_done_processed) as Hproc.
  pose proof (Hdone _ _ (counts_done_put PROCESSED_PROGRESS)) as Hput.
  pose proof (Hdone _ _ counts_done_downloaded) as Hdown.
  pose proof (Hdone _ _ (counts_done_put DOWNLOADED_PROGRESS)) as Hputd.
  rewrite Hw1 in Hproc. rewrite Hw2 in Hput. rewrite Hw4 in Hdown.
  cbn [pool_init pool_sent processed_count downloaded_count] in Hproc, Hput, Hdown, Hputd.
  change (count_msg _ []) with 0 in Hput, Hputd.
  assert (Hinv : pool_balanced p).
  { apply pool_run_invariant.
    - intros c q q' Hq Hstep. by eapply pool_step_balanced.
    - apply pool_init_balanced. }
  destruct Hinv as (_ & _ & Hitem & Hbal & _).
  assert (Hnr : raised p = []).
  { assert (Hinv : no_raise p).
    { apply pool_run_invariant.
      - intros c q q' Hq Hstep. by eapply pool_step_no_raise.
      - split; [done|]. split; [apply futures_no_raise|constructor]. }
    apply Hinv. }
  unfold_M. cbn [fst snd]. rewrite Hnr. unfold put. unfold_M. cbn [fst snd sent].
  exists ([STATUS "Starting downloads"] ++ pool_sent p).
  split; [apply Forall_app; split; [by repeat constructor|done]|].
  split; [apply balanced_app; [apply balanced_progress; by repeat constructor|done]|].
  rewrite !count_msg_app.
  change (count_msg _ [STATUS "Starting downloads"]) with 0. cbn [Nat.add].
  split; [lia|].
  rewrite Hc. unfold s0. cbn [sent]. rewrite <- !app_assoc.
  split; [done|]. split; [f_equal; lia|lia].
Qed.

Lemma balanced_tail l text info :
  balanced l → balanced (l ++ [STATUS text; QUEUE_COMPLETE info]).
Proof.
  intros Hl. apply balanced_app; [done|].
  intros k. destruct k as [|[|[|k]]]; vm_compute; lia.
Qed.

(** A job, from the messages of its [try] block: what it has put when it
    returns. *)
Lemma job_wrapper_messages (body : M wstate (option (Z * Z))) info text n s :
  (∃ evs, Forall is_item_msg evs ∧ balanced evs
     ∧ count_msg PROCESSED_PROGRESS evs ≤ n
     ∧ match (body s).1 with
       | Ok (Some c) =>
           sent (body s).2 = sent s ++ evs ++ [STATUS text; QUEUE_COMPLETE info]
           ∧ c = (Z.of_nat (count_msg DOWNLOADED_PROGRESS evs),
                  Z.of_nat (count_msg PROCESSED_PROGRESS evs))
           ∧ count_msg PROCESSED_PROGRESS evs = n
       | _ => sent (body s).2 = sent s ++ evs
       end) →
  let r := try_finally
             (try_except body
                (fun e => put (STATUS ("Error: " +:+ exn_str e));; ret None))
             (put THREAD_END) s in
  ∃ evs, sent r.2 = sent s ++ evs ++ [THREAD_END]
    ∧ balanced evs
    ∧ count_msg PROCESSED_PROGRESS evs ≤ n
    ∧ match r.1 with
      | Ok (Some c) =>
          (∃ pre, evs = pre ++ [STATUS text; QUEUE_COMPLETE info]
                  ∧ Forall is_item_msg pre)
          ∧ c = (Z.of_nat (count_msg DOWNLOADED_PROGRESS evs),
                 Z.of_nat (count_msg PROCESSED_PROGRESS evs))
          ∧ count_msg PROCESSED_PROGRESS evs = n
      | _ => Forall is_item_msg evs
      end.
Proof.
  intros (evs & Hitem & Hbal & Hle & Hbody). intros r.
  destruct (job_wrapper_run body s) as (Hr & _). fold r in Hr.
  destruct (body s) as [[[c|]|e] s1]; cbn [fst snd] in *.
  - destruct Hr as [Hr1 Hr2]. destruct Hbody as (Hs1 & Hc & Hn).
    exists (evs ++ [STATUS text; QUEUE_COMPLETE info]).
    rewrite Hr1, Hr2, Hs1, <- !app_assoc.
    split; [done|]. split; [by apply balanced_tail|].
    rewrite !count_msg_app.
    change (count_msg _ [STATUS text; QUEUE_COMPLETE info]) with 0.
    rewrite !Nat.add_0_r. split; [done|]. split; [by exists evs|done].
  - destruct Hr as [Hr1 Hr2]. exists evs. rewrite Hr1, Hr2, Hbody, <- !app_assoc.
    done.
  - destruct Hr as [Hr1 Hr2].
    exists (evs ++ [STATUS ("Error: " +:+ exn_str e)]).
    rewrite Hr1, Hr2, Hbody, <- !app_assoc.
    split; [done|].
    split; [apply balanced_app; [done|apply balanced_progress; by repeat constructor]|].
    rewrite count_msg_app.
    change (count_msg _ [STATUS _]) with 0. rewrite Nat.add_0_r. split; [done|].
    apply Forall_app. split; [done|]. by repeat constructor.
Qed.

Lemma download_process_messages W info fmt base s :
  let r := download_process W info fmt base s in
  ∃ evs, sent r.2 = sent s ++ evs ++ [THREAD_END]
    ∧ balanced evs
    ∧ count_msg PROCESSED_PROGRESS evs ≤ length (entries info)
    ∧ match r.1 with
      | Ok (Some c) =>
          (∃ pre, evs = pre ++ [STATUS "Completed!"; QUEUE_COMPLETE info]
                  ∧ Forall is_item_msg pre)
          ∧ c = (Z.of_nat (count_msg DOWNLOADED_PROGRESS evs),
                 Z.of_nat (count_msg PROCESSED_PROGRESS evs))
          ∧ count_msg PROCESSED_PROGRESS evs = length (entries info)
      | _ => Forall is_item_msg evs
      end.
Proof.
  apply job_wrapper_messages. apply download_process_try_messages.
Qed.

Lemma download_process_concurrent_messages W TW sched info fmt N base s :
  let r := download_process_concurrent W TW sched info fmt N base s in
  ∃ evs, sent r.2 = sent s ++ evs ++ [THREAD_END]
    ∧ balanced evs
    ∧ count_msg PROCESSED_PROGRESS evs ≤ length (entries info)
    ∧ match r.1 with
      | Ok (Some c) =>
          (∃ pre, evs = pre ++ [STATUS "Complete!"; QUEUE_COMPLETE info]
                  ∧ Forall is_item_msg pre)
          ∧ c = (Z.of_nat (count_msg DOWNLOADED_PROGRESS evs),
                 Z.of_nat (count_msg PROCESSED_PROGRESS evs))
          ∧ count_msg PROCESSED_PROGRESS evs = length (entries info)
      | _ => Forall is_item_msg evs
      end.
Proof.
  apply job_wrapper_messages. apply download_process_concurrent_try_messages.
Qed.

Lemma proc_run_messages W TW sched paths p :
  let r := proc_run W TW sched paths p in
  ∃ evs, sent r.2 = evs ++ [THREAD_END]
    ∧ balanced evs
    ∧ count_msg PROCESSED_PROGRESS evs ≤ length (entries (proc_info p))
    ∧ match r.1 with
      | Ok (Some c) =>
          (∃ pre text, evs = pre ++ [STATUS text; QUEUE_COMPLETE (proc_info p)]
                       ∧ Forall is_item_msg pre)
          ∧ c = (Z.of_nat (count_msg DOWNLOADED_PROGRESS evs),
                 Z.of_nat (count_msg PROCESSED_PROGRESS evs))
          ∧ count_msg PROCESSED_PROGRESS evs = length (entries (proc_info p))
      | _ => Forall is_item_msg evs
      end.
Proof.
  unfold proc_run. destruct (proc_max_workers p) as [n|].
  - destruct (download_process_concurrent_messages W TW sched (proc_info p)
                (proc_format p) n (proc_base_folder p) (wstate_init paths))
      as (evs & Hsent & Hbal & Hle & Hres).
    exists evs. split; [done|]. split; [done|]. split; [done|].
    destruct (download_process_concurrent _ _ _ _ _ _ _ _).1 as [[c|]|e]; [|done..].
    destruct Hres as ((pre & ? & ?) & ? & ?). split; [by exists pre, "Complete!"|done].
  - destruct (download_process_messages W (proc_info p) (proc_format p)
                (proc_base_folder p) (wstate_init paths))
      as (evs & Hsent & Hbal & Hle & Hres).
    exists evs. split; [done|]. split; [done|]. split; [done|].
    destruct (download_process _ _ _ _ _).1 as [[c|]|e]; [|done..].
    destruct Hres as ((pre & ? & ?) & ? & ?). split; [by exists pre, "Completed!"|done].
Qed.

(** X7: QUEUE_COMPLETE is the mark of a job that got to its end, under
    either strategy and whatever happens: a job whose [try] block completes
    has put it once, with the dictionary of the job, after a final status
    and directly before THREAD_END; a job that ends early or fails has not
    put it at all. *)
Theorem queue_complete_iff_job_completes W TW sched paths p :
  let r := proc_run W TW sched paths p in
  ∃ evs, sent r.2 = evs ++ [THREAD_END]
    ∧ match r.1 with
      | Ok (Some _) =>
          ∃ pre text, evs = pre ++ [STATUS text; QUEUE_COMPLETE (proc_info p)]
                      ∧ Forall is_item_msg pre
      | _ => Forall is_item_msg evs
      end.
Proof.
  destruct (proc_run_messages W TW sched paths p) as (evs & Hsent & _ & _ & Hres).
  exists evs. split; [done|].
  destruct (proc_run W TW sched paths p).1 as [[c|]|e]; [|done..]. apply Hres.
Qed.

Lemma count_msg_thread_end_snoc m evs :
  m ≠ THREAD_END → count_msg m (evs ++ [THREAD_END]) = count_msg m evs.
Proof. intros Hm. rewrite count_msg_snoc. destruct m; try done; simpl; lia. Qed.

(** X8: the counts a completed job returns are the counts of its
    messages, under either strategy: [downloaded_count] is the number of
    DOWNLOADED messages, [processed_count] the number of PROCESSED
    messages and of entries, and the first is at most the second. *)
Theorem job_counts_match_messages W TW sched paths p d n s' :
  proc_run W TW sched paths p = (Ok (Some (d, n)), s') →
  d = Z.of_nat (count_msg DOWNLOADED_PROGRESS (sent s'))
  ∧ n = Z.of_nat (count_msg PROCESSED_PROGRESS (sent s'))
  ∧ n = Z.of_nat (length (entries (proc_info p)))
  ∧ (0 ≤ d ≤ n)%Z.
Proof.
  intros Hrun.
  destruct (proc_run_messages W TW sched paths p) as (evs & Hsent & Hbal & _ & Hres).
  rewrite Hrun in Hsent, Hres. cbn [fst snd] in *.
  destruct Hres as (_ & [= -> ->] & Hn).
  rewrite Hsent, !count_msg_thread_end_snoc by done.
  split; [done|]. split; [done|]. split; [lia|].
  specialize (Hbal (length evs)). rewrite firstn_all in Hbal. lia.
Qed.

Lemma job_counts_match_messages_witness :
  let s' := (proc_run world_ok (fun _ => world_failing) (fun k => k) paths0
               (Process (Some 2%Z) one_song "mp4" "/dl" false)).2 in
  0%Z = Z.of_nat (count_msg DOWNLOADED_PROGRESS (sent s'))
  ∧ 1%Z = Z.of_nat (count_msg PROCESSED_PROGRESS (sent s'))
  ∧ 1%Z = Z.of_nat (length (entries one_song))
  ∧ (0 ≤ 0 ≤ 1)%Z.
Proof.
  refine (job_counts_match_messages world_ok (fun _ => world_failing) (fun k => k)
            paths0 (Process (Some 2%Z) one_song "mp4" "/dl" false) 0 1 _ _).
  vm_compute. reflexivity.
Defined.

Lemma count_msg_take_le m k l : count_msg m (take k l) ≤ count_msg m l.
Proof.
  rewrite <- (take_drop k l) at 2. rewrite count_msg_app. lia.
Qed.

(** X9: the totals of the loop keep their order.  Whatever job runs, under
    either strategy, and however many of its messages the loop has taken
    from the queue so far (all of them, or those put before the process was
    killed): the loop has counted at most as many downloaded files as
    processed ones, and at most as many processed files as the job has
    entries. *)
Theorem loop_counters_stay_ordered W TW sched paths k p j g :
  let g' := (drain (take j (proc_messages W TW sched paths k p)) g).2 in
  (0 ≤ downloaded_files g' - downloaded_files g
     ≤ processed_files g' - processed_files g)%Z
  ∧ (processed_files g' - processed_files g
     ≤ Z.of_nat (length (entries (proc_info p))))%Z.
Proof.
  cbv zeta.
  destruct (drain_counters (take j (proc_messages W TW sched paths k p)) g)
    as (-> & -> & _).
  destruct (proc_run_messages W TW sched paths p) as (evs & Hsent & Hbal & Hle & _).
  assert (Hmsgs : ∃ i, take j (proc_messages W TW sched paths k p)
                       = take i (evs ++ [THREAD_END])).
  { unfold proc_messages. fold (proc_run W TW sched paths p). rewrite Hsent.
    destruct (proc_terminated p).
    - unfold terminated_after. rewrite take_take. by eexists.
    - by eexists. }
  destruct Hmsgs as [i ->].
  assert (Hbal' : balanced (evs ++ [THREAD_END])).
  { apply balanced_app; [done|]. intros [|[|?]]; vm_compute; lia. }
  specialize (Hbal' i).
  pose proof (count_msg_take_le PROCESSED_PROGRESS i (evs ++ [THREAD_END])) as Hp.
  rewrite count_msg_thread_end_snoc in Hp by done. lia.
Qed.

(* ===================================================================== *)
(** * Cancellation as the jobs see it                                     *)
(* ===================================================================== *)

(** X10: a sequential job that finds the cancellation event set when it
    comes to its first entry: the folder of the job is made, no download is
    started and no item counted, and the job ends with the status
    Error: Download cancelled and THREAD_END. *)
Theorem sequential_job_cancelled_at_start W info fmt base s :
  let folder := unique_folder (fs s) (path_join base (title info)) in
  let r := download_process W info fmt base s in
  entries info ≠ [] →
  makedirs_error W folder = None →
  cancel_is_set W (is_set_calls s) = true →
  r.1 = Ok None
  ∧ sent r.2 = sent s ++ [STATUS "Starting downloads";
                          STATUS "Error: Download cancelled"; THREAD_END]
  ∧ folder ∈ fs r.2 ∧ downloads r.2 = downloads s.
Proof.
  intros folder r He Hmk Hc. unfold r.
  destruct (entries info) as [|video videos] eqn:Hentries; [done|].
  pose proof (create_playlist_folder_ok W base info
                (WState (sent s ++ [STATUS "Starting downloads"]) (fs s)
                        (is_set_calls s) (clock_reads s) (downloads s) (slept s)))
    as Hfolder.
  cbn [fs sent is_set_calls clock_reads downloads slept] in Hfolder.
  specialize (Hfolder Hmk). fold folder in Hfolder.
  unfold download_process, download_process_try, put.
  unfold_M. rewrite Hentries. cbn [length Nat.eqb].
  rewrite Hfolder. cbn [seq_videos]. unfold seq_video, is_set.
  unfold_M. cbn [fs sent is_set_calls clock_reads downloads slept fst snd].
  rewrite Hc.
  cbn [fs sent is_set_calls clock_reads downloads slept fst snd exn_str].
  split; [done|]. split; [by rewrite <- !app_assoc|]. split; [set_solver|done].
Qed.

Lemma sequential_job_cancelled_at_start_witness :
  sent (download_process (world_cancelled_from 0) one_song "mp3" "/dl"
                         (wstate_init paths0)).2
  = [STATUS "Starting downloads"; STATUS "Error: Download cancelled"; THREAD_END].
Proof.
  refine (proj1 (proj2
    (sequential_job_cancelled_at_start (world_cancelled_from 0) one_song "mp3" "/dl"
       (wstate_init paths0) _ _ _))).
  - discriminate.
  - reflexivity.
  - reflexivity.
Defined.

(** X11: a sequential job whose progress hook finds the cancellation event
    set during the first download of the first entry: the hook raises, the
    retry loop takes that for a failed attempt, and the check before the
    second attempt ends the job with the status Error: The download was
    cancelled.  One download was started; the entry is counted neither as
    processed nor as downloaded, and no QUEUE_COMPLETE is put. *)
Theorem sequential_job_cancelled_in_transfer W info fmt base s video videos d ds outcome :
  let folder := unique_folder (fs s) (path_join base (title info)) in
  let r := download_process W info fmt base s in
  let o := is_set_calls s in
  entries info = video :: videos →
  makedirs_error W folder = None →
  ffmpeg_path W ∈ fs s →
  cancel_is_set W o = false → cancel_is_set W (S o) = false →
  cancel_is_set W (S (S o)) = true → cancel_is_set W (S (S (S o))) = true →
  ydl_download W (make_opts (ffmpeg_path W) folder fmt) (video_url_of video)
               (downloads s) = (d :: ds, outcome) →
  r.1 = Ok None
  ∧ (∃ text, sent r.2 = sent s ++ [STATUS "Starting downloads"; STATUS text;
                                   STATUS "Error: The download was cancelled";
                                   THREAD_END])
  ∧ downloads r.2 = S (downloads s).
Proof.
  intros folder r o Hentries Hmk Hff H0 H1 H2 H3 Hdl. unfold r.
  pose proof (create_playlist_folder_ok W base info
                (WState (sent s ++ [STATUS "Starting downloads"]) (fs s)
                        (is_set_calls s) (clock_reads s) (downloads s) (slept s)))
    as Hfolder.
  cbn [fs sent is_set_calls clock_reads downloads slept] in Hfolder.
  specialize (Hfolder Hmk). fold folder in Hfolder.
  unfold download_process, download_process_try, put.
  unfold_M. rewrite Hentries. cbn [length Nat.eqb].
  rewrite Hfolder. cbn [seq_videos]. unfold seq_video, is_set, get_ffmpeg_path, put.
  unfold_M. cbn [fs sent is_set_calls clock_reads downloads slept fst snd].
  fold o. rewrite H0.
  rewrite path_exists_elem_of by set_solver.
  cbn [seq seq_attempts]. unfold is_set, ydl_run, put. unfold_M.
  simpl. fold o. rewrite H1. simpl. rewrite Hdl. simpl.
  unfold progress_hook, is_set. unfold_M. simpl. fold o. rewrite H2. simpl.
  fold o. rewrite H3. simpl.
  split; [done|]. split; [|done]. eexists. by rewrite <- !app_assoc.
Qed.

Lemma sequential_job_cancelled_in_transfer_witness :
  downloads (download_process (world_cancelled_from 2) one_song "mp3" "/dl"
                              (wstate_init paths0)).2 = 1.
Proof.
  refine (proj2 (proj2
    (sequential_job_cancelled_in_transfer (world_cancelled_from 2) one_song "mp3" "/dl"
       (wstate_init paths0) _ [] _ [] (Ok tt) eq_refl _ _ _ _ _ _ _))).
  - reflexivity.
  - apply (bool_decide_unpack _). vm_compute. exact I.
  - reflexivity.
  - reflexivity.
  - reflexivity.
  - reflexivity.
  - reflexivity.
Defined.

(** The concurrent [try] block with its set-up in order: it makes the
    folder, runs the pool to its end, and completes.  The main thread of the
    process never looks at the cancellation event. *)
Lemma download_process_concurrent_try_run W TW sched info fmt N base s :
  let folder := unique_folder (fs s) (path_join base (title info)) in
  let paths := {[folder]} ∪ list_to_set (path_ancestors folder) ∪ fs s in
  let futures := futures_of TW (make_opts (ffmpeg_path W) folder fmt) paths
                            (entries info) in
  let p := pool_run (Z.to_nat N) sched (pool_size (pool_init futures)) 0
                    (pool_init futures) in
  (1 ≤ N)%Z →
  ffmpeg_path W ∈ fs s →
  makedirs_error W folder = None →
  entries info ≠ [] →
  download_process_concurrent_try W TW sched info fmt N base s
  = (Ok (Some (downloaded_count p, processed_count p)),
     WState (sent s ++ [STATUS "Starting downloads"] ++ pool_sent p
                    ++ [STATUS "Complete!"; QUEUE_COMPLETE info])
            paths (is_set_calls s) (clock_reads s) (downloads s) (slept s)).
Proof.
  intros folder paths futures p HN Hff Hmk Hne.
  unfold download_process_concurrent_try.
  set (s0 := WState (sent s ++ [STATUS "Starting downloads"]) (fs s) (is_set_calls s)
                    (clock_reads s) (downloads s) (slept s)).
  rewrite (bind_ok (put _) _ s tt s0 eq_refl).
  assert (Hn : (length (entries info) =? 0) = false).
  { destruct (entries info); [done|]. done. }
  cbv zeta. rewrite Hn.
  pose proof (create_playlist_folder_ok W base info s0 Hmk) as Hfolder.
  unfold s0 in Hfolder at 2 3 4 5 6 7 8.
  cbn [fs sent is_set_calls clock_reads downloads slept] in Hfolder.
  fold folder in Hfolder. fold paths in Hfolder.
  rewrite (bind_ok _ _ _ _ _ Hfolder).
  set (s1 := WState _ paths _ _ _ _).
  assert (H1 : get_ffmpeg_path W s1 = (Ok (ffmpeg_path W), s1)).
  { unfold get_ffmpeg_path. unfold_M. simpl.
    rewrite path_exists_elem_of; [done|]. unfold paths. set_solver. }
  rewrite (bind_ok _ _ _ _ _ H1).
  destruct (Z.leb_spec N 0) as [HN'|_]; [lia|].
  rewrite (bind_ok (gets fs) _ s1 (fs s1) s1 eq_refl).
  change (imap _ (entries info)) with futures. fold p.
  assert (Hnr : raised p = []).
  { assert (Hinv : no_raise p).
    { apply pool_run_invariant.
      - intros c q q' Hq Hstep. by eapply pool_step_no_raise.
      - split; [done|]. split; [apply futures_no_raise|constructor]. }
    apply Hinv. }
  unfold_M. cbn [fst snd]. rewrite Hnr. unfold put. unfold_M. cbn [fst snd sent].
  unfold s1. cbn [fs sent is_set_calls clock_reads downloads slept].
  by rewrite <- !app_assoc.
Qed.

Lemma ydl_run_cancelled W opts u s :
  (∀ k, cancel_is_set W k = true) →
  (ydl_download W opts u (downloads s)).1 ≠ [] →
  ∃ s1, ydl_run W opts u s = (Raise (cancelled_default), s1)
        ∧ downloads s1 = S (downloads s) ∧ sent s1 = sent s.
Proof.
  intros Hc Hds. unfold ydl_run. unfold_M. simpl.
  destruct (ydl_download W opts u (downloads s)) as [[|d ds] outcome]; [done|].
  simpl. unfold progress_hook, is_set. unfold_M. simpl. rewrite Hc. simpl.
  by eexists.
Qed.

Lemma conc_attempts_cancelled W rng opts u t s :
  (∀ k, cancel_is_set W k = true) →
  (∀ k, (ydl_download W opts u k).1 ≠ []) →
  ∃ s', conc_attempts W rng opts u t s = (Ok false, s')
        ∧ downloads s' = downloads s + length rng.
Proof.
  intros Hc Hds. revert s. induction rng as [|a rng IH]; intros s.
  - simpl. unfold_M. eexists. split; [done|]. simpl. lia.
  - cbn [conc_attempts].
    destruct (ydl_run_cancelled W opts u s Hc (Hds _)) as (s1 & Hrun & Hd & _).
    unfold put, time_sleep. unfold_M. rewrite Hrun.
    destruct (a =? 3)%nat; cbn [fst snd].
    + match goal with |- context [conc_attempts W rng opts u t ?s2] =>
        destruct (IH s2) as (s' & Hs' & Hd') end.
      exists s'. split; [done|]. rewrite Hd'. simpl. lia.
    + match goal with |- context [conc_attempts W rng opts u t ?s2] =>
        destruct (IH s2) as (s' & Hs' & Hd') end.
      exists s'. split; [done|]. rewrite Hd'. simpl. lia.
Qed.

Lemma tasks_sum_zero f (l : list task) : Forall (fun t => f t = 0) l → tasks_sum f l = 0.
Proof.
  induction 1 as [|t l Ht _ IH]; [done|]. rewrite tasks_sum_cons. lia.
Qed.

(** X12: the concurrent job does not stop for the cancellation event.  Its
    main thread never looks at it; only the progress hooks of the worker
    threads do, and the retry loop takes their exception for a failed
    attempt.  With the event set all along and downloads that call the hook,
    every entry still starts its three downloads, none counts as
    downloaded, all count as processed, and the job ends with Complete!,
    QUEUE_COMPLETE and THREAD_END.  (Only the termination of the process
    by the Cancel handler stops it.) *)
Theorem concurrent_job_ignores_cancel_flag W TW sched info fmt N base s :
  let folder := unique_folder (fs s) (path_join base (title info)) in
  (∀ i k, cancel_is_set (TW i) k = true) →
  (∀ i opts u k, (ydl_download (TW i) opts u k).1 ≠ []) →
  (1 ≤ N)%Z →
  ffmpeg_path W ∈ fs s →
  makedirs_error W folder = None →
  entries info ≠ [] →
  (∀ i opts paths video,
     ∃ s', download_video_attempts (TW i) opts video (wstate_init paths)
           = (Ok false, s')
           ∧ downloads s' = 3)
  ∧ ∃ evs s',
      download_process_concurrent W TW sched info fmt N base s
      = (Ok (Some (0%Z, Z.of_nat (length (entries info)))), s')
      ∧ sent s' = sent s ++ evs ++ [STATUS "Complete!"; QUEUE_COMPLETE info;
                                    THREAD_END]
      ∧ count_msg DOWNLOADED_PROGRESS evs = 0
      ∧ is_set_calls s' = is_set_calls s.
Proof.
  intros folder Hc Hds HN Hff Hmk Hne.
  assert (Hthread : ∀ i opts paths video,
            ∃ s', download_video_attempts (TW i) opts video (wstate_init paths)
                  = (Ok false, s') ∧ downloads s' = 3).
  { intros i opts paths video. unfold download_video_attempts.
    destruct (conc_attempts_cancelled (TW i) (seq 1 3) opts (video_url_of video)
                (py_str (get_default (yt_title video) "Unknown"))
                (wstate_init paths) (Hc i) (Hds i opts _)) as (s' & Hrun & Hd).
    by exists s'. }
  split; [exact Hthread|].
  pose proof (download_process_concurrent_try_run W TW sched info fmt N base s
                HN Hff Hmk Hne) as Hrun.
  cbv zeta in Hrun. fold folder in Hrun.
  set (paths := {[folder]} ∪ list_to_set (path_ancestors folder) ∪ fs s) in *.
  set (futures := futures_of TW (make_opts (ffmpeg_path W) folder fmt) paths
                             (entries info)) in *.
  set (p := pool_run _ _ _ _ _) in *.
  destruct (pool_run_complete (Z.to_nat N) sched futures ltac:(lia)) as (_ & _ & Hdone).
  fold p in Hdone.
  assert (Hzero : ∀ w, (∀ m, is_progress m → w (CPut m) = 0) →
                       w IncProcessed = 0 → w (CPut PROCESSED_PROGRESS) = 0 →
                       tasks_sum (todo_weight w) futures = 0).
  { intros w Hw H1 H2. apply tasks_sum_zero. apply Forall_lookup. intros i t Hi.
    apply list_lookup_imap_Some in Hi as (v & _ & ->).
    destruct (download_video_task (TW i) (make_opts (ffmpeg_path W) folder fmt)
                paths v) as (evs & b & Ht & Hevs).
    assert (b = false) as ->.
    { unfold download_video in Ht.
      destruct (Hthread i (make_opts (ffmpeg_path W) folder fmt) paths v)
        as (s' & Hs' & _).
      rewrite Hs' in Ht. by injection Ht as _ <-. }
    rewrite Ht, todo_weight_downloading.
    change (sum_list (w <$> crit_block false))
      with (w IncProcessed + (w (CPut PROCESSED_PROGRESS) + 0)).
    rewrite H1, H2.
    assert (sum_list (w <$> (CPut <$> evs)) = 0) as ->; [|done].
    clear Ht. induction Hevs as [|m evs Hm _ IH]; [done|].
    rewrite !fmap_cons. cbn [sum_list]. rewrite (Hw m Hm), IH. done. }
  destruct (futures_weights TW (make_opts (ffmpeg_path W) folder fmt) paths
              (entries info) 0) as (Hw1 & _).
  simpl in Hw1. fold (futures_of TW (make_opts (ffmpeg_path W) folder fmt) paths
                        (entries info)) in Hw1. fold futures in Hw1.
  pose proof (Hdone _ _ counts_done_processed) as Hproc.
  pose proof (Hdone _ _ counts_done_downloaded) as Hdown.
  pose proof (Hdone _ _ (counts_done_put DOWNLOADED_PROGRESS)) as Hputd.
  rewrite Hw1 in Hproc.
  rewrite (Hzero w_downloaded) in Hdown by (first [by intros [] | done]).
  rewrite (Hzero (w_put DOWNLOADED_PROGRESS)) in Hputd
    by (first [by intros [] | done]).
  cbn [pool_init pool_sent processed_count downloaded_count] in Hproc, Hdown, Hputd.
  change (count_msg _ []) with 0 in Hputd.
  rewrite Hproc, Hdown in Hrun. cbn [Z.add] in Hrun.
  destruct (job_wrapper_ok _ _ _ _ Hrun) as (s' & Hjob & Hsent & _).
  assert (His : is_set_calls s' = is_set_calls s).
  { pose proof (job_wrapper_run
                  (download_process_concurrent_try W TW sched info fmt N base) s)
      as Hw. cbv zeta in Hw. unfold download_process_concurrent in Hjob.
    revert Hjob. unfold try_finally, try_except, put. unfold_M. rewrite Hrun.
    intros [= <-]. done. }
  exists ([STATUS "Starting downloads"] ++ pool_sent p), s'.
  split; [exact Hjob|]. rewrite Hsent. cbn [sent]. rewrite <- !app_assoc.
  split; [done|]. rewrite count_msg_app.
  change (count_msg _ [STATUS "Starting downloads"]) with 0.
  split; [lia|done].
Qed.

Lemma concurrent_job_ignores_cancel_flag_witness :
  ∃ evs s',
    download_process_concurrent (world_cancelled_from 0)
      (fun _ => world_cancelled_from 0) (fun k => k) one_song "mp3" 2 "/dl"
      (wstate_init paths0)
    = (Ok (Some (0%Z, 1%Z)), s')
    ∧ sent s' = evs ++ [STATUS "Complete!"; QUEUE_COMPLETE one_song; THREAD_END]
    ∧ count_msg DOWNLOADED_PROGRESS evs = 0
    ∧ is_set_calls s' = 0.
Proof.
  refine (proj2
    (concurrent_job_ignores_cancel_flag (world_cancelled_from 0)
       (fun _ => world_cancelled_from 0) (fun k => k) one_song "mp3" 2 "/dl"
       (wstate_init paths0) _ _ _ _ _ _)).
  - reflexivity.
  - discriminate.
  - lia.
  - apply (bool_decide_unpack _). vm_compute. exact I.
  - reflexivity.
  - discriminate.
Defined.

(** X13: a concurrent job asked to run with no worker (a count of 0 in the
    input, which the Download handler passes on as it is): the thread pool
    refuses it, after the folder of the job has been made; the job ends with
    the status Error: max_workers must be greater than 0 and THREAD_END,
    and nothing is downloaded or counted. *)
Theorem concurrent_job_without_workers W TW sched info fmt N base s :
  let folder := unique_folder (fs s) (path_join base (title info)) in
  let r := download_process_concurrent W TW sched info fmt N base s in
  (N ≤ 0)%Z →
  ffmpeg_path W ∈ fs s →
  makedirs_error W folder = None →
  entries info ≠ [] →
  r.1 = Ok None
  ∧ sent r.2 = sent s ++ [STATUS "Starting downloads";
                          STATUS "Error: max_workers must be greater than 0";
                          THREAD_END]
  ∧ folder ∈ fs r.2.
Proof.
  intros folder r HN Hff Hmk He. unfold r.
  destruct (entries info) as [|video videos] eqn:Hentries; [done|].
  pose proof (create_playlist_folder_ok W base info
                (WState (sent s ++ [STATUS "Starting downloads"]) (fs s)
                        (is_set_calls s) (clock_reads s) (downloads s) (slept s)))
    as Hfolder.
  cbn [fs sent is_set_calls clock_reads downloads slept] in Hfolder.
  specialize (Hfolder Hmk). fold folder in Hfolder.
  unfold download_process_concurrent, download_process_concurrent_try, put.
  unfold_M. rewrite Hentries. cbn [length Nat.eqb].
  rewrite Hfolder. unfold get_ffmpeg_path. unfold_M.
  cbn [fs sent is_set_calls clock_reads downloads slept fst snd].
  rewrite path_exists_elem_of by set_solver.
  destruct (Z.leb_spec N 0) as [_|HN']; [|lia].
  cbn [fs sent is_set_calls clock_reads downloads slept fst snd exn_str].
  split; [done|]. split; [by rewrite <- !app_assoc|]. set_solver.
Qed.

Lemma concurrent_job_without_workers_witness :
  sent (download_process_concurrent world_ok (fun _ => world_ok) (fun k => k)
          one_song "mp3" 0 "/dl" (wstate_init paths0)).2
  = [STATUS "Starting downloads";
     STATUS "Error: max_workers must be greater than 0"; THREAD_END].
Proof.
  refine (proj1 (proj2
    (concurrent_job_without_workers world_ok (fun _ => world_ok) (fun k => k)
       one_song "mp3" 0 "/dl" (wstate_init paths0) _ _ _ _))).
  - lia.
  - apply (bool_decide_unpack _). vm_compute. exact I.
  - reflexivity.
  - discriminate.
Defined.

(* ===================================================================== *)
(** * The state of the loop, turn after turn                              *)
(* ===================================================================== *)

Lemma gui_wf_step g g' :
  gui_wf g → queue_step g g' →
  queue_text g' = queue_display_text (download_queue g') →
  (session_active g' = false → current_download g' = None) →
  gui_wf g'.
Proof.
  intros (_ & Hnd & Hlt & Hok & _) Hstep Htext Hcur.
  split; [done|]. destruct Hstep as [[Hsub Hn]|(u & Hq & Hn)].
  - split; [eapply sublist_NoDup; [exact Hnd|by apply fmap_sublist]|].
    split; [|split; [|done]].
    + apply Forall_forall. intros it Hit. rewrite Hn.
      eapply Forall_forall in Hlt; [done|]. by eapply elem_of_sublist.
    + apply Forall_forall. intros it Hit.
      eapply Forall_forall in Hok; [done|]. by eapply elem_of_sublist.
  - rewrite Hq, Hn, fmap_app. split.
    { apply NoDup_app. split; [done|]. split; [|apply NoDup_singleton].
      intros n Hin Hn'. apply list_elem_of_singleton in Hn'. simpl in Hn'. subst n.
      apply list_elem_of_fmap in Hin as (it & Heq & Hit).
      pose proof (proj1 (Forall_forall _ _) Hlt it Hit) as Hlt'. simpl in Hlt'.
      lia. }
    split; [|split; [|done]].
    + apply Forall_app. split; [|apply Forall_singleton; simpl; lia].
      eapply Forall_impl; [exact Hlt|]. simpl. intros it Hit. lia.
    + apply Forall_app. split; [done|]. apply Forall_singleton. by left.
Qed.

Lemma sublist_removelast {A} (l : list A) : removelast l `sublist_of` l.
Proof.
  induction l as [|x [|y l] IH]; simpl; [done| |].
  - apply sublist_nil_l.
  - by apply sublist_skip.
Qed.

(** Draining the queue touches the counts and the posted events only. *)
Lemma drain_frame msgs g :
  let g' := (drain msgs g).2 in
  (drain msgs g).1 = Ok tt
  ∧ download_queue g' = download_queue g ∧ queue_text g' = queue_text g
  ∧ next_oid g' = next_oid g ∧ session_active g' = session_active g
  ∧ current_download g' = current_download g
  ∧ fetch_threads g' = fetch_threads g.
Proof.
  revert g. induction msgs as [|m msgs IH]; intros g; [done|].
  cbn [drain]. cbv zeta.
  assert (Hm : ∃ g1, drain_msg m g = (Ok tt, g1)
             ∧ download_queue g1 = download_queue g ∧ queue_text g1 = queue_text g
             ∧ next_oid g1 = next_oid g ∧ session_active g1 = session_active g
             ∧ current_download g1 = current_download g
             ∧ fetch_threads g1 = fetch_threads g).
  { unfold drain_msg, update_counters. unfold_M.
    destruct m; simpl; eexists; (split; [reflexivity|]);
      repeat (case_match; simpl); done. }
  destruct Hm as (g1 & Hrun & H1 & H2 & H3 & H4 & H5 & H6).
  rewrite (bind_ok _ _ _ _ _ Hrun).
  destruct (IH g1) as (? & ? & ? & ? & ? & ? & ?). cbv zeta in *.
  repeat split; congruence.
Qed.

Lemma view_queue_wf clicks g :
  gui_wf g →
  gui_wf (view_queue clicks g).2
  ∧ session_active (view_queue clicks g).2 = session_active g
  ∧ current_download (view_queue clicks g).2 = current_download g.
Proof.
  revert g. induction clicks as [|c clicks IH]; intros g Hwf; [done|].
  cbn [view_queue].
  assert (Hc : ∃ g1, delete_selected c g = (Ok tt, g1) ∧ gui_wf g1
               ∧ session_active g1 = session_active g
               ∧ current_download g1 = current_download g).
  { unfold delete_selected, update_queue_display, update_counters. unfold_M.
    destruct c as [i|]; [|by exists g]. simpl.
    destruct (i <? length (download_queue g)); [|by exists g]. simpl.
    eexists. split; [reflexivity|].
    destruct (session_active g) eqn:Hs; simpl; rewrite ?Hs.
    all: split; [|done].
    all: apply (gui_wf_step g);
      [done| |done|simpl; rewrite ?Hs; first [done | intros _; by apply Hwf]].
    all: left; simpl; split; [apply sublist_delete|done]. }
  destruct Hc as (g1 & Hrun & Hwf1 & Hs1 & Hc1).
  rewrite (bind_ok _ _ _ _ _ Hrun).
  destruct (IH g1 Hwf1) as (? & ? & ?). split; [done|]. split; congruence.
Qed.

(** Every handler keeps the state of the loop in order. *)
Lemma handle_wf ev vals g : gui_wf g → gui_wf (handle ev vals g).2.
Proof.
  intros Hwf. pose proof Hwf as (Htext & Hnd & Hlt & Hok & Hcur).
  destruct ev as [| | | | |clicks| | | |ok folder create_sub made| | |m].
  - done.
  - done.
  - done.
  - (* Add to queue *)
    unfold handle, add_to_queue, set_status, update_queue_display. unfold_M.
    destruct (negb (String.eqb (str_strip (v_url vals)) EmptyString)); [|done].
    destruct (negb _); simpl; [done|].
    apply (gui_wf_step g); [done| |done|done].
    right. by eexists.
  - (* Clear queue *)
    unfold handle, update_queue_display, update_counters. unfold_M. simpl.
    destruct (session_active g) eqn:Hs; simpl.
    all: apply (gui_wf_step g);
      [done|left; split; [apply sublist_nil_l|done]|done
      |simpl; rewrite ?Hs; first [done | intros _; by apply Hcur]].
  - (* the queue window *)
    unfold handle.
    destruct (view_queue_wf clicks g Hwf) as (Hwf' & _).
    unfold_M. by destruct (view_queue clicks g) as [[[]|e] g1].
  - (* Remove last *)
    unfold handle, update_queue_display, update_counters. unfold_M. simpl.
    destruct (negb _); simpl; [|done].
    destruct (session_active g) eqn:Hs; simpl.
    all: apply (gui_wf_step g);
      [done|left; split; [apply sublist_removelast|done]|done
      |simpl; rewrite ?Hs; first [done | intros _; by apply Hcur]].
  - done.
  - done.
  - (* the folder dialog *)
    unfold handle. unfold_M.
    destruct (ok && _); simpl; [|done]. by destruct made.
  - (* Download *)
    unfold handle, set_status. unfold_M. simpl.
    destruct (last (download_queue g)) as [newest|]; [|done].
    destruct (current_download g) as [cur|]; [done|].
    destruct (0 <? initial_total g)%Z; [|done].
    destruct (concurrent_mode g); simpl; [|done].
    destruct (py_isdigit _); simpl; [|done].
    by destruct (int_of_digits _).
  - (* Cancel *)
    unfold handle, set_status, update_counters. unfold_M. simpl. done.
  - (* the messages of the job *)
    destruct m as [text|pc| | |info|]; try done.
    + unfold handle. unfold_M. simpl.
      destruct (last (download_queue g)) as [newest|]; [|done].
      destruct (current_download g) as [cur|]; [|done].
      destruct (playlist_info_eqb _ _); [|done].
      unfold update_queue_display. simpl.
      apply (gui_wf_step g);
        [done|left; split; [apply sublist_removelast|done]|done|done].
    + unfold handle. unfold_M. simpl. by destruct (negb _).
Qed.

(** What [get_playlist_info] hands to [fetch_title]: a resolved entry, or
    the empty one. *)
Lemma get_playlist_info_cases extract_info u :
  ∃ info, (get_playlist_info extract_info u []).1 = Ok info
    ∧ ((1 ≤ total info)%Z ∨ info = PlaylistInfo (sanitize_filename u) u 0 []).
Proof.
  destruct (resolve_loop_spec extract_info u (seq 0 3) []) as (info & j & _ & Hrun & Hres).
  exists info. unfold get_playlist_info. rewrite Hrun. split; [done|].
  destruct (j <? length (seq 0 3)); [left; apply Hres|by right].
Qed.

Lemma failed_info_differs u it :
  entry_ok it →
  playlist_info_eqb (dict it) (PlaylistInfo (sanitize_filename u) u 0 []) = false.
Proof.
  intros [Htemp|Htotal]; unfold playlist_info_eqb; cbn [title total url entries].
  - rewrite Htemp. unfold temp_item_dict. cbn [title total url entries].
    destruct (String.eqb_spec "Loading..." (sanitize_filename u)) as [Heq|]; [|done].
    destruct (sanitize_filename_no_trailing_dot u). by rewrite <- Heq.
  - destruct (Z.eqb_spec (total (dict it)) 0) as [Heq|]; [lia|].
    by rewrite andb_false_r.
Qed.

Lemma list_remove_by_oid x l :
  NoDup (oid <$> l) →
  (∀ y, y ∈ l → oid y ≠ oid x → playlist_info_eqb (dict y) (dict x) = false) →
  (list_remove x l = None ∧ Forall (fun y => oid y ≠ oid x) l)
  ∨ ∃ l', list_remove x l = Some l' ∧ l' `sublist_of` l
          ∧ Forall (fun y => oid y ≠ oid x) l'.
Proof.
  induction l as [|y l IH]; intros Hnd H; [by left|].
  rewrite fmap_cons in Hnd. apply NoDup_cons in Hnd as [Hy Hnd]. cbn [list_remove].
  destruct (Nat.eqb_spec (oid y) (oid x)) as [Heq|Hne]; cbn [orb].
  - right. exists l. split; [done|]. split; [by apply sublist_cons|].
    apply Forall_forall. intros z Hz Hzx. apply Hy. rewrite Heq, <- Hzx.
    apply list_elem_of_fmap. by exists z.
  - rewrite (H y) by (done || by left).
    destruct IH as [[-> Hall]|(l' & -> & Hsub & Hall)]; [done| | |].
    + intros z Hz. apply H. by right.
    + left. split; [done|]. by constructor.
    + right. exists (y :: l'). split; [done|]. split; [by apply sublist_skip|].
      by constructor.
Qed.

Lemma update_object_queue n info q :
  let upd it := if oid it =? n then Item n info else it in
  oid <$> (upd <$> q) = oid <$> q
  ∧ (Forall (fun y => oid y ≠ n) q → upd <$> q = q)
  ∧ ∀ y, y ∈ upd <$> q → oid y ≠ n → y ∈ q.
Proof.
  intros upd. split; [|split].
  - rewrite <- list_fmap_compose. apply list_fmap_ext. intros i it _. unfold upd. simpl.
    by destruct (Nat.eqb_spec (oid it) n).
  - intros Hall. rewrite <- (list_fmap_id q) at 2. apply list_fmap_ext.
    intros i it Hit. unfold upd.
    pose proof (Forall_lookup_1 _ _ _ _ Hall Hit) as Hne. simpl in Hne.
    by destruct (Nat.eqb_spec (oid it) n).
  - intros y Hy Hne. apply list_elem_of_fmap in Hy as (it & -> & Hit). unfold upd in *.
    by destruct (Nat.eqb_spec (oid it) n).
Qed.

(** The thread that resolves a URL keeps the state of the loop in order,
    also when the entry it works for has left the queue. *)
Lemma fetch_title_wf extract_info k g :
  gui_wf g → gui_wf (fetch_title extract_info k g).2.
Proof.
  intros Hwf. pose proof Hwf as (Htext & Hnd & Hlt & Hok & Hcur).
  unfold fetch_title. unfold_M. simpl.
  destruct (fetch_threads g !! k) as [[n u]|]; [|done]. simpl.
  destruct (get_playlist_info_cases extract_info u) as (info & -> & Hinfo).
  destruct (update_object_queue n info (download_queue g)) as (Hoid & Hsame & Hin).
  cbv zeta in *.
  set (upd := fun it : item => if oid it =? n then Item n info else it) in *.
  assert (Hlt' : Forall (fun it => oid it < next_oid g) (upd <$> download_queue g)).
  { apply Forall_fmap. eapply Forall_impl; [exact Hlt|]. intros it Hit. unfold upd.
    simpl. by destruct (Nat.eqb_spec (oid it) n) as [<-|]. }
  assert (Hnd' : NoDup (oid <$> (upd <$> download_queue g))) by (by rewrite Hoid).
  set (g1 := set_fetch_threads (delete k (fetch_threads g)) g).
  assert (Hq2 : download_queue (update_object n info g1) = upd <$> download_queue g)
    by reflexivity.
  assert (Ht2 : queue_text (update_object n info g1) = queue_text g) by reflexivity.
  assert (Hn2 : next_oid (update_object n info g1) = next_oid g) by reflexivity.
  assert (Hs2 : session_active (update_object n info g1) = session_active g)
    by reflexivity.
  assert (Hc2 : current_download (update_object n info g1)
                = upd <$> current_download g) by reflexivity.
  set (g2 := update_object n info g1) in *. clearbody g2.
  assert (Hcur2 : session_active g2 = false → current_download g2 = None).
  { rewrite Hs2, Hc2. intros Hs. by rewrite Hcur. }
  destruct (Z.eqb_spec (total info) 0) as [H0|H0].
  - destruct Hinfo as [?|Hinfo]; [lia|].
    rewrite Hq2.
    destruct (list_remove_by_oid (Item n info) (upd <$> download_queue g))
      as [[-> Hall]|(q' & -> & Hsub & Hall)].
    { by rewrite Hoid. }
    { intros y Hy Hne. cbn [dict]. rewrite Hinfo. apply failed_info_differs.
      eapply Forall_forall in Hok; [done|]. by apply Hin. }
    + cbn [snd]. unfold gui_wf. rewrite Hq2, Ht2, Hn2.
      rewrite Hsame.
      * done.
      * apply Forall_forall. intros y Hy.
        destruct (decide (oid y = n)) as [Heq|]; [|done].
        eapply Forall_forall in Hall; [|apply list_elem_of_fmap; by exists y].
        unfold upd in Hall. cbn [oid] in Hall. rewrite Heq, Nat.eqb_refl in Hall.
        done.
    + unfold set_status, update_queue_display. unfold_M. simpl.
      unfold gui_wf. simpl.
      split; [done|].
      split; [eapply sublist_NoDup; [exact Hnd'|by apply fmap_sublist]|].
      rewrite Hn2. split; [|split; [|done]].
      * apply Forall_forall. intros it Hit.
        eapply Forall_forall in Hlt'; [done|]. by eapply elem_of_sublist.
      * apply Forall_forall. intros it Hit.
        eapply Forall_forall in Hok; [done|]. apply Hin.
        -- by eapply elem_of_sublist.
        -- by eapply Forall_forall in Hall.
  - destruct Hinfo as [Hinfo|Hinfo]; [|by rewrite Hinfo in H0].
    unfold set_status, update_queue_display, update_counters. unfold_M. simpl.
    assert (Hok' : Forall entry_ok (upd <$> download_queue g)).
    { apply Forall_fmap. eapply Forall_impl; [exact Hok|]. intros it Hit. unfold upd.
      simpl. destruct (Nat.eqb_spec (oid it) n); [by right|done]. }
    destruct (session_active g2) eqn:Hs; unfold gui_wf; simpl;
      rewrite ?Hs, ?Hq2, ?Hn2.
    + split; [done|]. split; [exact Hnd'|]. done.
    + split; [done|]. split; [exact Hnd'|]. split; [done|]. split; [done|].
      intros _. by apply Hcur2.
Qed.

(** X14: the state of the loop stays in order, whatever the events, the
    messages of the jobs and the results of the look-ups: the queue text
    shows the queue, the entries of the queue are distinct dictionaries
    made earlier, each one a placeholder or a resolved entry with at least
    one item (a failed look-up leaves nothing behind), and a download is
    current only during a session. *)
Theorem loop_keeps_state_in_order g :
  gui_wf g →
  (∀ msgs ev vals, gui_wf (loop_iteration msgs ev vals g).2)
  ∧ (∀ extract_info k, gui_wf (fetch_title extract_info k g).2).
Proof.
  intros Hwf. split; [|intros; by apply fetch_title_wf].
  intros msgs ev vals. unfold loop_iteration.
  destruct (drain_frame msgs g) as (Hok & Hq & Ht & Hn & Hs & Hc & _).
  cbv zeta in *.
  destruct (drain msgs g) as [[[]|e] g1] eqn:Hrun; [|done].
  rewrite (bind_ok _ _ _ _ _ Hrun). apply handle_wf. cbn [fst snd] in *.
  destruct Hwf as (H1 & H2 & H3 & H4 & H5).
  unfold gui_wf. rewrite Hq, Ht, Hn, Hs, Hc. done.
Qed.

Lemma loop_keeps_state_in_order_witness : gui_wf gui_resolved.
Proof.
  refine (proj2 (loop_keeps_state_in_order gui_added _) extract_two 0).
  refine (proj1 (loop_keeps_state_in_order (gui_init "/dl" true) _)
            [] ADD_QUEUE values_url).
  repeat split; [constructor|constructor|constructor].
Defined.

(* ===================================================================== *)
(** * The look-up thread and its entry                                    *)
(* ===================================================================== *)

Lemma list_remove_own x x' l1 l2 :
  oid x' = oid x →
  Forall (fun y => oid y ≠ oid x ∧ playlist_info_eqb (dict y) (dict x) = false) l1 →
  list_remove x (l1 ++ x' :: l2) = Some (l1 ++ l2).
Proof.
  intros Hx. induction 1 as [|y l1 [Hne Hv] _ IH]; cbn [list_remove app].
  - by rewrite Hx, Nat.eqb_refl.
  - destruct (Nat.eqb_spec (oid y) (oid x)) as [|_]; [done|].
    rewrite Hv, IH. done.
Qed.

Lemma list_remove_absent x l :
  Forall (fun y => oid y ≠ oid x ∧ playlist_info_eqb (dict y) (dict x) = false) l →
  list_remove x l = None.
Proof.
  induction 1 as [|y l [Hne Hv] _ IH]; cbn [list_remove]; [done|].
  destruct (Nat.eqb_spec (oid y) (oid x)) as [|_]; [done|].
  by rewrite Hv, IH.
Qed.

(** X15: the thread that looks a URL up changes its own entry only,
    wherever that entry stands in the queue by then: a look-up that found
    nothing (total 0) takes the placeholder out, any other fills the
    placeholder in, in place; all other entries stay as they are, in their
    order.  If the entry has left the queue in the meantime, the queue is
    left alone. *)
Theorem lookup_changes_its_own_entry extract_info k n u info g :
  let g' := (fetch_title extract_info k g).2 in
  gui_wf g →
  fetch_threads g !! k = Some (n, u) →
  (get_playlist_info extract_info u []).1 = Ok info →
  fetch_threads g' = delete k (fetch_threads g)
  ∧ (∀ l1 d l2,
       download_queue g = l1 ++ Item n d :: l2 →
       download_queue g'
       = l1 ++ (if (total info =? 0)%Z then [] else [Item n info]) ++ l2)
  ∧ (Forall (fun it => oid it ≠ n) (download_queue g) →
     download_queue g' = download_queue g).
Proof.
  intros g' (Htext & Hnd & Hlt & Hok & Hcur) Hk Hinfo. unfold g'. clear g'.
  destruct (get_playlist_info_cases extract_info u) as (info' & Hinfo' & Hcases).
  rewrite Hinfo in Hinfo'. injection Hinfo' as <-.
  destruct (update_object_queue n info (download_queue g)) as (Hoid & Hsame & Hin).
  cbv zeta in *.
  set (upd := fun it : item => if oid it =? n then Item n info else it) in *.
  unfold fetch_title. unfold mbind, M_bind, bind, gets, modify. cbn [fst snd].
  rewrite Hk. cbn [fst snd]. rewrite Hinfo.
  set (g1 := set_fetch_threads (delete k (fetch_threads g)) g).
  assert (Hq2 : download_queue (update_object n info g1) = upd <$> download_queue g)
    by reflexivity.
  assert (Hf2 : fetch_threads (update_object n info g1) = delete k (fetch_threads g))
    by reflexivity.
  set (g2 := update_object n info g1) in *. clearbody g2.
  assert (Hparts : ∀ l1 d l2, download_queue g = l1 ++ Item n d :: l2 →
            upd <$> download_queue g = l1 ++ Item n info :: l2
            ∧ Forall (fun y => oid y ≠ n ∧ entry_ok y) l1).
  { intros l1 d l2 Hq. rewrite Hq in Hnd, Hok |- *.
    rewrite fmap_app, fmap_cons in Hnd. cbn [oid] in Hnd.
    apply NoDup_app in Hnd as (_ & Hl1 & Hnd). apply NoDup_cons in Hnd as [Hl2 _].
    apply Forall_app in Hok as [Hok1 Hok2].
    assert (H1 : Forall (fun y => oid y ≠ n) l1).
    { apply Forall_forall. intros y Hy Heq. apply (Hl1 n).
      - apply list_elem_of_fmap. by exists y.
      - by left. }
    assert (H2 : Forall (fun y => oid y ≠ n) l2).
    { apply Forall_forall. intros y Hy Heq. apply Hl2.
      apply list_elem_of_fmap. by exists y. }
    split.
    - rewrite fmap_app, fmap_cons. f_equal; [|f_equal].
      + rewrite <- (list_fmap_id l1) at 2. apply list_fmap_ext. intros i y Hy.
        pose proof (Forall_lookup_1 _ _ _ _ H1 Hy) as Hne. unfold upd. simpl.
        by destruct (Nat.eqb_spec (oid y) n).
      + unfold upd. cbn [oid]. by rewrite Nat.eqb_refl.
      + rewrite <- (list_fmap_id l2) at 2. apply list_fmap_ext. intros i y Hy.
        pose proof (Forall_lookup_1 _ _ _ _ H2 Hy) as Hne. unfold upd. simpl.
        by destruct (Nat.eqb_spec (oid y) n).
    - apply Forall_forall. intros y Hy. split.
      + by eapply Forall_forall in H1.
      + by eapply Forall_forall in Hok1. }
  destruct (Z.eqb_spec (total info) 0) as [H0|H0].
  - destruct Hcases as [?|Hfailed]; [lia|].
    unfold mbind, M_bind, bind, gets. cbn [fst snd]. rewrite Hq2.
    split; [|split].
    + destruct (list_remove _ _); unfold set_status, update_queue_display, modify,
        mbind, M_bind, bind, raise; cbn [fst snd]; done.
    + intros l1 d l2 Hq. destruct (Hparts l1 d l2 Hq) as [-> Hl1].
      rewrite (list_remove_own (Item n info) (Item n info) l1 l2); [|done|].
      * unfold set_status, update_queue_display, modify, mbind, M_bind, bind.
        cbn [fst snd]. done.
      * eapply Forall_impl; [exact Hl1|]. intros y [Hne Hy]. split; [done|].
        cbn [dict]. rewrite Hfailed. by apply failed_info_differs.
    + intros Hall. rewrite (Hsame Hall).
      rewrite list_remove_absent.
      * unfold raise. cbn [fst snd]. rewrite Hq2. by apply Hsame.
      * apply Forall_forall. intros y Hy. split.
        -- by eapply Forall_forall in Hall.
        -- cbn [dict]. rewrite Hfailed. apply failed_info_differs.
           by eapply Forall_forall in Hok.
  - unfold set_status, update_queue_display, update_counters, modify,
      mbind, M_bind, bind. cbn [fst snd session_active set_queue_text].
    destruct (session_active g2);
      cbn [download_queue fetch_threads set_status_txt set_initial_total
           set_queue_text]; rewrite Hq2; (split; [exact Hf2|]); (split; [|apply Hsame]);
      intros l1 d l2 Hq; by destruct (Hparts l1 d l2 Hq) as [-> _].
Qed.

Lemma lookup_changes_its_own_entry_witness :
  fetch_threads gui_resolved = [].
Proof.
  refine (proj1 (lookup_changes_its_own_entry extract_two 0 0
                   "https://www.youtube.com/playlist?list=PL1"
                   (PlaylistInfo "My list" "https://www.youtube.com/playlist?list=PL1" 2
                      [YtDict (Val "a1") Absent (Val "One") Absent;
                       YtDict (Val "a2") Absent (Val "Two") Absent])
                   gui_added _ _ _)).
  - vm_compute. split; [reflexivity|]. split; [repeat constructor; set_solver|].
    split; [repeat constructor|]. split; [|reflexivity].
    repeat constructor.
  - reflexivity.
  - reflexivity.
Defined.

(* ===================================================================== *)
(** * The end of a job, as the loop meets it                              *)
(* ===================================================================== *)

(** The messages other than the two counts are posted as events, in the
    order of the queue. *)
Lemma drain_posted msgs g :
  posted (drain msgs g).2
  = posted g ++ (PostMsg <$> List.filter (fun m => negb (is_counter_msg m)) msgs).
Proof.
  revert g. induction msgs as [|m msgs IH]; intros g.
  - simpl. by rewrite app_nil_r.
  - cbn [drain].
    assert (Hm : ∃ g1, drain_msg m g = (Ok tt, g1)
               ∧ posted g1 = posted g ++ (if is_counter_msg m then [] else [PostMsg m])).
    { unfold drain_msg, update_counters. unfold_M.
      destruct m; simpl; eexists; (split; [reflexivity|]);
        repeat (case_match; simpl); by rewrite ?app_nil_r. }
    destruct Hm as (g1 & Hrun & Hp).
    rewrite (bind_ok _ _ _ _ _ Hrun), IH, Hp. cbn [List.filter].
    destruct (is_counter_msg m); cbn [negb]; [by rewrite app_nil_r|].
    by rewrite fmap_cons, <- app_assoc.
Qed.

Lemma read_posted_fold g :
  read_posted g = foldl read_event (set_posted [] g) (posted g).
Proof. reflexivity. Qed.

(** The events of the items of a job change the status text at most. *)
Lemma read_item_events msgs g :
  Forall is_item_msg msgs →
  let g' := foldl read_event g
                  (PostMsg <$> List.filter (fun m => negb (is_counter_msg m)) msgs) in
  download_queue g' = download_queue g ∧ current_download g' = current_download g
  ∧ session_active g' = session_active g ∧ posted g' = posted g.
Proof.
  intros Hall. revert g. induction Hall as [|m msgs Hm _ IH]; intros g; [done|].
  cbn [List.filter].
  destruct m as [text|pc| | |info|]; try done; cbn [is_counter_msg negb].
  - exact (IH (read_event g (PostMsg (STATUS text)))).
  - exact (IH (read_event g (PostMsg (FILE_PROGRESS pc)))).
Qed.

Lemma field_eqb_refl {A} (eqb : A -> A -> bool) (a : field A) :
  (∀ x, a = Val x → eqb x x = true) → field_eqb eqb a a = true.
Proof. destruct a; simpl; auto. Qed.

Lemma ytdict_eqb_refl : ∀ d, ytdict_eqb d d = true.
Proof.
  fix IH 1. intros [i u t e]. cbn [ytdict_eqb].
  rewrite !field_eqb_refl by (intros; apply String.eqb_refl). cbn [andb].
  destruct e as [| |l]; [done|done|]. cbn [field_eqb].
  induction l as [|d l IHl]; [done|]. rewrite IH, IHl. done.
Qed.

Lemma playlist_info_eqb_refl info : playlist_info_eqb info info = true.
Proof.
  unfold playlist_info_eqb. rewrite !String.eqb_refl, Z.eqb_refl. cbn [andb].
  induction (entries info) as [|d l IHl]; [done|].
  cbn [ytdicts_eqb]. by rewrite ytdict_eqb_refl, IHl.
Qed.

(** X16: the end of a job that completed, as the loop meets it.  When all
    its messages are taken from the queue and read, there is no current
    download and no session any more; the newest entry of the queue is
    taken out if it equals the dictionary of the download (so in
    particular when it still is that dictionary), and left in otherwise,
    as is the rest of the queue; and a Download event is posted if the
    queue is not empty then.  So when an Add to queue was handled while
    the job ran, the finished entry stays in the queue behind the new one,
    and the posted Download starts the new one. *)
Theorem completed_job_leaves_queue W TW sched paths p c g cur newest :
  let msgs := sent (proc_run W TW sched paths p).2 in
  let g' := read_posted (after (loop_iteration msgs TIMEOUT values_idle) g) in
  (proc_run W TW sched paths p).1 = Ok (Some c) →
  posted g = [] →
  current_download g = Some cur →
  last (download_queue g) = Some newest →
  current_download g' = None ∧ session_active g' = false
  ∧ download_queue g'
    = (if playlist_info_eqb (dict cur) (dict newest)
       then removelast (download_queue g) else download_queue g)
  ∧ (cur = newest → download_queue g' = removelast (download_queue g))
  ∧ posted g' = (if bool_decide (download_queue g' = []) then [] else [PostDownload]).
Proof.
  intros msgs g' Hrun Hposted Hcur Hlast.
  destruct (proc_run_messages W TW sched paths p) as (evs & Hsent & _ & _ & Hres).
  rewrite Hrun in Hres. destruct Hres as ((pre & text & -> & Hpre) & _).
  assert (Hg1 : ∃ g1, after (loop_iteration msgs TIMEOUT values_idle) g = g1
                ∧ download_queue g1 = download_queue g
                ∧ current_download g1 = current_download g
                ∧ posted g1
                  = PostMsg <$> List.filter (fun m => negb (is_counter_msg m)) msgs).
  { eexists. split; [reflexivity|]. unfold after, loop_iteration.
    destruct (drain_frame msgs g) as (Hok & Hq & _ & _ & _ & Hc & _).
    pose proof (drain_posted msgs g) as Hp. cbv zeta in *.
    destruct (drain msgs g) as [[[]|e] g1] eqn:Hd; [|done].
    rewrite (bind_ok _ _ _ _ _ Hd). cbn [handle ret snd fst] in *.
    by rewrite Hq, Hc, Hp, Hposted. }
  destruct Hg1 as (g1 & Hg1 & Hq1 & Hc1 & Hp1).
  unfold g'. rewrite Hg1, read_posted_fold, Hp1. unfold msgs. rewrite Hsent.
  rewrite <- !app_assoc. rewrite List.filter_app, fmap_app, foldl_app.
  destruct (read_item_events pre (set_posted [] g1) Hpre) as (Hq2 & Hc2 & _ & Hp2).
  cbv zeta in *.
  set (g2 := foldl read_event (set_posted [] g1) _) in *. clearbody g2.
  cbn [app List.filter is_counter_msg negb fmap list_fmap foldl].
  assert (Hq2' : download_queue g2 = download_queue g) by (by rewrite Hq2).
  assert (Hc2' : current_download g2 = Some cur) by (by rewrite Hc2, <- Hcur).
  assert (Hp2' : posted g2 = []) by (by rewrite Hp2).
  clear Hq2 Hc2 Hp2.
  unfold read_event, after, handle, set_status, update_queue_display.
  unfold_M. simpl. rewrite Hq2', Hc2', Hlast. simpl.
  destruct (playlist_info_eqb (dict cur) (dict newest)) eqn:Heq; simpl.
  - destruct (bool_decide (removelast (download_queue g) = [])) eqn:Hb; simpl;
      rewrite ?Hb, ?Hp2'; done.
  - rewrite Hq2'.
    destruct (bool_decide (download_queue g = [])) eqn:Hb; simpl;
      rewrite ?Hq2', ?Hb, ?Hp2'; (split; [done|]); (split; [done|]);
      (split; [done|]); (split; [|done]);
      intros ->; by rewrite playlist_info_eqb_refl in Heq.
Qed.

Lemma completed_job_leaves_queue_witness :
  let p := default (Process None one_song EmptyString EmptyString false)
                   (download_proc gui_started) in
  let msgs := sent (proc_run world_ok (fun _ => world_ok) (fun _ => 0) paths0 p).2 in
  let g' := read_posted
              (after (loop_iteration msgs TIMEOUT values_idle) gui_added_during) in
  length (download_queue g') = 2 ∧ posted g' = [PostDownload].
Proof.
  intros p msgs g'.
  destruct (completed_job_leaves_queue world_ok (fun _ => world_ok) (fun _ => 0)
              paths0 p (2%Z, 2%Z) gui_added_during
              (default (Item 0 one_song) (current_download gui_added_during))
              (default (Item 0 one_song) (last (download_queue gui_added_during))))
    as (_ & _ & Hq & _ & Hp).
  - vm_compute. reflexivity.
  - reflexivity.
  - reflexivity.
  - reflexivity.
  - fold msgs in Hq, Hp. fold g' in Hq, Hp. split.
    + rewrite Hq. reflexivity.
    + rewrite Hp, Hq. reflexivity.
Defined.

(* ===================================================================== *)
(** * The number of simultaneous downloads                                *)
(* ===================================================================== *)

Lemma pretty_N_char_digit d :
  (d < 10)%N → nat_of_ascii (pretty_N_char d) = 48 + N.to_nat d.
Proof.
  intros Hd.
  assert (d = 0 ∨ d = 1 ∨ d = 2 ∨ d = 3 ∨ d = 4 ∨ d = 5 ∨ d = 6 ∨ d = 7 ∨ d = 8
          ∨ d = 9)%N as Hcases by lia.
  repeat (destruct Hcases as [->|Hcases]; [reflexivity|]). by subst.
Qed.

Lemma ascii_digit_pretty_char d : (d < 10)%N → ascii_digit (pretty_N_char d) = true.
Proof.
  intros Hd. unfold ascii_digit. cbv zeta. rewrite pretty_N_char_digit by done.
  apply andb_true_iff. split; apply Nat.leb_le; lia.
Qed.

Lemma int_of_digits_go_pretty_go x :
  ∃ k : Z, (0 ≤ k)%Z ∧ ∀ acc s,
    int_of_digits_go acc (pretty_N_go x s)
    = int_of_digits_go (acc * 10 ^ k + Z.of_N x) s.
Proof.
  induction (N.lt_wf_0 x) as [x _ IH].
  destruct (decide (x = 0%N)) as [->|Hx].
  - exists 0%Z. split; [done|]. intros acc s. rewrite pretty_N_go_0. f_equal.
    rewrite Z.pow_0_r. lia.
  - destruct (IH (x `div` 10)%N) as (k & Hk & Hgo); [apply N.div_lt; lia|].
    exists (k + 1)%Z. split; [lia|]. intros acc s.
    rewrite pretty_N_go_step by lia. rewrite Hgo. cbn [int_of_digits_go].
    rewrite ascii_digit_pretty_char by (apply N.mod_lt; lia).
    rewrite pretty_N_char_digit by (apply N.mod_lt; lia).
    pose proof (N.mod_lt x 10 ltac:(done)) as Hm.
    pose proof (N.div_mod x 10 ltac:(done)) as Hdm.
    set (d := (x `mod` 10)%N) in *. set (q := (x `div` 10)%N) in *.
    f_equal. rewrite Z.pow_add_r by lia.
    replace (48 + N.to_nat d - 48) with (N.to_nat d) by lia.
    rewrite N_nat_Z. rewrite Hdm. rewrite N2Z.inj_add, N2Z.inj_mul. lia.
Qed.

Lemma int_of_digits_go_pretty (n : N) :
  int_of_digits_go 0 (pretty n) = Some (Z.of_N n).
Proof.
  unfold pretty, pretty_N. case_decide as Hn; [by subst|].
  destruct (int_of_digits_go_pretty_go n) as (k & _ & ->). cbn [int_of_digits_go].
  f_equal; lia.
Qed.

Lemma digit_prefix_length_le s : digit_prefix_length s ≤ String.length s.
Proof.
  induction s as [|c s IH]; cbn [digit_prefix_length String.length]; [done|].
  destruct (ascii_digit c); lia.
Qed.

Lemma digit_prefix_length_all s :
  str_forallb ascii_digit s = true → digit_prefix_length s = String.length s.
Proof.
  induction s as [|c s IH]; cbn [digit_prefix_length String.length str_forallb];
    [done|].
  destruct (ascii_digit c); [|done]. cbn [andb]. intros H. by rewrite IH.
Qed.

Lemma py_isdigit_pretty (n : N) : py_isdigit (pretty n) = true.
Proof.
  assert (HP : ∀ d, (d < 10)%N → py_isdigit_char (pretty_N_char d) = true).
  { intros d Hd.
    assert (d = 0 ∨ d = 1 ∨ d = 2 ∨ d = 3 ∨ d = 4 ∨ d = 5 ∨ d = 6 ∨ d = 7 ∨ d = 8
            ∨ d = 9)%N as Hcases by lia.
    repeat (destruct Hcases as [->|Hcases]; [reflexivity|]). by subst. }
  unfold pretty, pretty_N. case_decide as Hn; [by subst|].
  unfold py_isdigit. apply andb_true_iff. split.
  - rewrite pretty_N_go_step by lia.
    destruct (str_forallb_pretty_go py_isdigit_char (n `div` 10)%N
                (String (pretty_N_char (n `mod` 10)) EmptyString) HP) as [_ Hne].
    destruct (String.eqb_spec (pretty_N_go (n `div` 10)
                                 (String (pretty_N_char (n `mod` 10)) EmptyString))
                              EmptyString) as [Heq|]; [|done].
    by destruct Hne.
  - by destruct (str_forallb_pretty_go py_isdigit_char n EmptyString HP) as [-> _].
Qed.

Lemma int_of_digits_pretty (n : N) :
  String.length (pretty n) ≤ int_max_str_digits →
  int_of_digits (pretty n) = Ok (Z.of_N n).
Proof.
  intros Hlen. unfold int_of_digits. cbv zeta.
  pose proof (digit_prefix_length_le (pretty n)) as Hle.
  destruct (Nat.ltb_spec int_max_str_digits (digit_prefix_length (pretty n)));
    [lia|].
  rewrite int_of_digits_go_pretty.
  pose proof (py_isdigit_pretty n) as Hd. unfold py_isdigit in Hd.
  by destruct (pretty n).
Qed.

Lemma int_of_digits_go_none s acc :
  str_forallb ascii_digit s = false → int_of_digits_go acc s = None.
Proof.
  revert acc. induction s as [|c s IH]; intros acc;
    cbn [str_forallb int_of_digits_go]; [done|].
  destruct (ascii_digit c); [|done]. cbn [andb]. apply IH.
Qed.

Lemma int_of_digits_raises s :
  str_forallb ascii_digit s = false ∨ int_max_str_digits < String.length s →
  ∃ e, int_of_digits s = Raise e ∧ exn_cls e = ValueError.
Proof.
  intros H. unfold int_of_digits. cbv zeta.
  destruct (Nat.ltb_spec int_max_str_digits (digit_prefix_length s)) as [|Hle];
    [eexists; split; reflexivity|].
  destruct (str_forallb ascii_digit s) eqn:Hall.
  - destruct H as [|H]; [done|]. rewrite digit_prefix_length_all in Hle by done. lia.
  - rewrite int_of_digits_go_none by done.
    destruct s; eexists; split; reflexivity.
Qed.

Lemma int_of_digits_limit s :
  str_forallb ascii_digit s = true → int_max_str_digits < String.length s →
  int_of_digits s = Raise (exceeds_limit (String.length s)).
Proof.
  intros Hall Hlen. unfold int_of_digits. cbv zeta.
  rewrite digit_prefix_length_all by done.
  by destruct (Nat.ltb_spec int_max_str_digits (String.length s)); [|lia].
Qed.

(** X17: the number of workers of a concurrent job, as the Download handler
    takes it from the input.  A text that is not made of digits gives 10; a
    decimal numeral of at most 4300 digits gives its number, 0 included
    (with which the job then fails); and a text that passes [isdigit]
    without being such a numeral (it holds a superscript two, say, or has
    more than 4300 digits) makes [int] raise ValueError out of the loop,
    after the session has been marked active and before any process is
    started. *)
Theorem worker_count_from_input vals g newest :
  let text := v_concurrent_count vals in
  let r := handle DOWNLOAD vals g in
  last (download_queue g) = Some newest →
  current_download g = None →
  (0 < initial_total g)%Z →
  concurrent_mode g = true →
  (py_isdigit text = false →
   r.1 = Ok true ∧ proc_max_workers <$> download_proc r.2 = Some (Some 10%Z))
  ∧ (∀ n : N, text = pretty n → String.length text ≤ int_max_str_digits →
       r.1 = Ok true
       ∧ proc_max_workers <$> download_proc r.2 = Some (Some (Z.of_N n)))
  ∧ (py_isdigit text = true →
     str_forallb ascii_digit text = false
     ∨ int_max_str_digits < String.length text →
     (∃ e, r.1 = Raise e ∧ exn_cls e = ValueError)
     ∧ session_active r.2 = true ∧ download_proc r.2 = download_proc g).
Proof.
  intros text r Hlast Hcur Htotal Hmode. unfold r, text. clear r text.
  unfold handle, set_status. unfold_M. unfold id. cbn [fst snd].
  rewrite Hlast, Hcur, Hmode. apply Z.ltb_lt in Htotal. rewrite Htotal.
  cbn [fst snd]. split; [|split].
  - intros ->. done.
  - intros n -> Hlen. rewrite py_isdigit_pretty, int_of_digits_pretty by done. done.
  - intros -> Hd. destruct (int_of_digits_raises _ Hd) as (e & -> & He).
    cbn [fst snd]. split; [by eexists|done].
Qed.

Lemma worker_count_from_input_witness :
  proc_max_workers
    <$> download_proc
          (handle DOWNLOAD (Values EmptyString true true "0")
                  (set_concurrent_mode true gui_resolved)).2
  = Some (Some 0%Z).
Proof.
  refine (proj2 (proj1 (proj2
    (worker_count_from_input (Values EmptyString true true "0")
       (set_concurrent_mode true gui_resolved)
       (default (Item 0 one_song) (last (download_queue gui_resolved)))
       _ _ _ _)) 0%N _ _)).
  - reflexivity.
  - reflexivity.
  - reflexivity.
  - reflexivity.
  - reflexivity.
  - vm_compute. lia.
Defined.

(* ===================================================================== *)
(** * The retry loops                                                     *)
(* ===================================================================== *)

Lemma conc_attempts_downloads W rng opts u t s :
  let r := conc_attempts W rng opts u t s in
  downloads r.2 ≤ downloads s + length rng
  ∧ (rng ≠ [] → downloads s < downloads r.2)
  ∧ (r.1 = Ok false → downloads r.2 = downloads s + length rng)
  ∧ (rng ≠ [] → (ydl_run W opts u s).1 = Ok tt →
     r.1 = Ok true ∧ downloads r.2 = S (downloads s)).
Proof.
  revert s. induction rng as [|a rng IH]; intros s.
  - simpl. unfold_M. simpl. split; [lia|]. split; [done|]. split; [lia|done].
  - cbn [conc_attempts length]. cbv zeta.
    destruct (ydl_run_downloads W opts u s) as [Hd _].
    unfold put, time_sleep. unfold_M.
    destruct (ydl_run W opts u s) as [[[]|e] s1]; cbn [fst snd] in *.
    + destruct (1 <? a); cbn [fst snd downloads]; rewrite Hd;
        (split; [lia|]); (split; [lia|]); (split; [done|]); done.
    + destruct (a =? 3); cbn [fst snd];
        (match goal with |- context [conc_attempts W rng opts u t ?s2] =>
           destruct (IH s2) as (H1 & H2 & H3 & _);
           change (downloads s2) with (downloads s1) in H1, H2, H3 end);
        rewrite Hd in *; cbv zeta in *;
        (split; [lia|]);
        (split; [intros _; destruct rng; [simpl in *; lia|];
                 specialize (H2 ltac:(done)); lia|]);
        (split; [intros Hr; rewrite (H3 Hr); lia|done]).
Qed.

Lemma seq_attempts_downloads W rng opts u t s :
  let r := seq_attempts W rng opts u t s in
  downloads s ≤ downloads r.2 ≤ downloads s + length rng
  ∧ (r.1 = Ok false → downloads r.2 = downloads s + length rng).
Proof.
  revert s. induction rng as [|a rng IH]; intros s.
  - simpl. unfold_M. simpl. split; [lia|]. lia.
  - cbn [seq_attempts length]. cbv zeta.
    unfold is_set, put, time_sleep. unfold_M. cbn [fst snd].
    destruct (cancel_is_set W (is_set_calls s)); cbn [fst snd downloads];
      [split; [lia|done]|].
    destruct (1 <? a); cbn [fst snd];
      (match goal with |- context [ydl_run W opts u ?s1] =>
         destruct (ydl_run_downloads W opts u s1) as [Hd _];
         destruct (ydl_run W opts u s1) as [[[]|e] s2] end);
      cbn [fst snd downloads] in *; rewrite ?Hd; try (split; [lia|done]);
      destruct (a =? 3); cbn [fst snd];
      (match goal with |- context [seq_attempts W rng opts u t ?s3] =>
         destruct (IH s3) as (H1 & H3);
         change (downloads s3) with (downloads s2) in H1, H3 end);
      rewrite Hd in *; cbv zeta in *;
      (split; [lia|]); intros Hr; rewrite (H3 Hr); lia.
Qed.

(** X18: an entry is given three downloads at most, under either
    strategy.  The retry loop of an entry starts between one and three
    downloads (none, in the sequential job, if it is cancelled at once), it
    stops at the first one that succeeds, and it has started all three when
    it reports a failure. *)
Theorem entry_tried_at_most_three_times W opts u t s :
  let r1 := seq_attempts W (seq 1 3) opts u t s in
  let r2 := conc_attempts W (seq 1 3) opts u t s in
  downloads s ≤ downloads r1.2 ≤ downloads s + 3
  ∧ (r1.1 = Ok false → downloads r1.2 = downloads s + 3)
  ∧ downloads s + 1 ≤ downloads r2.2 ≤ downloads s + 3
  ∧ (r2.1 = Ok false → downloads r2.2 = downloads s + 3)
  ∧ ((ydl_run W opts u s).1 = Ok tt →
     r2.1 = Ok true ∧ downloads r2.2 = downloads s + 1).
Proof.
  cbv zeta.
  destruct (seq_attempts_downloads W (seq 1 3) opts u t s) as (H1 & H2).
  destruct (conc_attempts_downloads W (seq 1 3) opts u t s) as (H3 & H4 & H5 & H6).
  cbv zeta in *. change (length (seq 1 3)) with 3 in *.
  specialize (H4 ltac:(done)).
  split; [done|]. split; [done|]. split; [lia|]. split; [done|].
  intros Hrun. destruct (H6 ltac:(done) Hrun) as [? ?]. split; [done|lia].
Qed.

(* ===================================================================== *)
(** * The queue window                                                    *)
(* ===================================================================== *)






(* ===================================================================== *)
(** * The configuration file                                              *)
(* ===================================================================== *)

Lemma split_lines_first_line a rest :
  no_linebreak a →
  split_lines (a +:+ String (ascii_of_nat 10) rest)
  = (a, (split_lines rest).1 :: (split_lines rest).2).
Proof.
  unfold no_linebreak. induction a as [|c a IH]; intros Ha.
  - change (EmptyString +:+ ?s) with s. cbn [split_lines].
    change (is_linebreak (ascii_of_nat 10)) with true. cbv iota.
    destruct rest as [|c' rest']; [done|].
    change (nat_of_ascii (ascii_of_nat 10) =? 13) with false. cbn [andb].
    by destruct (split_lines (String c' rest')).
  - cbn [str_forallb] in Ha. apply andb_true_iff in Ha as [Hc Ha].
    apply negb_true_iff in Hc.
    change (String c a +:+ ?s) with (String c (a +:+ s)). cbn [split_lines].
    rewrite Hc, (IH Ha). done.
Qed.

Lemma str_forallb_app P a b :
  str_forallb P (a +:+ b) = str_forallb P a && str_forallb P b.
Proof.
  induction a as [|c a IH]; [done|].
  change (String c a +:+ b) with (String c (a +:+ b)). cbn [str_forallb].
  by rewrite IH, andb_assoc.
Qed.

Lemma load_saved_config desktop base create :
  no_linebreak base →
  load_config desktop (Some (saved_config base create)) = (str_strip base, create).
Proof.
  intros Hbase. unfold load_config, saved_config, splitlines.
  rewrite (split_lines_first_line base _ Hbase).
  by destruct create.
Qed.

Lemma str_head_app a b :
  a ≠ EmptyString → str_head (a +:+ b) = str_head a.
Proof. by destruct a. Qed.

Lemma str_last_app a b :
  b ≠ EmptyString → str_last (a +:+ b) = str_last b.
Proof.
  intros Hb. induction a as [|c a IH]; [done|].
  change (String c a +:+ b) with (String c (a +:+ b)). cbn [str_last].
  rewrite IH. destruct (a +:+ b) eqn:E; [|done].
  destruct a; [|done]. by destruct b.
Qed.

Lemma str_strip_id s :
  (∀ c, str_head s = Some c → py_isspace c = false) →
  (∀ c, str_last s = Some c → py_isspace c = false) →
  str_strip s = s.
Proof.
  intros Hh Hl. unfold str_strip. rewrite str_lstrip_id by done.
  by apply str_rstrip_id.
Qed.

Lemma path_join_petice a :
  path_join a "Petice Downloads" = a +:+ "Petice Downloads"
  ∨ path_join a "Petice Downloads" = a +:+ "/" +:+ "Petice Downloads".
Proof.
  unfold path_join. change (startswith "Petice Downloads" "/") with false. cbv iota.
  destruct (str_last a) as [c|]; [|by left].
  destruct (Ascii.eqb_spec c "/") as [->|Hc]; [by left|].
  right. destruct c as [[] [] [] [] [] [] [] []]; try done.
Qed.

(** X20: the folder settings survive a restart.  What the folder dialog
    writes to the configuration file, the start of the program reads back
    as the base folder and the subfolder option the running program has
    just set, provided the chosen folder has no line break in it and no
    whitespace at its ends; whitespace at the ends of the folder is lost on
    the way. *)
Theorem settings_survive_restart desktop ok folder create_sub made vals g text :
  let g' := (handle (CHOOSE_DIR ok folder create_sub made) vals g).2 in
  config_written (CHOOSE_DIR ok folder create_sub made) vals g = Some text →
  no_linebreak folder →
  load_config desktop (Some text) = (str_strip (base_folder g'), create_subfolder g')
  ∧ ((∀ c, str_head folder = Some c → py_isspace c = false) →
     (∀ c, str_last folder = Some c → py_isspace c = false) →
     load_config desktop (Some text) = (base_folder g', create_subfolder g')).
Proof.
  intros g'. unfold config_written. fold g'.
  destruct (ok && negb (String.eqb folder EmptyString) && made) eqn:Hguard; [|done].
  intros [= <-] Hfolder.
  apply andb_true_iff in Hguard as [Hguard ->].
  assert (Hne : folder ≠ EmptyString).
  { apply andb_true_iff in Hguard as [_ Hne]. apply negb_true_iff in Hne.
    by destruct (String.eqb_spec folder EmptyString). }
  assert (Hbase : base_folder g' = folder
                  ∨ base_folder g' = folder +:+ "Petice Downloads"
                  ∨ base_folder g' = folder +:+ "/" +:+ "Petice Downloads").
  { unfold g', handle. unfold_M. rewrite Hguard.
    cbn [fst snd base_folder set_base_folder set_create_subfolder].
    destruct create_sub; [|by left].
    destruct (String.eqb (path_basename folder) "Petice Downloads"); [by left|].
    right. apply path_join_petice. }
  assert (Hnl : no_linebreak (base_folder g')).
  { unfold no_linebreak in *.
    destruct Hbase as [->|[->| ->]]; rewrite ?str_forallb_app, ?Hfolder; done. }
  split; [by apply load_saved_config|].
  intros Hh Hl. rewrite load_saved_config by done. f_equal.
  apply str_strip_id.
  - destruct Hbase as [->|[->| ->]]; rewrite ?str_head_app by done; done.
  - destruct Hbase as [->|[->| ->]]; [done| |];
      rewrite ?str_last_app by done; by intros c [= <-].
Qed.

Lemma settings_survive_restart_witness :
  load_config "/home/u/Desktop" (Some (saved_config "/music/Petice Downloads" true))
  = ("/music/Petice Downloads", true).
Proof.
  refine (proj2 (settings_survive_restart "/home/u/Desktop" true "/music" true true
                   values_idle (gui_init "/dl" true)
                   (saved_config "/music/Petice Downloads" true) _ _) _ _).
  - reflexivity.
  - reflexivity.
  - by intros c [= <-].
  - by intros c [= <-].
Defined.

(** X21: the first start.  With no configuration file yet, the program
    writes one and reads it back: the base folder is the folder Petice
    Downloads on the Desktop, and videos go to subfolders.  (A file that
    cannot be read leaves the Desktop itself as the base folder.) *)
Theorem first_start_settings desktop :
  no_linebreak desktop →
  (∀ c, str_head desktop = Some c → py_isspace c = false) →
  desktop ≠ EmptyString →
  (startup_config desktop None).2 = (path_join desktop "Petice Downloads", true)
  ∧ load_config desktop None = (desktop, true).
Proof.
  intros Hnl Hh Hne. split; [|done].
  unfold startup_config, load_config, default_config, splitlines.
  pose proof (path_join_petice desktop) as Hbase.
  assert (Hnl' : no_linebreak (path_join desktop "Petice Downloads")).
  { unfold no_linebreak in *.
    destruct Hbase as [->| ->]; rewrite ?str_forallb_app, ?Hnl; done. }
  rewrite (split_lines_first_line _ _ Hnl'). cbn [snd].
  change (split_lines _).1 with "True". change (split_lines _).2 with [EmptyString].
  cbn [last removelast]. cbv iota. f_equal.
  apply str_strip_id.
  - destruct Hbase as [->| ->]; rewrite ?str_head_app by done; done.
  - destruct Hbase as [->| ->]; rewrite ?str_last_app by done; by intros c [= <-].
Qed.

Lemma first_start_settings_witness :
  (startup_config "/home/u/Desktop" None).2
  = ("/home/u/Desktop/Petice Downloads", true).
Proof.
  refine (proj1 (first_start_settings "/home/u/Desktop" _ _ _)).
  - reflexivity.
  - by intros c [= <-].
  - discriminate.
Defined.

(* ===================================================================== *)
(** * A download started before its entry is resolved                     *)
(* ===================================================================== *)

Lemma proc_run_empty W TW sched paths p :
  entries (proc_info p) = [] →
  sent (proc_run W TW sched paths p).2
  = [STATUS "Starting downloads"; STATUS "Empty content"; THREAD_END].
Proof.
  intros He. unfold proc_run.
  unfold download_process, download_process_try, download_process_concurrent,
    download_process_concurrent_try, put.
  unfold_M. rewrite He. by destruct (proc_max_workers p).
Qed.

(** X22: a download started while the newest entry of the queue has no
    items yet (its look-up has not returned) goes round in circles.  The
    Download handler takes that entry as it is; the job finds nothing in it
    and ends with Empty content, without QUEUE_COMPLETE; the loop, at
    THREAD_END, finds the queue as it was and posts Download again.  The
    state is then as before the first Download, status text apart, so the
    same happens again until the look-up changes the entry. *)
Theorem unresolved_entry_restarts_download W TW sched paths vals g newest :
  let g1 := after (handle DOWNLOAD vals) g in
  let msgs := match download_proc g1 with
              | Some p => sent (proc_run W TW sched paths p).2
              | None => []
              end in
  let g2 := read_posted (after (loop_iteration msgs TIMEOUT values_idle) g1) in
  (handle DOWNLOAD vals g).1 = Ok true →
  posted g = [] →
  session_active g = false →
  current_download g = None →
  last (download_queue g) = Some newest →
  entries (dict newest) = [] →
  (0 < initial_total g)%Z →
  (proc_info <$> download_proc g1) = Some (dict newest)
  ∧ msgs = [STATUS "Starting downloads"; STATUS "Empty content"; THREAD_END]
  ∧ download_queue g2 = download_queue g
  ∧ current_download g2 = None ∧ session_active g2 = false
  ∧ initial_total g2 = initial_total g
  ∧ posted g2 = [PostDownload].
Proof.
  intros g1 msgs g2 Hok Hposted Hsession Hcur Hlast Hentries Htotal.
  apply Z.ltb_lt in Htotal.
  assert (Hne : bool_decide (download_queue g = []) = false).
  { apply bool_decide_eq_false_2. intros Hq. by rewrite Hq in Hlast. }
  assert (Hg1 : ∃ target fmt,
            g1 = set_download_proc
                   (Some (Process target (dict newest) fmt (base_folder g) false))
                   (set_cancel_event false
                      (set_status_txt ("Starting...", "yellow")
                         (set_processed_current 0
                            (set_current_total (total (dict newest))
                               (set_current_download (Some newest)
                                  (set_session_active true g))))))).
  { unfold g1, after. revert Hok. unfold handle, set_status. unfold_M. unfold id.
    cbn [fst snd]. rewrite Hlast, Hcur, Htotal. cbn [fst snd].
    destruct (concurrent_mode g); cbn [fst snd]; [|by eexists _, _].
    destruct (py_isdigit _); cbn [fst snd]; [|by eexists _, _].
    destruct (int_of_digits _); cbn [fst snd]; [by eexists _, _|done]. }
  destruct Hg1 as (target & fmt & Hg1).
  assert (Hmsgs : msgs = [STATUS "Starting downloads"; STATUS "Empty content";
                          THREAD_END]).
  { unfold msgs. rewrite Hg1. cbn [download_proc set_download_proc].
    by apply proc_run_empty. }
  split; [by rewrite Hg1|]. split; [exact Hmsgs|].
  unfold g2. rewrite Hmsgs, Hg1.
  unfold read_posted, after, loop_iteration, drain, drain_msg, update_counters, handle,
    set_status.
  unfold_M. simpl. rewrite Hposted. simpl. rewrite Hne. simpl. done.
Qed.

Lemma unresolved_entry_restarts_download_witness :
  let g := after (loop_iteration [] ADD_QUEUE values_url) gui_resolved in
  let g1 := after (handle DOWNLOAD values_idle) g in
  let msgs := match download_proc g1 with
              | Some p => sent (proc_run world_ok (fun _ => world_ok) (fun k => k)
                                         paths0 p).2
              | None => []
              end in
  let g2 := read_posted (after (loop_iteration msgs TIMEOUT values_idle) g1) in
  download_queue g2 = download_queue g ∧ posted g2 = [PostDownload].
Proof.
  intros g g1 msgs g2.
  destruct (unresolved_entry_restarts_download world_ok (fun _ => world_ok)
              (fun k => k) paths0 values_idle g
              (default (Item 0 one_song) (last (download_queue g))))
    as (_ & _ & Hq & _ & _ & _ & Hp); try reflexivity.
  split; [exact Hq|exact Hp].
Defined.
